(** * Antland: pheromone field, ant state machine and spatial grid

    A shallow embedding of the simulation core of the antland repository
    (js/pheromone.js, js/utils.js, the Ant / AntColony, Food and Simulation
    classes and the CONFIG object).

    Numbers.  JavaScript numbers are modelled as exact rationals [Q]; the
    transcendental library functions ([Math.cos], [Math.sin], [Math.atan2],
    [Math.sqrt]) and the constant [Math.PI] are the fields of a record the
    ant code is parameterised by.  Array
    indices are [nat], grid coordinates are [Z] (they can be negative before
    the bounds test).  [Math.random] is a stream of draws with a cursor. *)

From Stdlib Require Import QArith Qround Qminmax ZArith Lia Lqa Bool.
From stdpp Require Import base list gmap.

Local Open Scope Q_scope.

(** ** Numeric helpers *)

(** JavaScript [a < b] on numbers. *)
Definition Qltb (a b : Q) : bool := negb (Qle_bool b a).

Infix "<?" := Qltb (at level 70, no associativity) : Q_scope.

Lemma Qltb_lt a b : (a <? b) = true <-> a < b.
Proof.
  unfold Qltb. rewrite negb_true_iff.
  split; intros H.
  - apply Qnot_le_lt. intros Hle. apply Qle_bool_iff in Hle. congruence.
  - destruct (Qle_bool b a) eqn:E; [|reflexivity].
    apply Qle_bool_iff in E. exfalso. apply (Qlt_not_le _ _ H E).
Qed.

Lemma Qltb_ge a b : (a <? b) = false <-> b <= a.
Proof.
  unfold Qltb. rewrite negb_false_iff. apply Qle_bool_iff.
Qed.

(** [Math.min] and [Math.max] on two numbers, written with the comparison
    so that they compute. *)
Definition Math_min (a b : Q) : Q := if Qle_bool a b then a else b.
Definition Math_max (a b : Q) : Q := if Qle_bool a b then b else a.

Lemma Math_min_le_r a b : Math_min a b <= b.
Proof.
  unfold Math_min. destruct (Qle_bool a b) eqn:E.
  - now apply Qle_bool_iff.
  - apply Qle_refl.
Qed.

Lemma Math_min_glb a b c : c <= a -> c <= b -> c <= Math_min a b.
Proof. unfold Math_min. now destruct (Qle_bool a b). Qed.

(** [Math.floor] and [Math.ceil]. *)
Definition Math_floor (a : Q) : Z := Qfloor a.
Definition Math_ceil (a : Q) : Z := Qceiling a.

(** A 2D point or vector, [{x, y}]. *)
Record Vec := mkVec { vx : Q; vy : Q }.

(** Reading a JavaScript array of numbers at an index.  Inside the array this
    is the stored value.  Past the end JavaScript yields [undefined]; every
    read in the code below is either guarded by a bounds test or followed by
    [|| 0], so the model returns [0] there.

    Writing [a[i] = x] is the list insert [<[ i := x ]> a].  Past the end
    JavaScript would grow the array and the insert does nothing; every write
    below is at an index the bounds test of [posToIndex], a loop bound or the
    neighbour table keeps inside the array of a well-formed grid. *)
Definition arr_get (l : list Q) (i : nat) : Q := default 0 (l !! i).

(** ** CONFIG *)

Record ChannelConfig := mkChannelConfig {
  strength : Q;
  evaporationRate : Q;
  diffusionRate : Q
}.

Record Config := mkConfig {
  (* simulation *)
  speedMultiplier : Q;
  timeStep : Q;
  paused : bool;
  (* ant *)
  ant_count : nat;
  ant_maxCount : nat;
  ant_size : Q;
  ant_speed : Q;
  ant_turnSpeed : Q;
  ant_sensorAngle : Q;
  ant_sensorDistance : Q;
  ant_explorationRate : Q;
  ant_spawnRate : Q;
  ant_energyCapacity : Q;
  ant_energyConsumption : Q;
  ant_carrierSpeed : Q;
  ant_returnHomeBias : Q;
  (* pheromone *)
  pher_toFood : ChannelConfig;
  pher_toNest : ChannelConfig;
  pher_resolution : Q;
  maxIntensity : Q;
  (* food *)
  food_size : Q;
  food_respawnEnabled : bool;
  food_respawnRate : Q;
  (* nest *)
  nest_size : Q;
  (* visualization *)
  showPheromones : bool;
  pheromoneFadeThreshold : Q;
  trailHistory : bool;
  trailHistoryLength : nat
}.

(** The values of the CONFIG object as shipped; [Math.PI / 4] is passed in. *)
Definition default_config (quarter_pi : Q) : Config := {|
  speedMultiplier := 1; timeStep := 1 # 60; paused := false;
  ant_count := 100; ant_maxCount := 500; ant_size := 3; ant_speed := 2;
  ant_turnSpeed := 15 # 100; ant_sensorAngle := quarter_pi;
  ant_sensorDistance := 15; ant_explorationRate := 1 # 10;
  ant_spawnRate := 1 # 2; ant_energyCapacity := 100;
  ant_energyConsumption := 5 # 100; ant_carrierSpeed := 7 # 10;
  ant_returnHomeBias := 1 # 2;
  pher_toFood := mkChannelConfig 100 (995 # 1000) (1 # 10);
  pher_toNest := mkChannelConfig 100 (995 # 1000) (1 # 10);
  pher_resolution := 5; maxIntensity := 500;
  food_size := 4; food_respawnEnabled := true; food_respawnRate := 5 # 100;
  nest_size := 30;
  showPheromones := true; pheromoneFadeThreshold := 5;
  trailHistory := false; trailHistoryLength := 100
|}.

(** ** PheromoneSystem (js/pheromone.js) *)

Module Pheromone.

(** The two grids; a method that takes [grid] in the source is called with
    [this.toFoodGrid] or [this.toNestGrid], so the model passes the name. *)
Inductive Channel := ToFood | ToNest.

Record PheromoneSystem := mkPS {
  resolution : Q;
  cols : Z;
  rows : Z;
  toFoodGrid : list Q;
  toNestGrid : list Q;
  neighbors : list (list nat);
  dirtyRegions : gset nat;
  (* [initVisualizations] has run: [p], [canvasToFood], [canvasToNest] are set *)
  canvasReady : bool;
  visualizationNeedsUpdate : bool
}.

Definition grid_of (ch : Channel) (ps : PheromoneSystem) : list Q :=
  match ch with ToFood => toFoodGrid ps | ToNest => toNestGrid ps end.

Definition set_grid (ch : Channel) (g : list Q) (ps : PheromoneSystem)
  : PheromoneSystem :=
  match ch with
  | ToFood => mkPS (resolution ps) (cols ps) (rows ps) g (toNestGrid ps)
                (neighbors ps) (dirtyRegions ps) (canvasReady ps)
                (visualizationNeedsUpdate ps)
  | ToNest => mkPS (resolution ps) (cols ps) (rows ps) (toFoodGrid ps) g
                (neighbors ps) (dirtyRegions ps) (canvasReady ps)
                (visualizationNeedsUpdate ps)
  end.

#[global] Instance Channel_eq_dec : EqDecision Channel.
Proof. solve_decision. Defined.

Definition other (ch : Channel) : Channel :=
  match ch with ToFood => ToNest | ToNest => ToFood end.

(** A small state monad over the pheromone system: the methods of the class
    read and assign fields of [this]. *)
Definition M (A : Type) : Type := PheromoneSystem -> A * PheromoneSystem.

Definition ret {A} (a : A) : M A := fun ps => (a, ps).
Definition bind {A B} (m : M A) (k : A -> M B) : M B :=
  fun ps => let (a, ps') := m ps in k a ps'.
Definition gets {A} (f : PheromoneSystem -> A) : M A := fun ps => (f ps, ps).
Definition modify (f : PheromoneSystem -> PheromoneSystem) : M unit :=
  fun ps => (tt, f ps).

Notation "'let*' x ':=' m 'in' k" := (bind m (fun x => k))
  (at level 10, x name, m at level 100, k at level 200).
Notation "m '>>' k" := (bind m (fun _ => k))
  (at level 100, k at level 200, right associativity).

Definition run {A} (m : M A) (ps : PheromoneSystem) : A * PheromoneSystem := m ps.
Definition exec {A} (m : M A) (ps : PheromoneSystem) : PheromoneSystem := snd (m ps).
Definition eval {A} (m : M A) (ps : PheromoneSystem) : A := fst (m ps).

(** [getNeighborIndices(col, row)]: the in-bounds Moore neighbours, rows
    outermost, in the order of the two [for] loops. *)
Definition getNeighborIndices (cols rows col row : Z) : list nat :=
  flat_map (fun y =>
    flat_map (fun x =>
      if ((x =? 0) && (y =? 0))%Z then []
      else
        let newCol := (col + x)%Z in
        let newRow := (row + y)%Z in
        if ((0 <=? newCol) && (newCol <? cols) &&
            (0 <=? newRow) && (newRow <? rows))%Z
        then [Z.to_nat (newRow * cols + newCol)]
        else [])
      [-1; 0; 1]%Z)
    [-1; 0; 1]%Z.

(** The table [this.neighbors], filled row by row. *)
Definition build_neighbors (cols rows : Z) : list (list nat) :=
  flat_map (fun row =>
    map (fun col => getNeighborIndices cols rows (Z.of_nat col) (Z.of_nat row))
        (seq 0 (Z.to_nat cols)))
    (seq 0 (Z.to_nat rows)).

(** [new Array(n).fill(0)]. *)
Definition zeros (n : Z) : list Q := replicate (Z.to_nat n) 0.

(** The constructor. *)
Definition new (width height res : Q) : PheromoneSystem :=
  let c := Math_ceil (width / res) in
  let r := Math_ceil (height / res) in
  {| resolution := res; cols := c; rows := r;
     toFoodGrid := zeros (c * r); toNestGrid := zeros (c * r);
     neighbors := build_neighbors c r;
     dirtyRegions := ∅; canvasReady := false;
     visualizationNeedsUpdate := true |}.

(** [posToIndex(position)]: the cell index, or [-1] outside the grid. *)
Definition posToIndex (ps : PheromoneSystem) (position : Vec) : Z :=
  let col := Math_floor (vx position / resolution ps) in
  let row := Math_floor (vy position / resolution ps) in
  if ((col <? 0) || (cols ps <=? col) || (row <? 0) || (rows ps <=? row))%Z
  then (-1)%Z
  else (row * cols ps + col)%Z.

Definition add_dirty (i : nat) (ps : PheromoneSystem) : PheromoneSystem :=
  mkPS (resolution ps) (cols ps) (rows ps) (toFoodGrid ps) (toNestGrid ps)
       (neighbors ps) ({[ i ]} ∪ dirtyRegions ps) (canvasReady ps)
       (visualizationNeedsUpdate ps).

Definition set_needsUpdate (b : bool) (ps : PheromoneSystem) : PheromoneSystem :=
  mkPS (resolution ps) (cols ps) (rows ps) (toFoodGrid ps) (toNestGrid ps)
       (neighbors ps) (dirtyRegions ps) (canvasReady ps) b.

Definition set_dirty (d : gset nat) (ps : PheromoneSystem) : PheromoneSystem :=
  mkPS (resolution ps) (cols ps) (rows ps) (toFoodGrid ps) (toNestGrid ps)
       (neighbors ps) d (canvasReady ps) (visualizationNeedsUpdate ps).

Section WithConfig.

Variable CONFIG : Config.

(** [deposit(grid, position, amount)]. *)
Definition deposit (ch : Channel) (position : Vec) (amount : Q) : M unit :=
  let* index := gets (fun ps => posToIndex ps position) in
  if (index =? -1)%Z then ret tt
  else
    let i := Z.to_nat index in
    modify (fun ps =>
      set_grid ch (<[ i := Math_min (arr_get (grid_of ch ps) i + amount)
                                    (maxIntensity CONFIG) ]> (grid_of ch ps)) ps) >>
    modify (add_dirty i) >>
    modify (set_needsUpdate true).

Definition depositToFood := deposit ToFood.
Definition depositToNest := deposit ToNest.

(** [getPheromoneAt(grid, position)]. *)
Definition getPheromoneAt (ch : Channel) (position : Vec) : M Q :=
  let* index := gets (fun ps => posToIndex ps position) in
  if (index =? -1)%Z then ret 0
  else gets (fun ps => arr_get (grid_of ch ps) (Z.to_nat index)).

Definition getToFoodAt := getPheromoneAt ToFood.
Definition getToNestAt := getPheromoneAt ToNest.

(** The two scratch arrays [toFoodNext], [toNestNext] of [update] together
    with the dirty set the loop adds to. *)
Record Buf := mkBuf {
  toFoodNext : list Q;
  toNestNext : list Q;
  dirty : gset nat
}.

Definition next_of (ch : Channel) (b : Buf) : list Q :=
  match ch with ToFood => toFoodNext b | ToNest => toNestNext b end.

Definition set_next (ch : Channel) (g : list Q) (b : Buf) : Buf :=
  match ch with
  | ToFood => mkBuf g (toNestNext b) (dirty b)
  | ToNest => mkBuf (toFoodNext b) g (dirty b)
  end.

Definition mark (i : nat) (b : Buf) : Buf :=
  mkBuf (toFoodNext b) (toNestNext b) ({[ i ]} ∪ dirty b).

Definition chan_cfg (ch : Channel) : ChannelConfig :=
  match ch with ToFood => pher_toFood CONFIG | ToNest => pher_toNest CONFIG end.

Definition threshold : Q := pheromoneFadeThreshold CONFIG.

(** The value a cell has after the evaporation step of [update]. *)
Definition evaporated (ch : Channel) (v : Q) : Q :=
  if threshold <? v then
    let v1 := v * evaporationRate (chan_cfg ch) in
    if v1 <? threshold then 0 else v1
  else v.

(** The evaporation block of one channel at cell [i]: the local variable
    after the block and the buffers. *)
Definition evaporate (ch : Channel) (i : nat) (v : Q) (b : Buf) : Q * Buf :=
  if threshold <? v then
    let v1 := v * evaporationRate (chan_cfg ch) in
    let v2 := if v1 <? threshold then 0 else v1 in
    (v2, mark i (set_next ch (<[ i := v2 ]> (next_of ch b)) b))
  else (v, b).

(** One channel's part of the body of [for (const neighborIdx of neighbors)]. *)
Definition diffuse_to (ch : Channel) (i : nat) (v : Q) (len : nat)
    (neighborIdx : nat) (b : Buf) : Buf :=
  if threshold <? v then
    let diffAmount := v * diffusionRate (chan_cfg ch) / inject_Z (Z.of_nat len) in
    let g1 := <[ neighborIdx := arr_get (next_of ch b) neighborIdx + diffAmount ]>
                (next_of ch b) in
    let g2 := <[ i := arr_get g1 i - diffAmount ]> g1 in
    mark neighborIdx (set_next ch g2 b)
  else b.

(** The body of the main loop of [update] at index [i]; [ps] is [this] as it
    was when [update] was entered. *)
Definition update_cell (ps : PheromoneSystem) (b : Buf) (i : nat) : Buf :=
  let toFoodValue := arr_get (toFoodGrid ps) i in
  let toNestValue := arr_get (toNestGrid ps) i in
  let '(toFoodValue, b) := evaporate ToFood i toFoodValue b in
  let '(toNestValue, b) := evaporate ToNest i toNestValue b in
  if (threshold <? toFoodValue) || (threshold <? toNestValue) then
    let nbrs := default [] (neighbors ps !! i) in
    fold_left (fun b neighborIdx =>
                 diffuse_to ToNest i toNestValue (length nbrs) neighborIdx
                   (diffuse_to ToFood i toFoodValue (length nbrs) neighborIdx b))
              nbrs b
  else b.

(** [updateAllVisualizations()]: drawing is not modelled, the dirty set is
    emptied once the canvases exist. *)
Definition updateAllVisualizations : M unit :=
  let* ready := gets canvasReady in
  if negb ready then ret tt else modify (set_dirty ∅).

Definition updateVisualizations : M unit :=
  let* ready := gets canvasReady in
  if negb ready then ret tt else updateAllVisualizations.

(** [update()]: evaporation and diffusion. *)
Definition update : M unit :=
  if paused CONFIG then ret tt
  else
    let* ps := gets (fun ps => ps) in
    let b := fold_left (update_cell ps) (seq 0 (length (toFoodGrid ps)))
               (mkBuf (toFoodGrid ps) (toNestGrid ps) (dirtyRegions ps)) in
    modify (fun ps => set_dirty (dirty b)
                        (set_grid ToNest (toNestNext b)
                           (set_grid ToFood (toFoodNext b) ps))) >>
    let* needs := gets visualizationNeedsUpdate in
    if needs && showPheromones CONFIG then
      updateVisualizations >> modify (set_needsUpdate false)
    else ret tt.

(** [clear()]. *)
Definition clear : M unit :=
  modify (fun ps => set_grid ToFood (replicate (length (toFoodGrid ps)) 0) ps) >>
  modify (fun ps => set_grid ToNest (replicate (length (toNestGrid ps)) 0) ps) >>
  modify (fun ps => set_dirty (list_to_set (seq 0 (length (toFoodGrid ps)))) ps) >>
  modify (set_needsUpdate true) >>
  updateAllVisualizations.

(** [x || 0] on a number. *)
Definition or_zero (x : Q) : Q := if Qeq_bool x 0 then 0 else x.

(** The copy loops of [resize] for one grid. *)
Definition resize_copy (oldCols newCols copyRows copyCols : nat)
    (old new : list Q) : list Q :=
  fold_left (fun g row =>
    fold_left (fun g col =>
      let oldIndex := (row * oldCols + col)%nat in
      let newIndex := (row * newCols + col)%nat in
      <[ newIndex := or_zero (arr_get old oldIndex) ]> g)
      (seq 0 copyCols) g)
    (seq 0 copyRows) new.

(** [resize(width, height)]. *)
Definition resize (width height : Q) : M unit :=
  let* ps := gets (fun ps => ps) in
  let newCols := Math_ceil (width / resolution ps) in
  let newRows := Math_ceil (height / resolution ps) in
  let copyRows := Z.to_nat (Z.min (rows ps) newRows) in
  let copyCols := Z.to_nat (Z.min (cols ps) newCols) in
  let newToFoodGrid :=
    resize_copy (Z.to_nat (cols ps)) (Z.to_nat newCols) copyRows copyCols
      (toFoodGrid ps) (zeros (newCols * newRows)) in
  let newToNestGrid :=
    resize_copy (Z.to_nat (cols ps)) (Z.to_nat newCols) copyRows copyCols
      (toNestGrid ps) (zeros (newCols * newRows)) in
  modify (fun ps =>
    mkPS (resolution ps) newCols newRows newToFoodGrid newToNestGrid
         (build_neighbors newCols newRows) (dirtyRegions ps) (canvasReady ps)
         (visualizationNeedsUpdate ps)) >>
  let* ready := gets canvasReady in
  if ready then
    modify (fun ps => set_dirty (list_to_set (seq 0 (length (toFoodGrid ps)))) ps) >>
    modify (set_needsUpdate true) >>
    updateAllVisualizations
  else ret tt.

End WithConfig.

(** The three sensor readings. *)
Record Sensors := mkSensors { forward : Q; left : Q; right : Q }.

Section Sensing.

Variables Math_cos Math_sin : Q -> Q.

(** [sensePheromone(grid, position, angle, sensorAngle, sensorDistance)]. *)
Definition sensePheromone (ch : Channel) (position : Vec)
    (angle sensorAngle sensorDistance : Q) : M Sensors :=
  let leftSensorAngle := angle - sensorAngle in
  let rightSensorAngle := angle + sensorAngle in
  let forwardSensor :=
    mkVec (vx position + Math_cos angle * sensorDistance)
          (vy position + Math_sin angle * sensorDistance) in
  let leftSensor :=
    mkVec (vx position + Math_cos leftSensorAngle * sensorDistance)
          (vy position + Math_sin leftSensorAngle * sensorDistance) in
  let rightSensor :=
    mkVec (vx position + Math_cos rightSensorAngle * sensorDistance)
          (vy position + Math_sin rightSensorAngle * sensorDistance) in
  let* forwardValue := getPheromoneAt ch forwardSensor in
  let* leftValue := getPheromoneAt ch leftSensor in
  let* rightValue := getPheromoneAt ch rightSensor in
  ret (mkSensors forwardValue leftValue rightValue).

End Sensing.

(** Well-formed systems: what the constructor and [resize] establish. *)
Record wf (ps : PheromoneSystem) : Prop := mkWf {
  wf_cols : (0 <= cols ps)%Z;
  wf_rows : (0 <= rows ps)%Z;
  wf_food : length (toFoodGrid ps) = Z.to_nat (cols ps * rows ps);
  wf_nest : length (toNestGrid ps) = Z.to_nat (cols ps * rows ps);
  wf_nbrs : neighbors ps = build_neighbors (cols ps) (rows ps)
}.

Lemma new_wf width height res :
  (0 <= Math_ceil (width / res))%Z -> (0 <= Math_ceil (height / res))%Z ->
  wf (new width height res).
Proof.
  intros Hc Hr. constructor; simpl; try assumption; try reflexivity;
    unfold zeros; apply length_replicate.
Qed.

(** All cells of both channels lie in [[0, maxIntensity]]. *)
Definition in_range (mx : Q) (v : Q) : Prop := 0 <= v /\ v <= mx.

Definition cells_in_range (mx : Q) (ps : PheromoneSystem) : Prop :=
  Forall (in_range mx) (toFoodGrid ps) /\ Forall (in_range mx) (toNestGrid ps).

(** The same test as a boolean, for evaluation. *)
Definition in_rangeb (mx : Q) (v : Q) : bool := Qle_bool 0 v && Qle_bool v mx.

Definition cells_in_rangeb (mx : Q) (ps : PheromoneSystem) : bool :=
  forallb (in_rangeb mx) (toFoodGrid ps) && forallb (in_rangeb mx) (toNestGrid ps).

(** The sum of a channel. *)
Definition total (g : list Q) : Q := fold_right Qplus 0 g.

(** *** Facts about [posToIndex] *)

Definition grid_col (ps : PheromoneSystem) (position : Vec) : Z :=
  Math_floor (vx position / resolution ps).
Definition grid_row (ps : PheromoneSystem) (position : Vec) : Z :=
  Math_floor (vy position / resolution ps).

(** The position falls into a cell of the grid. *)
Definition in_bounds (ps : PheromoneSystem) (position : Vec) : Prop :=
  (0 <= grid_col ps position < cols ps)%Z /\
  (0 <= grid_row ps position < rows ps)%Z.

Lemma posToIndex_out ps position :
  posToIndex ps position = (-1)%Z <-> ~ in_bounds ps position.
Proof.
  unfold posToIndex, in_bounds, grid_col, grid_row.
  set (c := Math_floor (vx position / resolution ps)).
  set (r := Math_floor (vy position / resolution ps)).
  destruct ((c <? 0) || (cols ps <=? c) || (r <? 0) || (rows ps <=? r))%Z eqn:E.
  - split; [intros _ | reflexivity].
    rewrite !orb_true_iff in E. lia.
  - rewrite !orb_false_iff in E.
    split; [intros H | intros H; exfalso; apply H; lia].
    exfalso. nia.
Qed.

Lemma posToIndex_in ps position :
  in_bounds ps position ->
  posToIndex ps position = (grid_row ps position * cols ps + grid_col ps position)%Z /\
  (0 <= posToIndex ps position < cols ps * rows ps)%Z.
Proof.
  intros [Hc Hr].
  assert (E : posToIndex ps position =
              (grid_row ps position * cols ps + grid_col ps position)%Z).
  { unfold posToIndex. fold (grid_col ps position) (grid_row ps position).
    destruct ((grid_col ps position <? 0) || (cols ps <=? grid_col ps position) ||
              (grid_row ps position <? 0) || (rows ps <=? grid_row ps position))%Z eqn:E;
      [|reflexivity].
    rewrite !orb_true_iff in E. lia. }
  split; [exact E|]. rewrite E. nia.
Qed.

Lemma posToIndex_cases ps position :
  (~ in_bounds ps position /\ posToIndex ps position = (-1)%Z) \/
  (in_bounds ps position /\ posToIndex ps position <> (-1)%Z).
Proof.
  destruct (Z.eq_dec (posToIndex ps position) (-1)%Z) as [E|E].
  - left. split; [now apply posToIndex_out | exact E].
  - right. split; [|exact E].
    unfold in_bounds.
    destruct (Z_lt_dec (grid_col ps position) 0);
      [exfalso; apply E, posToIndex_out; unfold in_bounds; lia|].
    destruct (Z_lt_dec (grid_col ps position) (cols ps));
      [|exfalso; apply E, posToIndex_out; unfold in_bounds; lia].
    destruct (Z_lt_dec (grid_row ps position) 0);
      [exfalso; apply E, posToIndex_out; unfold in_bounds; lia|].
    destruct (Z_lt_dec (grid_row ps position) (rows ps));
      [|exfalso; apply E, posToIndex_out; unfold in_bounds; lia].
    lia.
Qed.

Lemma posToIndex_lt_length ps ch position :
  wf ps -> in_bounds ps position ->
  (Z.to_nat (posToIndex ps position) < length (grid_of ch ps))%nat.
Proof.
  intros Hwf Hin.
  destruct (posToIndex_in ps position Hin) as [_ Hb].
  destruct ch; simpl; [rewrite (wf_food ps Hwf) | rewrite (wf_nest ps Hwf)]; lia.
Qed.

Lemma arr_get_lookup (l : list Q) i v : l !! i = Some v -> arr_get l i = v.
Proof. unfold arr_get. now intros ->. Qed.

Lemma grid_of_set_grid_same ch g ps : grid_of ch (set_grid ch g ps) = g.
Proof. now destruct ch. Qed.

Lemma grid_of_set_grid_other ch g ps :
  grid_of (other ch) (set_grid ch g ps) = grid_of (other ch) ps.
Proof. now destruct ch. Qed.

(** *** Deposit *)

(** The state [deposit] leaves behind when the position is inside the grid. *)
Lemma deposit_exec_in CONFIG ch position amount ps :
  posToIndex ps position <> (-1)%Z ->
  exec (deposit CONFIG ch position amount) ps =
  let i := Z.to_nat (posToIndex ps position) in
  set_needsUpdate true
    (add_dirty i
       (set_grid ch (<[ i := Math_min (arr_get (grid_of ch ps) i + amount)
                                     (maxIntensity CONFIG) ]> (grid_of ch ps)) ps)).
Proof.
  intros Hne. unfold exec, deposit, bind, gets, modify, ret. simpl.
  destruct (posToIndex ps position =? -1)%Z eqn:E; [|reflexivity].
  apply Z.eqb_eq in E. congruence.
Qed.

Lemma deposit_run_out CONFIG ch position amount ps :
  posToIndex ps position = (-1)%Z ->
  run (deposit CONFIG ch position amount) ps = (tt, ps).
Proof.
  intros E. unfold run, deposit, bind, gets, ret. simpl. now rewrite E.
Qed.

(** C5.  [deposit] on a well-formed field: a position outside the grid
    leaves the whole system as it was (and returns normally); a position
    inside the grid replaces the addressed cell of the chosen channel by
    [min (current + amount) maxIntensity], keeps every other cell of that
    channel and the whole other channel. *)
Theorem deposit_clamps_or_ignores CONFIG ps ch position amount :
  wf ps ->
  (~ in_bounds ps position ->
     run (deposit CONFIG ch position amount) ps = (tt, ps)) /\
  (in_bounds ps position ->
     let i := Z.to_nat (grid_row ps position * cols ps + grid_col ps position) in
     let ps' := exec (deposit CONFIG ch position amount) ps in
     exists current,
       grid_of ch ps !! i = Some current /\
       grid_of ch ps' !! i = Some (Math_min (current + amount) (maxIntensity CONFIG)) /\
       (forall j, j <> i -> grid_of ch ps' !! j = grid_of ch ps !! j) /\
       length (grid_of ch ps') = length (grid_of ch ps) /\
       grid_of (other ch) ps' = grid_of (other ch) ps).
Proof.
  intros Hwf. split.
  - intros Hout. apply deposit_run_out. now apply posToIndex_out.
  - intros Hin i ps'.
    destruct (posToIndex_in ps position Hin) as [Eidx Hb].
    assert (Hne : posToIndex ps position <> (-1)%Z) by lia.
    pose proof (posToIndex_lt_length ps ch position Hwf Hin) as Hlt.
    subst ps'. rewrite (deposit_exec_in _ _ _ _ _ Hne). cbv zeta.
    rewrite Eidx in *. fold i in Hlt |- *.
    destruct (lookup_lt_is_Some_2 (grid_of ch ps) i Hlt) as [current Hcur].
    exists current. rewrite (arr_get_lookup _ _ _ Hcur).
    assert (G : forall g, grid_of ch (set_needsUpdate true (add_dirty i (set_grid ch g ps))) = g)
      by (intros g; now destruct ch).
    assert (G' : forall g, grid_of (other ch) (set_needsUpdate true (add_dirty i (set_grid ch g ps)))
                           = grid_of (other ch) ps)
      by (intros g; now destruct ch).
    rewrite G, G'. repeat split.
    + exact Hcur.
    + now apply list_lookup_insert_eq.
    + intros j Hj. apply list_lookup_insert_ne. congruence.
    + apply length_insert.
Qed.

(** *** Sensing *)

(** [v] is what the grid of channel [ch] holds at [position]: the value of the
    cell the position falls into, and [0] outside the grid. *)
Definition sampled (ps : PheromoneSystem) (ch : Channel) (position : Vec) (v : Q) : Prop :=
  (~ in_bounds ps position /\ v = 0) \/
  (in_bounds ps position /\
   grid_of ch ps !! Z.to_nat (grid_row ps position * cols ps + grid_col ps position)
     = Some v).

Lemma getPheromoneAt_run ps ch position :
  wf ps ->
  exists v, run (getPheromoneAt ch position) ps = (v, ps) /\ sampled ps ch position v.
Proof.
  intros Hwf. unfold run, getPheromoneAt, bind, gets, ret. simpl.
  destruct (posToIndex ps position =? -1)%Z eqn:E.
  - apply Z.eqb_eq in E. exists 0. split; [reflexivity|].
    left. split; [|reflexivity]. now apply posToIndex_out.
  - apply Z.eqb_neq in E.
    destruct (posToIndex_cases ps position) as [[_ E']|[Hin _]]; [congruence|].
    pose proof (posToIndex_lt_length ps ch position Hwf Hin) as Hlt.
    destruct (lookup_lt_is_Some_2 (grid_of ch ps) _ Hlt) as [v Hv].
    exists v. rewrite (arr_get_lookup _ _ _ Hv). split; [reflexivity|].
    right.
    split; [exact Hin|].
    destruct (posToIndex_in ps position Hin) as [Eidx _]. now rewrite <- Eidx.
Qed.

(** The three points [sensePheromone] samples. *)
Definition sensor_point (Math_cos Math_sin : Q -> Q) (position : Vec)
    (angle sensorDistance : Q) : Vec :=
  mkVec (vx position + Math_cos angle * sensorDistance)
        (vy position + Math_sin angle * sensorDistance).

(** C10.  Sensing reads and never writes: [getPheromoneAt] and
    [sensePheromone] return the values held at the sampled points ([0] for a
    point outside the grid) and the system after the call is the system
    before it, field by field. *)
Theorem sensing_is_pure_read Math_cos Math_sin ps ch position angle sensorAngle sensorDistance :
  wf ps ->
  (exists v, run (getPheromoneAt ch position) ps = (v, ps) /\
             sampled ps ch position v) /\
  (exists f l r,
     run (sensePheromone Math_cos Math_sin ch position angle sensorAngle sensorDistance) ps
       = (mkSensors f l r, ps) /\
     sampled ps ch (sensor_point Math_cos Math_sin position angle sensorDistance) f /\
     sampled ps ch (sensor_point Math_cos Math_sin position (angle - sensorAngle) sensorDistance) l /\
     sampled ps ch (sensor_point Math_cos Math_sin position (angle + sensorAngle) sensorDistance) r).
Proof.
  intros Hwf. split; [now apply getPheromoneAt_run|].
  destruct (getPheromoneAt_run ps ch
              (sensor_point Math_cos Math_sin position angle sensorDistance) Hwf)
    as (f & Hf & Sf).
  destruct (getPheromoneAt_run ps ch
              (sensor_point Math_cos Math_sin position (angle - sensorAngle) sensorDistance) Hwf)
    as (l & Hl & Sl).
  destruct (getPheromoneAt_run ps ch
              (sensor_point Math_cos Math_sin position (angle + sensorAngle) sensorDistance) Hwf)
    as (r & Hr & Sr).
  exists f, l, r. repeat split; try assumption.
  unfold run, sensePheromone, bind in *. unfold sensor_point in Hf, Hl, Hr.
  rewrite Hf, Hl, Hr. reflexivity.
Qed.

(** *** The evaporation and diffusion pass, cell by cell *)

Section UpdateFacts.

Variable CONFIG : Config.

Local Abbreviation th := (threshold CONFIG).

Lemma next_of_set_next_same ch g b : next_of ch (set_next ch g b) = g.
Proof. now destruct ch. Qed.

Lemma next_of_set_next_other ch ch' g b :
  ch' <> ch -> next_of ch' (set_next ch g b) = next_of ch' b.
Proof. destruct ch, ch'; simpl; congruence. Qed.

Lemma next_of_mark ch i b : next_of ch (mark i b) = next_of ch b.
Proof. now destruct ch. Qed.

Lemma evaporate_fst ch i v b :
  fst (evaporate CONFIG ch i v b) = evaporated CONFIG ch v.
Proof. unfold evaporate, evaporated. now destruct (th <? v). Qed.

Lemma evaporate_length ch ch' i v b :
  length (next_of ch' (snd (evaporate CONFIG ch i v b))) = length (next_of ch' b).
Proof.
  unfold evaporate. destruct (th <? v); [|reflexivity]. simpl.
  rewrite next_of_mark.
  destruct ch, ch'; simpl; try reflexivity; apply length_insert.
Qed.

Lemma evaporate_frame ch ch' i v b k :
  ch' <> ch \/ k <> i ->
  next_of ch' (snd (evaporate CONFIG ch i v b)) !! k = next_of ch' b !! k.
Proof.
  intros H. unfold evaporate. destruct (th <? v); [|reflexivity]. simpl.
  rewrite next_of_mark.
  destruct ch, ch'; simpl; try reflexivity;
    (destruct H as [H|H]; [congruence|]); apply list_lookup_insert_ne; congruence.
Qed.

Lemma evaporate_idle ch i v b :
  (th <? v) = false -> snd (evaporate CONFIG ch i v b) = b.
Proof. unfold evaporate. now intros ->. Qed.

Lemma evaporate_at ch i v b :
  (th <? v) = true -> (i < length (next_of ch b))%nat ->
  next_of ch (snd (evaporate CONFIG ch i v b)) !! i = Some (evaporated CONFIG ch v).
Proof.
  intros Hv Hi. unfold evaporate, evaporated. rewrite Hv. simpl.
  rewrite next_of_mark, next_of_set_next_same.
  now apply list_lookup_insert_eq.
Qed.

Lemma diffuse_to_length ch ch' i v len nb b :
  length (next_of ch' (diffuse_to CONFIG ch i v len nb b)) = length (next_of ch' b).
Proof.
  unfold diffuse_to. destruct (th <? v); [|reflexivity].
  rewrite next_of_mark.
  destruct ch, ch'; simpl; try reflexivity; now rewrite !length_insert.
Qed.

Lemma diffuse_to_frame ch ch' i v len nb b k :
  ch' <> ch \/ (k <> i /\ k <> nb) \/ (th <? v) = false ->
  next_of ch' (diffuse_to CONFIG ch i v len nb b) !! k = next_of ch' b !! k.
Proof.
  intros H. unfold diffuse_to. destruct (th <? v) eqn:E; [|reflexivity].
  rewrite next_of_mark.
  destruct H as [H|[[H1 H2]|H]]; [| |discriminate].
  - now rewrite next_of_set_next_other.
  - destruct (decide (ch' = ch)) as [->|Hne].
    + rewrite next_of_set_next_same.
      rewrite list_lookup_insert_ne by congruence.
      now rewrite list_lookup_insert_ne by congruence.
    + now rewrite next_of_set_next_other.
Qed.

(** The inner loop over the neighbours of cell [i]. *)
Definition diffuse_all (i : nat) (fv nv : Q) (len : nat) (nbrs : list nat) (b : Buf) : Buf :=
  fold_left (fun b neighborIdx =>
               diffuse_to CONFIG ToNest i nv len neighborIdx
                 (diffuse_to CONFIG ToFood i fv len neighborIdx b))
            nbrs b.

Definition val_of (ch : Channel) (fv nv : Q) : Q :=
  match ch with ToFood => fv | ToNest => nv end.

Lemma diffuse_all_length ch i fv nv len nbrs b :
  length (next_of ch (diffuse_all i fv nv len nbrs b)) = length (next_of ch b).
Proof.
  unfold diffuse_all. revert b.
  induction nbrs as [|nb nbrs IH]; intros b; simpl; [reflexivity|].
  now rewrite IH, !diffuse_to_length.
Qed.

Lemma diffuse_all_frame ch i fv nv len nbrs b k :
  (k <> i /\ k ∉ nbrs) \/ (th <? val_of ch fv nv) = false ->
  next_of ch (diffuse_all i fv nv len nbrs b) !! k = next_of ch b !! k.
Proof.
  unfold diffuse_all. revert b.
  induction nbrs as [|nb nbrs IH]; intros b H; simpl; [reflexivity|].
  rewrite IH.
  - destruct ch; simpl in H.
    + rewrite (diffuse_to_frame ToNest ToFood) by (left; discriminate).
      apply diffuse_to_frame. right.
      destruct H as [[H1 H2]|H]; [left|now right].
      split; [exact H1|]. intros ->. apply H2. left.
    + rewrite (diffuse_to_frame ToNest ToNest).
      * apply diffuse_to_frame. left; discriminate.
      * right. destruct H as [[H1 H2]|H]; [left|now right].
        split; [exact H1|]. intros ->. apply H2. left.
  - destruct H as [[H1 H2]|H]; [left|now right].
    split; [exact H1|]. intros Hin. apply H2. now right.
Qed.

(** The inner loop moves value around and creates or destroys none: it
    leaves the sum of each channel as it found it. *)
Lemma total_insert (l : list Q) i x v :
  l !! i = Some v -> total (<[ i := x ]> l) == total l - v + x.
Proof.
  revert i. induction l as [|y l IH]; intros [|i] H; simpl in H; try discriminate.
  - injection H as ->. simpl. ring.
  - simpl. rewrite (IH i H). ring.
Qed.

Lemma diffuse_to_total ch ch' i v len nb b :
  (i < length (next_of ch b))%nat -> (nb < length (next_of ch b))%nat ->
  total (next_of ch' (diffuse_to CONFIG ch i v len nb b)) == total (next_of ch' b).
Proof.
  intros Hi Hnb. unfold diffuse_to. destruct (th <? v); [|reflexivity].
  rewrite next_of_mark.
  destruct (decide (ch' = ch)) as [->|Hne];
    [|rewrite next_of_set_next_other by exact Hne; reflexivity].
  rewrite next_of_set_next_same.
  set (d := v * diffusionRate (chan_cfg CONFIG ch) / inject_Z (Z.of_nat len)).
  destruct (lookup_lt_is_Some_2 (next_of ch b) nb Hnb) as [vn Hvn].
  set (g1 := <[ nb := arr_get (next_of ch b) nb + d ]> (next_of ch b)).
  assert (Hi1 : (i < length g1)%nat) by (unfold g1; now rewrite length_insert).
  destruct (lookup_lt_is_Some_2 g1 i Hi1) as [vi Hvi].
  rewrite (total_insert g1 i _ vi Hvi), (arr_get_lookup _ _ _ Hvi).
  unfold g1. rewrite (total_insert _ nb _ vn Hvn), (arr_get_lookup _ _ _ Hvn).
  ring.
Qed.

Lemma diffuse_all_total ch i fv nv len nbrs b :
  (i < length (toFoodNext b))%nat -> (i < length (toNestNext b))%nat ->
  Forall (fun nb => (nb < length (toFoodNext b))%nat /\
                    (nb < length (toNestNext b))%nat) nbrs ->
  total (next_of ch (diffuse_all i fv nv len nbrs b)) == total (next_of ch b).
Proof.
  unfold diffuse_all. revert b.
  induction nbrs as [|nb nbrs IH]; intros b Hf Hn Hall; simpl; [reflexivity|].
  inversion Hall as [|? ? [Hnf Hnn] Hrest]; subst.
  rewrite IH.
  - rewrite (diffuse_to_total ToNest ch).
    + now apply (diffuse_to_total ToFood ch).
    + now rewrite (diffuse_to_length ToFood ToNest).
    + now rewrite (diffuse_to_length ToFood ToNest).
  - now rewrite (diffuse_to_length ToNest ToFood), (diffuse_to_length ToFood ToFood).
  - now rewrite (diffuse_to_length ToNest ToNest), (diffuse_to_length ToFood ToNest).
  - eapply Forall_impl; [exact Hrest|]. intros x [H1 H2]. simpl.
    rewrite (diffuse_to_length ToNest ToFood), (diffuse_to_length ToFood ToFood),
            (diffuse_to_length ToNest ToNest), (diffuse_to_length ToFood ToNest).
    now split.
Qed.

(** [update_cell] with the two evaporation blocks named. *)
Lemma update_cell_unfold ps b i :
  update_cell CONFIG ps b i =
  let fv := evaporated CONFIG ToFood (arr_get (toFoodGrid ps) i) in
  let nv := evaporated CONFIG ToNest (arr_get (toNestGrid ps) i) in
  let b1 := snd (evaporate CONFIG ToFood i (arr_get (toFoodGrid ps) i) b) in
  let b2 := snd (evaporate CONFIG ToNest i (arr_get (toNestGrid ps) i) b1) in
  if (th <? fv) || (th <? nv) then
    diffuse_all i fv nv (length (default [] (neighbors ps !! i)))
      (default [] (neighbors ps !! i)) b2
  else b2.
Proof.
  unfold update_cell. cbv zeta.
  rewrite <- (evaporate_fst ToFood i (arr_get (toFoodGrid ps) i) b).
  destruct (evaporate CONFIG ToFood i (arr_get (toFoodGrid ps) i) b) as [fv b1].
  simpl fst; simpl snd.
  rewrite <- (evaporate_fst ToNest i (arr_get (toNestGrid ps) i) b1).
  destruct (evaporate CONFIG ToNest i (arr_get (toNestGrid ps) i) b1) as [nv b2].
  reflexivity.
Qed.

Lemma val_of_evaporated ch ps i :
  val_of ch (evaporated CONFIG ToFood (arr_get (toFoodGrid ps) i))
            (evaporated CONFIG ToNest (arr_get (toNestGrid ps) i))
  = evaporated CONFIG ch (arr_get (grid_of ch ps) i).
Proof. now destruct ch. Qed.

Lemma update_cell_length ps ch b i :
  length (next_of ch (update_cell CONFIG ps b i)) = length (next_of ch b).
Proof.
  rewrite update_cell_unfold. cbv zeta.
  destruct (_ || _); [rewrite diffuse_all_length|]; now rewrite !evaporate_length.
Qed.

(** A step at another cell [j] leaves cell [k] alone unless [j] diffuses
    into [k]. *)
Lemma update_cell_frame ps ch b j k :
  j <> k ->
  k ∉ default [] (neighbors ps !! j) \/
    (th <? evaporated CONFIG ch (arr_get (grid_of ch ps) j)) = false ->
  next_of ch (update_cell CONFIG ps b j) !! k = next_of ch b !! k.
Proof.
  intros Hjk H. rewrite update_cell_unfold. cbv zeta.
  assert (E : forall b0,
    next_of ch (snd (evaporate CONFIG ToNest j (arr_get (toNestGrid ps) j)
                  (snd (evaporate CONFIG ToFood j (arr_get (toFoodGrid ps) j) b0)))) !! k
    = next_of ch b0 !! k).
  { intros b0. rewrite !evaporate_frame by (right; congruence). reflexivity. }
  destruct (_ || _); [|apply E].
  rewrite diffuse_all_frame; [apply E|].
  rewrite val_of_evaporated.
  destruct H as [H|H]; [left|now right]. split; [congruence|exact H].
Qed.

(** The step at a cell that is not above the threshold leaves it alone. *)
Lemma update_cell_idle ps ch b k :
  (th <? arr_get (grid_of ch ps) k) = false ->
  next_of ch (update_cell CONFIG ps b k) !! k = next_of ch b !! k.
Proof.
  intros Hv. rewrite update_cell_unfold. cbv zeta.
  assert (Ev : evaporated CONFIG ch (arr_get (grid_of ch ps) k) = arr_get (grid_of ch ps) k).
  { unfold evaporated. now rewrite Hv. }
  assert (E : forall b0,
    next_of ch (snd (evaporate CONFIG ToNest k (arr_get (toNestGrid ps) k)
                  (snd (evaporate CONFIG ToFood k (arr_get (toFoodGrid ps) k) b0)))) !! k
    = next_of ch b0 !! k).
  { intros b0. destruct ch; simpl in Hv.
    - rewrite (evaporate_frame ToNest ToFood) by (left; discriminate).
      now rewrite evaporate_idle.
    - rewrite (evaporate_idle ToNest) by exact Hv.
      apply evaporate_frame. left; discriminate. }
  destruct (_ || _); [|apply E].
  rewrite diffuse_all_frame; [apply E|].
  right. rewrite val_of_evaporated, Ev. exact Hv.
Qed.

(** The step at a cell above the threshold whose evaporated value does not
    diffuse stores exactly that value. *)
Lemma update_cell_store ps ch b k :
  (k < length (next_of ch b))%nat ->
  (th <? arr_get (grid_of ch ps) k) = true ->
  (th <? evaporated CONFIG ch (arr_get (grid_of ch ps) k)) = false ->
  next_of ch (update_cell CONFIG ps b k) !! k
  = Some (evaporated CONFIG ch (arr_get (grid_of ch ps) k)).
Proof.
  intros Hk Hv Hev. rewrite update_cell_unfold. cbv zeta.
  assert (E : forall b0, (k < length (next_of ch b0))%nat ->
    next_of ch (snd (evaporate CONFIG ToNest k (arr_get (toNestGrid ps) k)
                  (snd (evaporate CONFIG ToFood k (arr_get (toFoodGrid ps) k) b0)))) !! k
    = Some (evaporated CONFIG ch (arr_get (grid_of ch ps) k))).
  { intros b0 Hb0. destruct ch; simpl in Hv.
    - rewrite (evaporate_frame ToNest ToFood) by (left; discriminate).
      now apply evaporate_at.
    - apply evaporate_at; [exact Hv|]. now rewrite evaporate_length. }
  destruct (_ || _); [|now apply E].
  rewrite diffuse_all_frame; [now apply E|].
  right. rewrite val_of_evaporated. exact Hev.
Qed.

(** The main loop of [update]. *)
Definition update_loop (ps : PheromoneSystem) (idx : list nat) (b : Buf) : Buf :=
  fold_left (update_cell CONFIG ps) idx b.

Lemma update_loop_length ps ch idx b :
  length (next_of ch (update_loop ps idx b)) = length (next_of ch b).
Proof.
  unfold update_loop. revert b.
  induction idx as [|j idx IH]; intros b; simpl; [reflexivity|].
  now rewrite IH, update_cell_length.
Qed.

Lemma update_loop_frame ps ch idx b k :
  (forall j, j ∈ idx -> j <> k /\
     (k ∉ default [] (neighbors ps !! j) \/
      (th <? evaporated CONFIG ch (arr_get (grid_of ch ps) j)) = false)) ->
  next_of ch (update_loop ps idx b) !! k = next_of ch b !! k.
Proof.
  unfold update_loop. revert b.
  induction idx as [|j idx IH]; intros b H; simpl; [reflexivity|].
  rewrite IH by (intros j' Hj'; apply H; now right).
  destruct (H j) as [H1 H2]; [left|]. now apply update_cell_frame.
Qed.

(** What [update] leaves in the grids. *)
Lemma update_grid ps ch :
  paused CONFIG = false ->
  grid_of ch (exec (update CONFIG) ps) =
  next_of ch (update_loop ps (seq 0 (length (toFoodGrid ps)))
                (mkBuf (toFoodGrid ps) (toNestGrid ps) (dirtyRegions ps))).
Proof.
  intros Hp. unfold exec, update. rewrite Hp.
  unfold bind, gets, modify, updateVisualizations, updateAllVisualizations, ret.
  fold (update_loop ps (seq 0 (length (toFoodGrid ps)))
          (mkBuf (toFoodGrid ps) (toNestGrid ps) (dirtyRegions ps))).
  set (b := update_loop _ _ _). simpl.
  destruct (visualizationNeedsUpdate ps && showPheromones CONFIG); simpl;
    [destruct (canvasReady ps); simpl|]; now destruct ch.
Qed.

(** As [update_loop_frame], with the step at [k] itself allowed when the
    cell is not above the threshold. *)
Lemma update_loop_quiet ps ch idx b k :
  (th <? arr_get (grid_of ch ps) k) = false ->
  (forall j, j ∈ idx -> j <> k ->
     k ∉ default [] (neighbors ps !! j) \/
     (th <? evaporated CONFIG ch (arr_get (grid_of ch ps) j)) = false) ->
  next_of ch (update_loop ps idx b) !! k = next_of ch b !! k.
Proof.
  intros Hk. unfold update_loop. revert b.
  induction idx as [|j idx IH]; intros b H; simpl; [reflexivity|].
  rewrite IH by (intros j' Hj'; apply H; now right).
  destruct (decide (j = k)) as [->|Hjk].
  - now apply update_cell_idle.
  - apply update_cell_frame; [exact Hjk|]. apply H; [left|exact Hjk].
Qed.

Lemma update_loop_app ps idx1 idx2 b :
  update_loop ps (idx1 ++ idx2) b = update_loop ps idx2 (update_loop ps idx1 b).
Proof. unfold update_loop. apply fold_left_app. Qed.

End UpdateFacts.

(** No cell diffuses into cell [k] of channel [ch] during the pass: every
    cell that has [k] among its neighbours is, after its evaporation step, not
    above the threshold. *)
Definition no_inbound_diffusion (CONFIG : Config) (ps : PheromoneSystem)
    (ch : Channel) (k : nat) : Prop :=
  forall j, j <> k -> k ∈ default [] (neighbors ps !! j) ->
    ~ threshold CONFIG < evaporated CONFIG ch (arr_get (grid_of ch ps) j).

Lemma not_lt_Qltb a b : ~ a < b -> (a <? b) = false.
Proof.
  intros H. destruct (a <? b) eqn:E; [|reflexivity].
  exfalso. apply H. now apply Qltb_lt.
Qed.

Lemma wf_length ps ch : wf ps -> length (grid_of ch ps) = length (toFoodGrid ps).
Proof.
  intros Hwf. destruct ch; simpl; [reflexivity|].
  now rewrite (wf_nest ps Hwf), (wf_food ps Hwf).
Qed.

(** C4 (amended).  With no inbound diffusion, one pass leaves a cell that is
    at or below the fade threshold exactly as it was, and turns a cell that is
    strictly above the threshold and whose evaporated value falls strictly
    below it into exactly [0]. *)
Theorem snap_only_from_above CONFIG ps ch k v :
  wf ps ->
  paused CONFIG = false ->
  0 <= threshold CONFIG ->
  grid_of ch ps !! k = Some v ->
  no_inbound_diffusion CONFIG ps ch k ->
  let g' := grid_of ch (exec (update CONFIG) ps) in
  (v <= threshold CONFIG -> g' !! k = Some v) /\
  (threshold CONFIG < v ->
   v * evaporationRate (chan_cfg CONFIG ch) < threshold CONFIG ->
   g' !! k = Some 0).
Proof.
  intros Hwf Hp Hth Hv Hno g'. subst g'. rewrite (update_grid CONFIG ps ch Hp).
  set (b0 := mkBuf (toFoodGrid ps) (toNestGrid ps) (dirtyRegions ps)).
  assert (Hb0 : next_of ch b0 = grid_of ch ps) by now destruct ch.
  assert (Hget : arr_get (grid_of ch ps) k = v) by now apply arr_get_lookup.
  assert (Hquiet : forall j, j <> k ->
            k ∉ default [] (neighbors ps !! j) \/
            (threshold CONFIG <? evaporated CONFIG ch (arr_get (grid_of ch ps) j)) = false).
  { intros j Hj. destruct (decide (k ∈ default [] (neighbors ps !! j))) as [Hin|Hin];
      [right|now left].
    apply not_lt_Qltb. now apply Hno. }
  split.
  - intros Hle. rewrite update_loop_quiet.
    + now rewrite Hb0.
    + rewrite Hget. now apply Qltb_ge.
    + intros j _ Hj. now apply Hquiet.
  - intros Hgt Hdecay.
    assert (Hk : (k < length (toFoodGrid ps))%nat).
    { rewrite <- (wf_length ps ch Hwf). apply lookup_lt_is_Some_1. now exists v. }
    assert (Hev : evaporated CONFIG ch v = 0).
    { unfold evaporated.
      rewrite (proj2 (Qltb_lt _ _) Hgt), (proj2 (Qltb_lt _ _) Hdecay). reflexivity. }
    replace (seq 0 (length (toFoodGrid ps)))
      with (seq 0 k ++ [k] ++ seq (S k) (length (toFoodGrid ps) - S k)).
    2:{ change ([k] ++ seq (S k) (length (toFoodGrid ps) - S k))
          with (seq k (S (length (toFoodGrid ps) - S k))).
        rewrite <- seq_app. f_equal. lia. }
    rewrite !update_loop_app.
    rewrite update_loop_frame.
    + unfold update_loop at 1. simpl fold_left.
      rewrite update_cell_store; rewrite ?Hget.
      * now rewrite Hev.
      * rewrite update_loop_length, Hb0, (wf_length ps ch Hwf). exact Hk.
      * now apply Qltb_lt.
      * rewrite Hev. now apply Qltb_ge.
    + intros j Hj. apply elem_of_seq in Hj.
      split; [lia|]. apply Hquiet. lia.
Qed.

(** *** The range invariant under [deposit], [clear] and [resize] *)

Lemma in_range_zero mx : 0 <= mx -> in_range mx 0.
Proof. intros H. split; [apply Qle_refl | exact H]. Qed.

Lemma cells_in_range_lookup mx ps ch i v :
  cells_in_range mx ps -> grid_of ch ps !! i = Some v -> in_range mx v.
Proof.
  intros [Hf Hn] Hv. destruct ch; simpl in Hv.
  - exact (proj1 (Forall_lookup _ _) Hf i v Hv).
  - exact (proj1 (Forall_lookup _ _) Hn i v Hv).
Qed.

Lemma deposit_preserves_range CONFIG ps ch position amount :
  0 <= amount ->
  cells_in_range (maxIntensity CONFIG) ps ->
  cells_in_range (maxIntensity CONFIG) (exec (deposit CONFIG ch position amount) ps).
Proof.
  intros Ha Hr.
  destruct (posToIndex_cases ps position) as [[_ E]|[_ Hne]].
  - unfold exec. pose proof (deposit_run_out CONFIG ch position amount ps E) as R.
    unfold run in R. now rewrite R.
  - rewrite (deposit_exec_in _ _ _ _ _ Hne). cbv zeta.
    set (i := Z.to_nat (posToIndex ps position)).
    assert (Hins : Forall (in_range (maxIntensity CONFIG))
              (<[ i := Math_min (arr_get (grid_of ch ps) i + amount) (maxIntensity CONFIG) ]>
                 (grid_of ch ps))).
    { destruct (grid_of ch ps !! i) as [c|] eqn:Hc.
      - apply Forall_insert.
        + destruct Hr as [Hf Hn]. now destruct ch.
        + destruct (cells_in_range_lookup _ _ _ _ _ Hr Hc) as [H0 H1].
          rewrite (arr_get_lookup _ _ _ Hc). split.
          * apply Math_min_glb; [|now apply Qle_trans with c].
            rewrite <- (Qplus_0_r 0). now apply Qplus_le_compat.
          * apply Math_min_le_r.
      - rewrite list_insert_ge by now apply lookup_ge_None.
        destruct Hr as [Hf Hn]. now destruct ch. }
    destruct Hr as [Hf Hn]. destruct ch; split; simpl; assumption.
Qed.

Lemma updateAllVisualizations_grid ch ps :
  grid_of ch (exec updateAllVisualizations ps) = grid_of ch ps.
Proof.
  unfold exec, updateAllVisualizations, bind, gets, modify, ret. simpl.
  destruct (canvasReady ps); simpl; now destruct ch.
Qed.

Lemma clear_grid ch ps :
  grid_of ch (exec clear ps) = replicate (length (grid_of ch ps)) 0.
Proof.
  unfold exec, clear, bind, modify, updateAllVisualizations, gets, ret. simpl.
  destruct (canvasReady ps); simpl; now destruct ch.
Qed.

Lemma clear_preserves_range mx ps :
  cells_in_range mx ps -> cells_in_range mx (exec clear ps).
Proof.
  intros [Hf Hn]. unfold cells_in_range.
  rewrite (clear_grid ToFood), (clear_grid ToNest). simpl.
  split.
  - destruct (toFoodGrid ps) as [|c l]; [constructor|].
    apply Forall_replicate, in_range_zero.
    inversion Hf as [|? ? [H0 H1] _]; subst. now apply Qle_trans with c.
  - destruct (toNestGrid ps) as [|c l]; [constructor|].
    apply Forall_replicate, in_range_zero.
    inversion Hn as [|? ? [H0 H1] _]; subst. now apply Qle_trans with c.
Qed.

Lemma or_zero_in_range mx v : 0 <= mx -> in_range mx v -> in_range mx (or_zero v).
Proof.
  intros Hmx Hv. unfold or_zero. destruct (Qeq_bool v 0); [|exact Hv].
  now apply in_range_zero.
Qed.

Lemma resize_copy_in_range mx oldCols newCols copyRows copyCols old new :
  0 <= mx ->
  Forall (in_range mx) old -> Forall (in_range mx) new ->
  Forall (in_range mx) (resize_copy oldCols newCols copyRows copyCols old new).
Proof.
  intros Hmx Hold. unfold resize_copy.
  generalize (seq 0 copyRows) as rws. intros rws. revert new.
  induction rws as [|row rws IH]; intros new Hnew; simpl; [exact Hnew|].
  apply IH. clear IH.
  generalize (seq 0 copyCols) as cls. intros cls. revert new Hnew.
  induction cls as [|col cls IH]; intros new Hnew; simpl; [exact Hnew|].
  apply IH. apply Forall_insert; [exact Hnew|].
  apply or_zero_in_range; [exact Hmx|].
  unfold arr_get. destruct (old !! _) as [c|] eqn:Hc; simpl.
  - exact (proj1 (Forall_lookup _ _) Hold _ c Hc).
  - now apply in_range_zero.
Qed.

Lemma resize_preserves_range mx ps width height :
  0 <= mx ->
  cells_in_range mx ps -> cells_in_range mx (exec (resize width height) ps).
Proof.
  intros Hmx [Hf Hn].
  assert (Hz : forall n, Forall (in_range mx) (zeros n))
    by (intros n; apply Forall_replicate; now apply in_range_zero).
  unfold exec, resize, bind, gets, modify, updateAllVisualizations, ret. simpl.
  destruct (canvasReady ps); simpl; split; simpl;
    apply resize_copy_in_range; auto.
Qed.

(** *** Well-formedness is kept *)

Lemma resize_copy_length oldCols newCols copyRows copyCols old new :
  length (resize_copy oldCols newCols copyRows copyCols old new) = length new.
Proof.
  unfold resize_copy. generalize (seq 0 copyRows) as rws. intros rws. revert new.
  induction rws as [|row rws IH]; intros new; simpl; [reflexivity|].
  rewrite IH. clear IH.
  generalize (seq 0 copyCols) as cls. intros cls. revert new.
  induction cls as [|col cls IH]; intros new; simpl; [reflexivity|].
  now rewrite IH, length_insert.
Qed.

Lemma resize_wf ps width height :
  (0 <= Math_ceil (width / resolution ps))%Z ->
  (0 <= Math_ceil (height / resolution ps))%Z ->
  wf (exec (resize width height) ps).
Proof.
  intros Hc Hr.
  unfold exec, resize, bind, gets, modify, updateAllVisualizations, ret. simpl.
  destruct (canvasReady ps); simpl; constructor; simpl; try assumption;
    try reflexivity; rewrite resize_copy_length; unfold zeros; apply length_replicate.
Qed.

Lemma deposit_wf CONFIG ps ch position amount :
  wf ps -> wf (exec (deposit CONFIG ch position amount) ps).
Proof.
  intros Hwf.
  destruct (posToIndex_cases ps position) as [[_ E]|[_ Hne]].
  - unfold exec. pose proof (deposit_run_out CONFIG ch position amount ps E) as R.
    unfold run in R. now rewrite R.
  - rewrite (deposit_exec_in _ _ _ _ _ Hne). cbv zeta.
    destruct Hwf as [H1 H2 H3 H4 H5].
    destruct ch; constructor; simpl; try assumption; now rewrite length_insert.
Qed.

Lemma update_wf CONFIG ps : wf ps -> wf (exec (update CONFIG) ps).
Proof.
  intros Hwf. destruct (paused CONFIG) eqn:Hp.
  - unfold exec, update. now rewrite Hp.
  - pose proof (update_grid CONFIG ps ToFood Hp) as Gf.
    pose proof (update_grid CONFIG ps ToNest Hp) as Gn.
    simpl in Gf, Gn.
    assert (Hshape : cols (exec (update CONFIG) ps) = cols ps /\
                     rows (exec (update CONFIG) ps) = rows ps /\
                     neighbors (exec (update CONFIG) ps) = neighbors ps).
    { unfold exec, update. rewrite Hp.
      unfold bind, gets, modify, updateVisualizations, updateAllVisualizations, ret.
      simpl.
      destruct (visualizationNeedsUpdate ps && showPheromones CONFIG); simpl;
        [destruct (canvasReady ps); simpl|]; auto. }
    destruct Hshape as (Ec & Er & En). destruct Hwf as [H1 H2 H3 H4 H5].
    constructor; rewrite ?Ec, ?Er, ?En; try assumption.
    + rewrite Gf. now rewrite (update_loop_length CONFIG ps ToFood).
    + rewrite Gn. now rewrite (update_loop_length CONFIG ps ToNest).
Qed.

(** *** Concrete fields *)

Lemma forallb_in_range mx l :
  forallb (in_rangeb mx) l = true -> Forall (in_range mx) l.
Proof.
  induction l as [|v l IH]; simpl; intros H; [constructor|].
  apply andb_true_iff in H. destruct H as [Hv Hl].
  constructor; [|now apply IH].
  unfold in_rangeb in Hv. apply andb_true_iff in Hv.
  destruct Hv as [H0 H1]. split; now apply Qle_bool_iff.
Qed.

Lemma cells_in_rangeb_true mx ps :
  cells_in_rangeb mx ps = true -> cells_in_range mx ps.
Proof.
  unfold cells_in_rangeb. intros H. apply andb_true_iff in H.
  destruct H as [Hf Hn]. split; now apply forallb_in_range.
Qed.

(** [Math.PI / 4] to nine digits, for the one CONFIG entry that needs it. *)
Definition quarter_pi : Q := 785398163 # 1000000000.

(** CONFIG as shipped. *)
Definition shipped : Config := default_config quarter_pi.

(** CONFIG with other evaporation and diffusion rates (both channels), as
    the sliders of the control panel set them. *)
Definition with_rates (c : Config) (evap diff : Q) : Config :=
  mkConfig (speedMultiplier c) (timeStep c) (paused c)
    (ant_count c) (ant_maxCount c) (ant_size c) (ant_speed c) (ant_turnSpeed c)
    (ant_sensorAngle c) (ant_sensorDistance c) (ant_explorationRate c)
    (ant_spawnRate c) (ant_energyCapacity c) (ant_energyConsumption c)
    (ant_carrierSpeed c) (ant_returnHomeBias c)
    (mkChannelConfig (strength (pher_toFood c)) evap diff)
    (mkChannelConfig (strength (pher_toNest c)) evap diff)
    (pher_resolution c) (maxIntensity c)
    (food_size c) (food_respawnEnabled c) (food_respawnRate c)
    (nest_size c)
    (showPheromones c) (pheromoneFadeThreshold c) (trailHistory c)
    (trailHistoryLength c).

(** A field of [c] by [r] cells of side 5 with the given "to food" cells and
    an empty "to nest" channel, as the constructor followed by deposits
    leaves it. *)
Definition field (c r : Z) (food : list Q) : PheromoneSystem :=
  mkPS 5 c r food (zeros (c * r)) (build_neighbors c r) ∅ false true.

Lemma field_wf c r food :
  (0 <= c)%Z -> (0 <= r)%Z -> length food = Z.to_nat (c * r) -> wf (field c r food).
Proof.
  intros Hc Hr Hl. constructor; simpl; try assumption; try reflexivity.
  unfold zeros. apply length_replicate.
Qed.

(** Three columns, two rows, every "to food" cell at [maxIntensity]. *)
Definition field_3x2_full : PheromoneSystem := field 3 2 (replicate 6 500).

(** C2.  On the 3 x 2 field with every "to food" cell at [maxIntensity = 500]
    and the shipped rates, all cells are within [[0, maxIntensity]] before the
    pass; after it cell 1 (top row, middle) holds 507.45, so the field is no
    longer within range. *)
Theorem update_exceeds_maxIntensity :
  wf field_3x2_full /\
  cells_in_range (maxIntensity shipped) field_3x2_full /\
  (exists v, toFoodGrid (exec (update shipped) field_3x2_full) !! 1%nat = Some v /\
             v == 50745 # 100 /\ maxIntensity shipped < v) /\
  ~ cells_in_range (maxIntensity shipped) (exec (update shipped) field_3x2_full).
Proof.
  assert (L : exists v, toFoodGrid (exec (update shipped) field_3x2_full) !! 1%nat = Some v /\
             v == 50745 # 100 /\ maxIntensity shipped < v).
  { eexists. split; [vm_compute; reflexivity|]. split; reflexivity. }
  split; [apply field_wf; [lia | lia | reflexivity]|].
  split; [now apply cells_in_rangeb_true|].
  split; [exact L|].
  - intros Hr. destruct L as (v & Hv & _ & Hgt).
    destruct (cells_in_range_lookup _ _ ToFood _ _ Hr Hv) as [_ Hle].
    exact (Qlt_not_le _ _ Hgt Hle).
Qed.

(** Two cells side by side, both at 16. *)
Definition field_2x1 : PheromoneSystem := field 2 1 [16; 16].

(** No evaporation (rate 1), diffusion rate 1/4. *)
Definition diffusion_only : Config := with_rates shipped 1 (1 # 4).

(** C3.  With evaporation rate 1 and no deposits, one pass over two adjacent
    cells holding 16 each returns the cells 16 and 12: the channel sum drops
    from 32 to 28.  The 4 units that cell 0 handed to cell 1 are overwritten
    when cell 1 is processed. *)
Theorem diffusion_pass_loses_mass :
  wf field_2x1 /\
  evaporationRate (pher_toFood diffusion_only) = 1 /\
  Forall2 Qeq (toFoodGrid (exec (update diffusion_only) field_2x1)) [16; 12] /\
  total (toFoodGrid field_2x1) == 32 /\
  total (toFoodGrid (exec (update diffusion_only) field_2x1)) == 28 /\
  ~ total (toFoodGrid (exec (update diffusion_only) field_2x1))
      == total (toFoodGrid field_2x1).
Proof.
  split; [apply field_wf; [lia | lia | reflexivity]|].
  split; [reflexivity|].
  split.
  { eassert (E : toFoodGrid (exec (update diffusion_only) field_2x1) = _)
      by (vm_compute; reflexivity).
    rewrite E. repeat constructor. }
  split; [reflexivity|].
  split; [vm_compute; reflexivity|].
  intros H. vm_compute in H. discriminate.
Qed.

(** A 2 x 2 field whose cell 0 holds [threshold * 0.99 = 4.95], the rest 0. *)
Definition field_2x2_faint : PheromoneSystem :=
  field 2 2 [pheromoneFadeThreshold shipped * (99 # 100); 0; 0; 0].

(** C4, as stated, fails: with the shipped CONFIG (evaporation rate 0.995,
    threshold 5) the cell at [threshold * 0.99] receives no diffusion (all
    other cells are empty) and still holds [threshold * 0.99] after the pass,
    not 0. *)
Lemma faint_cell_not_snapped :
  wf field_2x2_faint /\
  evaporationRate (pher_toFood shipped) < 1 /\
  toFoodGrid field_2x2_faint !! 0%nat = Some (threshold shipped * (99 # 100)) /\
  threshold shipped * (99 # 100) < threshold shipped /\
  no_inbound_diffusion shipped field_2x2_faint ToFood 0 /\
  toFoodGrid (exec (update shipped) field_2x2_faint) !! 0%nat
    = Some (threshold shipped * (99 # 100)) /\
  ~ threshold shipped * (99 # 100) == 0.
Proof.
  split; [apply field_wf; [lia | lia | reflexivity]|].
  split; [reflexivity|].
  split; [reflexivity|].
  split; [reflexivity|].
  split; [|split; [vm_compute; reflexivity|]].
  - intros j Hj Hin Hlt.
    destruct j as [|[|[|[|j]]]];
      [ congruence
      | vm_compute in Hlt; discriminate ..
      | simpl in Hin; inversion Hin ].
  - intros H. vm_compute in H. discriminate.
Qed.

(** A 2 x 2 field whose cell 0 holds 5.01, just above the threshold. *)
Definition field_2x2_fading : PheromoneSystem := field 2 2 [501 # 100; 0; 0; 0].

Lemma snap_only_from_above_witness :
  toFoodGrid (exec (update shipped) field_2x2_fading) !! 0%nat = Some 0.
Proof.
  refine (proj2 (snap_only_from_above shipped field_2x2_fading ToFood 0 (501 # 100)
                   _ _ _ _ _) _ _).
  - apply field_wf; [lia | lia | reflexivity].
  - reflexivity.
  - vm_compute. discriminate.
  - reflexivity.
  - intros j Hj Hin Hlt.
    destruct j as [|[|[|[|j]]]];
      [ congruence
      | vm_compute in Hlt; discriminate ..
      | simpl in Hin; inversion Hin ].
  - reflexivity.
  - reflexivity.
Defined.

(** A point inside cell 1 and a point left of the arena. *)
Definition pt_inside : Vec := mkVec 7 3.
Definition pt_outside : Vec := mkVec (-3) 4.

Lemma deposit_clamps_or_ignores_witness :
  run (deposit shipped ToFood pt_outside 10) field_3x2_full = (tt, field_3x2_full) /\
  toFoodGrid (exec (deposit shipped ToFood pt_inside 10) field_3x2_full) !! 1%nat
    = Some (Math_min (500 + 10) (maxIntensity shipped)).
Proof.
  assert (Hwf : wf field_3x2_full)
    by (apply field_wf; [lia | lia | reflexivity]).
  split.
  - apply (proj1 (deposit_clamps_or_ignores shipped field_3x2_full ToFood pt_outside 10 Hwf)).
    unfold in_bounds. vm_compute. intros [[H _] _]. apply H. reflexivity.
  - destruct (proj2 (deposit_clamps_or_ignores shipped field_3x2_full ToFood pt_inside 10 Hwf))
      as (current & Hc & Hres & _).
    + unfold in_bounds. vm_compute. repeat split; discriminate.
    + vm_compute in Hc. injection Hc as <-. exact Hres.
Defined.

Lemma sensing_is_pure_read_witness :
  exists v, run (getPheromoneAt ToFood pt_inside) field_3x2_full = (v, field_3x2_full) /\
            sampled field_3x2_full ToFood pt_inside v.
Proof.
  apply (proj1 (sensing_is_pure_read (fun _ => 1) (fun _ => 0) field_3x2_full ToFood
                  pt_inside 0 quarter_pi 15
                  (field_wf 3 2 (replicate 6 500) ltac:(lia) ltac:(lia) eq_refl))).
Defined.

(** *** The neighbour table *)

Lemma flat_map_elem {A B} (f : A -> list B) (l : list A) (y : B) :
  y ∈ flat_map f l <-> exists x, x ∈ l /\ y ∈ f x.
Proof.
  rewrite list_elem_of_In, in_flat_map.
  split; intros (x & H1 & H2); exists x; split;
    first [now apply list_elem_of_In | now apply list_elem_of_In in H1
          | now apply list_elem_of_In in H2].
Qed.

Lemma offset_elem (x : Z) : x ∈ [-1; 0; 1]%Z <-> (x = -1 \/ x = 0 \/ x = 1)%Z.
Proof.
  rewrite !elem_of_cons, elem_of_nil. tauto.
Qed.

(** Membership in [getNeighborIndices(col, row)]. *)
Lemma getNeighborIndices_elem c r col row n :
  n ∈ getNeighborIndices c r col row <->
  exists x y : Z,
    (-1 <= x <= 1)%Z /\ (-1 <= y <= 1)%Z /\ ~ (x = 0 /\ y = 0)%Z /\
    (0 <= col + x < c)%Z /\ (0 <= row + y < r)%Z /\
    n = Z.to_nat ((row + y) * c + (col + x)).
Proof.
  unfold getNeighborIndices. rewrite flat_map_elem. split.
  - intros (y & Hy & Hn). apply flat_map_elem in Hn. destruct Hn as (x & Hx & Hn).
    apply offset_elem in Hx. apply offset_elem in Hy.
    destruct ((x =? 0) && (y =? 0))%Z eqn:E0; [inversion Hn|].
    destruct ((0 <=? col + x) && (col + x <? c) && (0 <=? row + y) && (row + y <? r))%Z
      eqn:E1; [|inversion Hn].
    apply list_elem_of_singleton in Hn.
    rewrite !andb_true_iff in E1. rewrite andb_false_iff in E0.
    exists x, y. repeat split; lia.
  - intros (x & y & Hx & Hy & Hne & Hc & Hr & ->).
    exists y. split; [apply offset_elem; lia|].
    apply flat_map_elem. exists x. split; [apply offset_elem; lia|].
    destruct ((x =? 0) && (y =? 0))%Z eqn:E0.
    { apply andb_true_iff in E0. exfalso. apply Hne. lia. }
    destruct ((0 <=? col + x) && (col + x <? c) && (0 <=? row + y) && (row + y <? r))%Z
      eqn:E1.
    + apply list_elem_of_singleton. reflexivity.
    + rewrite !andb_false_iff in E1. lia.
Qed.

Lemma getNeighborIndices_length c r col row :
  (length (getNeighborIndices c r col row) <= 8)%nat.
Proof.
  unfold getNeighborIndices. simpl.
  rewrite !length_app.
  repeat match goal with
         | |- context [if ?b then _ else _] => destruct b
         end; simpl; lia.
Qed.

(** A cell away from every border has all eight neighbours. *)
Lemma getNeighborIndices_interior c r col row :
  (0 < col)%Z -> (col + 1 < c)%Z -> (0 < row)%Z -> (row + 1 < r)%Z ->
  length (getNeighborIndices c r col row) = 8%nat.
Proof.
  intros H1 H2 H3 H4. unfold getNeighborIndices. simpl.
  repeat match goal with
         | |- context [(?a <=? ?b)%Z] =>
             rewrite (proj2 (Z.leb_le a b)) by lia
         | |- context [(?a <? ?b)%Z] =>
             rewrite (proj2 (Z.ltb_lt a b)) by lia
         end.
  reflexivity.
Qed.

Lemma map_seq_lookup {A} (g : nat -> A) k n j :
  (j < n)%nat -> map g (seq k n) !! j = Some (g (k + j)%nat).
Proof.
  revert k j. induction n as [|n IH]; intros k j Hj; [lia|].
  destruct j as [|j]; simpl.
  - now rewrite Nat.add_0_r.
  - rewrite IH by lia. f_equal. f_equal. lia.
Qed.

(** The table read at index [i] is the neighbour list of cell
    [(i mod cols, i / cols)]. *)
Lemma build_neighbors_lookup c r i :
  (0 <= c)%Z -> (0 <= r)%Z -> (i < Z.to_nat (c * r))%nat ->
  build_neighbors c r !! i
  = Some (getNeighborIndices c r (Z.of_nat i mod c) (Z.of_nat i / c)).
Proof.
  intros Hc Hr Hi. unfold build_neighbors.
  assert (Hcpos : (0 < c)%Z) by nia.
  set (f := fun row : nat =>
              map (fun col : nat => getNeighborIndices c r (Z.of_nat col) (Z.of_nat row))
                  (seq 0 (Z.to_nat c))).
  assert (G : forall n, (i < Z.to_nat c * n)%nat ->
            flat_map f (seq 0 n) !! i
            = Some (getNeighborIndices c r (Z.of_nat i mod c) (Z.of_nat i / c))).
  { induction n as [|n IH]; intros Hn; [lia|].
    rewrite seq_S, flat_map_app. simpl. rewrite app_nil_r.
    assert (Hlen : length (flat_map f (seq 0 n)) = (Z.to_nat c * n)%nat).
    { clear. induction n as [|n IHn]; [simpl; lia|].
      rewrite seq_S, flat_map_app, length_app, IHn. simpl.
      rewrite app_nil_r. unfold f. rewrite length_map, length_seq. lia. }
    destruct (Nat.lt_ge_cases i (Z.to_nat c * n)) as [Hlt|Hge].
    - rewrite lookup_app_l by (rewrite Hlen; exact Hlt). now apply IH.
    - rewrite lookup_app_r by (rewrite Hlen; exact Hge). rewrite Hlen.
      unfold f. rewrite map_seq_lookup by lia. simpl.
      assert (E : Z.of_nat i = (c * Z.of_nat n + Z.of_nat (i - Z.to_nat c * n))%Z) by lia.
      assert (Hj : (0 <= Z.of_nat (i - Z.to_nat c * n) < c)%Z) by lia.
      rewrite <- (Z.mod_unique_pos _ _ _ _ Hj E), <- (Z.div_unique_pos _ _ _ _ Hj E).
      reflexivity. }
  apply G. rewrite Z2Nat.inj_mul in Hi by lia. exact Hi.
Qed.

Lemma build_neighbors_length c r :
  length (build_neighbors c r) = (Z.to_nat c * Z.to_nat r)%nat.
Proof.
  unfold build_neighbors. induction (Z.to_nat r) as [|n IH]; [simpl; lia|].
  rewrite seq_S, flat_map_app, length_app, IH. simpl.
  rewrite app_nil_r, length_map, length_seq. lia.
Qed.

Lemma cell_index_inj (c a b a' b' : Z) :
  (0 <= b < c)%Z -> (0 <= b' < c)%Z -> (a * c + b = a' * c + b')%Z ->
  a = a' /\ b = b'.
Proof.
  intros Hb Hb' E.
  assert (a = a') by nia. subst a'. split; [reflexivity | lia].
Qed.

(** A neighbour of cell [i] is a cell of the grid other than [i], and has
    [i] among its own neighbours. *)
Lemma neighbor_step c r (i j : nat) :
  (0 < c)%Z -> (Z.of_nat i < c * r)%Z ->
  j ∈ getNeighborIndices c r (Z.of_nat i mod c) (Z.of_nat i / c) ->
  (Z.of_nat j < c * r)%Z /\ j <> i /\
  i ∈ getNeighborIndices c r (Z.of_nat j mod c) (Z.of_nat j / c).
Proof.
  intros Hc Hi Hj.
  apply getNeighborIndices_elem in Hj.
  destruct Hj as (x & y & Hx & Hy & Hne & Hcx & Hry & ->).
  pose proof (Z.mod_pos_bound (Z.of_nat i) c Hc) as Hm.
  pose proof (Z.div_mod (Z.of_nat i) c ltac:(lia)) as Hdm.
  set (ci := (Z.of_nat i mod c)%Z) in *. set (ri := (Z.of_nat i / c)%Z) in *.
  assert (Hri : (0 <= ri)%Z) by (unfold ri; apply Z.div_pos; lia).
  assert (Hri' : (ri < r)%Z) by nia.
  assert (Hn : (0 <= (ri + y) * c + (ci + x))%Z) by nia.
  rewrite Z2Nat.id by exact Hn.
  assert (Ediv : (((ri + y) * c + (ci + x)) / c = ri + y)%Z).
  { symmetry. apply (Z.div_unique_pos _ c _ (ci + x)); lia. }
  assert (Emod : (((ri + y) * c + (ci + x)) mod c = ci + x)%Z).
  { symmetry. apply (Z.mod_unique_pos _ c (ri + y)); lia. }
  split; [nia|]. split.
  - intros E. apply (f_equal Z.of_nat) in E. rewrite Z2Nat.id in E by exact Hn.
    destruct (cell_index_inj c (ri + y) (ci + x) ri ci) as [E1 E2]; lia.
  - rewrite Ediv, Emod. apply getNeighborIndices_elem.
    exists (- x)%Z, (- y)%Z.
    split; [lia|]. split; [lia|]. split; [lia|]. split; [lia|]. split; [lia|].
    replace ((ri + y + - y) * c + (ci + x + - x))%Z with (Z.of_nat i) by lia.
    symmetry. apply Nat2Z.id.
Qed.

(** X1.  The neighbour table of a well-formed system: every entry lists at
    most eight cells, each of them a cell of the grid other than the entry's
    own, and the table is symmetric ([j] is listed for [i] exactly when [i] is
    listed for [j]). *)
Theorem neighbor_table_sound ps i li :
  wf ps ->
  neighbors ps !! i = Some li ->
  (length li <= 8)%nat /\
  (forall n, n ∈ li -> (n < length (toFoodGrid ps))%nat /\ n <> i) /\
  (forall j lj, neighbors ps !! j = Some lj -> (j ∈ li <-> i ∈ lj)).
Proof.
  intros Hwf Hli.
  destruct Hwf as [Hc Hr Hf Hn Hnb].
  assert (Bound : forall k lk, neighbors ps !! k = Some lk ->
            (Z.of_nat k < cols ps * rows ps)%Z /\ (0 < cols ps)%Z /\
            lk = getNeighborIndices (cols ps) (rows ps)
                   (Z.of_nat k mod cols ps) (Z.of_nat k / cols ps)).
  { intros k lk Hk.
    assert (Hlt : (k < Z.to_nat (cols ps * rows ps))%nat).
    { apply lookup_lt_Some in Hk. rewrite Hnb, build_neighbors_length in Hk.
      rewrite Z2Nat.inj_mul by lia. exact Hk. }
    rewrite Hnb, (build_neighbors_lookup _ _ _ Hc Hr Hlt) in Hk.
    injection Hk as <-. split; [lia|]. split; [nia | reflexivity]. }
  destruct (Bound i li Hli) as (Hi & Hcpos & ->).
  split; [apply getNeighborIndices_length|]. split.
  - intros n Hn'. destruct (neighbor_step _ _ _ _ Hcpos Hi Hn') as (H1 & H2 & _).
    split; [rewrite Hf; lia | exact H2].
  - intros j lj Hlj. destruct (Bound j lj Hlj) as (Hj & _ & ->). split; intros H.
    + now destruct (neighbor_step _ _ _ _ Hcpos Hi H) as (_ & _ & H3).
    + now destruct (neighbor_step _ _ _ _ Hcpos Hj H) as (_ & _ & H3).
Qed.

Lemma neighbor_table_sound_witness :
  (2%nat ∈ [0; 2; 3; 4; 5]%nat <-> 1%nat ∈ [1; 4; 5]%nat) /\
  (length [0; 2; 3; 4; 5]%nat <= 8)%nat.
Proof.
  destruct (neighbor_table_sound field_3x2_full 1 [0; 2; 3; 4; 5]%nat
              (field_wf 3 2 (replicate 6 500) ltac:(lia) ltac:(lia) eq_refl) eq_refl)
    as (Hlen & _ & Hsym).
  split; [|exact Hlen].
  apply (Hsym 2%nat [1; 4; 5]%nat). reflexivity.
Defined.

(** *** Deposits and reads *)

Lemma posToIndex_shape ps ps' position :
  resolution ps' = resolution ps -> cols ps' = cols ps -> rows ps' = rows ps ->
  posToIndex ps' position = posToIndex ps position.
Proof. intros E1 E2 E3. unfold posToIndex. now rewrite E1, E2, E3. Qed.

Lemma deposit_shape CONFIG ch position amount ps :
  resolution (exec (deposit CONFIG ch position amount) ps) = resolution ps /\
  cols (exec (deposit CONFIG ch position amount) ps) = cols ps /\
  rows (exec (deposit CONFIG ch position amount) ps) = rows ps.
Proof.
  destruct (posToIndex_cases ps position) as [[_ E]|[_ Hne]].
  - unfold exec. pose proof (deposit_run_out CONFIG ch position amount ps E) as R.
    unfold run in R. rewrite R. auto.
  - rewrite (deposit_exec_in _ _ _ _ _ Hne). cbv zeta. destruct ch; simpl; auto.
Qed.

Lemma getPheromoneAt_eval ch position ps :
  eval (getPheromoneAt ch position) ps =
  if (posToIndex ps position =? -1)%Z then 0
  else arr_get (grid_of ch ps) (Z.to_nat (posToIndex ps position)).
Proof.
  unfold eval, getPheromoneAt, bind, gets, ret. simpl.
  now destruct (posToIndex ps position =? -1)%Z.
Qed.

(** X2.  Reading back a deposit.  On a well-formed field, after
    [deposit(grid, p, amount)] at a position inside the arena,
    [getPheromoneAt(grid, p)] returns [min (old reading + amount)
    maxIntensity]; readings of the other grid, and of the same grid at
    positions in other cells, are what they were.  After a deposit outside the
    arena every reading is what it was. *)
Theorem deposit_then_read CONFIG ps ch p amount :
  wf ps ->
  let ps' := exec (deposit CONFIG ch p amount) ps in
  (in_bounds ps p ->
     eval (getPheromoneAt ch p) ps'
       = Math_min (eval (getPheromoneAt ch p) ps + amount) (maxIntensity CONFIG)) /\
  (forall q, eval (getPheromoneAt (other ch) q) ps' = eval (getPheromoneAt (other ch) q) ps) /\
  (forall q, posToIndex ps q <> posToIndex ps p ->
     eval (getPheromoneAt ch q) ps' = eval (getPheromoneAt ch q) ps) /\
  (~ in_bounds ps p ->
     forall ch' q, eval (getPheromoneAt ch' q) ps' = eval (getPheromoneAt ch' q) ps).
Proof.
  intros Hwf ps'.
  destruct (deposit_shape CONFIG ch p amount ps) as (S1 & S2 & S3). fold ps' in S1, S2, S3.
  assert (Hidx : forall q, posToIndex ps' q = posToIndex ps q)
    by (intros q; now apply posToIndex_shape).
  destruct (posToIndex_cases ps p) as [[Hout E]|[Hin Hne]].
  - assert (Eps : ps' = ps).
    { unfold ps', exec. pose proof (deposit_run_out CONFIG ch p amount ps E) as R.
      unfold run in R. now rewrite R. }
    rewrite Eps. repeat split; try reflexivity. intros H. contradiction.
  - assert (Eps : ps' = set_needsUpdate true
             (add_dirty (Z.to_nat (posToIndex ps p))
               (set_grid ch (<[ Z.to_nat (posToIndex ps p) :=
                                 Math_min (arr_get (grid_of ch ps) (Z.to_nat (posToIndex ps p))
                                           + amount) (maxIntensity CONFIG) ]>
                               (grid_of ch ps)) ps)))
      by (unfold ps'; now rewrite (deposit_exec_in _ _ _ _ _ Hne)).
    assert (G : grid_of ch ps' = <[ Z.to_nat (posToIndex ps p) :=
                                 Math_min (arr_get (grid_of ch ps) (Z.to_nat (posToIndex ps p))
                                           + amount) (maxIntensity CONFIG) ]>
                               (grid_of ch ps))
      by (rewrite Eps; now destruct ch).
    assert (G' : grid_of (other ch) ps' = grid_of (other ch) ps)
      by (rewrite Eps; now destruct ch).
    pose proof (posToIndex_lt_length ps ch p Hwf Hin) as Hlt.
    split; [|split; [|split]].
    + intros _. rewrite !getPheromoneAt_eval, Hidx.
      destruct (posToIndex ps p =? -1)%Z eqn:E; [apply Z.eqb_eq in E; congruence|].
      rewrite G. unfold arr_get at 1.
      now rewrite list_lookup_insert_eq by exact Hlt.
    + intros q. rewrite !getPheromoneAt_eval, Hidx, G'. reflexivity.
    + intros q Hq. rewrite !getPheromoneAt_eval, Hidx.
      destruct (posToIndex ps q =? -1)%Z eqn:E; [reflexivity|].
      apply Z.eqb_neq in E. rewrite G. unfold arr_get.
      rewrite list_lookup_insert_ne; [reflexivity|].
      destruct (posToIndex_cases ps q) as [[_ Eq]|[Hinq _]]; [congruence|].
      destruct (posToIndex_in ps q Hinq) as [_ Bq].
      destruct (posToIndex_in ps p Hin) as [_ Bp]. lia.
    + intros Hout. contradiction.
Qed.

Lemma deposit_then_read_witness :
  eval (getPheromoneAt ToNest pt_inside) (exec (deposit shipped ToNest pt_inside 120) field_3x2_full)
    = Math_min (eval (getPheromoneAt ToNest pt_inside) field_3x2_full + 120)
               (maxIntensity shipped).
Proof.
  refine (proj1 (deposit_then_read shipped field_3x2_full ToNest pt_inside 120
                   (field_wf 3 2 (replicate 6 500) ltac:(lia) ltac:(lia) eq_refl)) _).
  unfold in_bounds. vm_compute. repeat split; discriminate.
Defined.

(** X3.  Outside [update], the range of the cells is kept: from a field
    whose cells all lie in [[0, maxIntensity]], a deposit of a non-negative
    amount, [clear()] and (for a non-negative [maxIntensity]) [resize] lead to
    a field whose cells all lie in [[0, maxIntensity]]. *)
Theorem range_kept_by_deposit_clear_resize CONFIG ps :
  cells_in_range (maxIntensity CONFIG) ps ->
  (forall ch p amount, 0 <= amount ->
     cells_in_range (maxIntensity CONFIG) (exec (deposit CONFIG ch p amount) ps)) /\
  cells_in_range (maxIntensity CONFIG) (exec clear ps) /\
  (0 <= maxIntensity CONFIG ->
   forall width height,
     cells_in_range (maxIntensity CONFIG) (exec (resize width height) ps)).
Proof.
  intros Hr. split; [|split].
  - intros ch p amount Ha. now apply deposit_preserves_range.
  - now apply clear_preserves_range.
  - intros Hmx width height. now apply resize_preserves_range.
Qed.

Lemma range_kept_by_deposit_clear_resize_witness :
  cells_in_range (maxIntensity shipped)
    (exec (deposit shipped ToFood pt_inside 10) field_3x2_full) /\
  cells_in_range (maxIntensity shipped) (exec clear field_3x2_full).
Proof.
  destruct (range_kept_by_deposit_clear_resize shipped field_3x2_full) as (Hd & Hc & _).
  - now apply cells_in_rangeb_true.
  - split; [apply (Hd ToFood pt_inside 10); vm_compute; discriminate | exact Hc].
Defined.

Lemma clear_wf ps : wf ps -> wf (exec clear ps).
Proof.
  intros [H1 H2 H3 H4 H5].
  unfold exec, clear, bind, modify, updateAllVisualizations, gets, ret. simpl.
  destruct (canvasReady ps); simpl; constructor; simpl;
    rewrite ?length_replicate; assumption.
Qed.

(** X4.  Well-formedness (both grids of length [cols * rows], the neighbour
    table that of the grid) is an invariant: the constructor establishes it
    for non-negative dimensions, and [deposit], [update], [clear] and
    [resize] (to non-negative dimensions) keep it. *)
Theorem well_formed_invariant CONFIG ps :
  wf ps ->
  (forall ch p amount, wf (exec (deposit CONFIG ch p amount) ps)) /\
  wf (exec (update CONFIG) ps) /\
  wf (exec clear ps) /\
  (forall width height,
     (0 <= Math_ceil (width / resolution ps))%Z ->
     (0 <= Math_ceil (height / resolution ps))%Z ->
     wf (exec (resize width height) ps)) /\
  (forall width height res,
     (0 <= Math_ceil (width / res))%Z -> (0 <= Math_ceil (height / res))%Z ->
     wf (new width height res)).
Proof.
  intros Hwf. split; [|split; [|split; [|split]]].
  - intros ch p amount. now apply deposit_wf.
  - now apply update_wf.
  - now apply clear_wf.
  - intros width height Hc Hr. now apply resize_wf.
  - intros width height res Hc Hr. now apply new_wf.
Qed.

Lemma well_formed_invariant_witness :
  wf (exec (update shipped) field_3x2_full) /\
  wf (exec (resize 30 20) field_3x2_full).
Proof.
  destruct (well_formed_invariant shipped field_3x2_full
              (field_wf 3 2 (replicate 6 500) ltac:(lia) ltac:(lia) eq_refl))
    as (_ & Hu & _ & Hr & _).
  split; [exact Hu|]. apply Hr; vm_compute; discriminate.
Defined.

Lemma getPheromoneAt_pure ch q st :
  getPheromoneAt ch q st = (eval (getPheromoneAt ch q) st, st).
Proof.
  unfold eval, getPheromoneAt, bind, gets, ret. simpl.
  now destruct (posToIndex st q =? -1)%Z.
Qed.

(** X5.  After [clear()] every reading is 0: [getPheromoneAt] returns 0 for
    both grids at every position, and so do the three sensors of
    [sensePheromone] for every pose. *)
Theorem clear_then_read_zero Math_cos Math_sin ps ch position angle sensorAngle sensorDistance :
  eval (getPheromoneAt ch position) (exec clear ps) = 0 /\
  eval (sensePheromone Math_cos Math_sin ch position angle sensorAngle sensorDistance)
       (exec clear ps) = mkSensors 0 0 0.
Proof.
  assert (Z0 : forall q, eval (getPheromoneAt ch q) (exec clear ps) = 0).
  { intros q. rewrite getPheromoneAt_eval.
    destruct (posToIndex (exec clear ps) q =? -1)%Z; [reflexivity|].
    rewrite clear_grid. unfold arr_get.
    destruct (replicate (length (grid_of ch ps)) 0 !! _) as [v|] eqn:E; [|reflexivity].
    apply lookup_replicate in E. simpl. now destruct E. }
  split; [apply Z0|].
  unfold eval at 1. unfold sensePheromone, bind, ret.
  rewrite !getPheromoneAt_pure, !Z0. reflexivity.
Qed.

(** *** What [resize] copies *)

Definition copy_row (oc nc : nat) (old : list Q) (cls : list nat) (g : list Q) (r : nat)
  : list Q :=
  fold_left (fun g c => <[ (r * nc + c)%nat := or_zero (arr_get old (r * oc + c)) ]> g)
            cls g.

Lemma copy_row_length oc nc old cls g r :
  length (copy_row oc nc old cls g r) = length g.
Proof.
  unfold copy_row. revert g. induction cls as [|c cls IH]; intros g; simpl; [reflexivity|].
  now rewrite IH, length_insert.
Qed.

Lemma cell_index_inj_nat (nc a b a' b' : nat) :
  (b < nc)%nat -> (b' < nc)%nat -> (a * nc + b = a' * nc + b')%nat ->
  a = a' /\ b = b'.
Proof.
  intros Hb Hb' E.
  destruct (cell_index_inj (Z.of_nat nc) (Z.of_nat a) (Z.of_nat b)
                           (Z.of_nat a') (Z.of_nat b')); lia.
Qed.

Lemma copy_row_lookup oc nc old cls r g row col :
  (forall c, c ∈ cls -> (c < nc)%nat) -> (col < nc)%nat ->
  (row * nc + col < length g)%nat ->
  copy_row oc nc old cls g r !! (row * nc + col)%nat
  = if decide (r = row /\ col ∈ cls)
    then Some (or_zero (arr_get old (row * oc + col)))
    else g !! (row * nc + col)%nat.
Proof.
  unfold copy_row. revert g. induction cls as [|c cls IH]; intros g Hcls Hcol Hlen; simpl.
  - destruct (decide (r = row /\ col ∈ [])) as [[_ H]|_]; [inversion H | reflexivity].
  - rewrite IH; [| intros c' Hc'; apply Hcls; now right | exact Hcol
                 | now rewrite length_insert].
    assert (Hc : (c < nc)%nat) by (apply Hcls; left).
    destruct (decide (r = row /\ col ∈ cls)) as [[-> Hin]|Hno].
    + destruct (decide (row = row /\ col ∈ c :: cls)) as [_|Hn]; [reflexivity|].
      exfalso. apply Hn. split; [reflexivity | now right].
    + destruct (decide (r = row /\ col ∈ c :: cls)) as [[-> Hin]|Hn].
      * apply elem_of_cons in Hin. destruct Hin as [->|Hin];
          [|exfalso; apply Hno; now split].
        now apply list_lookup_insert_eq.
      * apply list_lookup_insert_ne. intros E.
        destruct (cell_index_inj_nat nc r c row col Hc Hcol E) as [-> ->].
        apply Hn. split; [reflexivity | left].
Qed.

Lemma resize_copy_lookup oc nc cr cc old new row col :
  (cc <= nc)%nat -> (col < nc)%nat -> (row * nc + col < length new)%nat ->
  resize_copy oc nc cr cc old new !! (row * nc + col)%nat
  = if decide (row < cr /\ col < cc)%nat
    then Some (or_zero (arr_get old (row * oc + col)))
    else new !! (row * nc + col)%nat.
Proof.
  intros Hcc Hcol Hlen. unfold resize_copy.
  change (fun g r => fold_left
             (fun g0 c => <[ (r * nc + c)%nat := or_zero (arr_get old (r * oc + c)) ]> g0)
             (seq 0 cc) g)
    with (copy_row oc nc old (seq 0 cc)).
  assert (Hcls : forall c, c ∈ seq 0 cc -> (c < nc)%nat)
    by (intros c Hc; apply elem_of_seq in Hc; lia).
  assert (G : forall rws g, (row * nc + col < length g)%nat ->
            fold_left (copy_row oc nc old (seq 0 cc)) rws g !! (row * nc + col)%nat
            = if decide (row ∈ rws /\ col ∈ seq 0 cc)
              then Some (or_zero (arr_get old (row * oc + col)))
              else g !! (row * nc + col)%nat).
  { induction rws as [|r rws IH]; intros g Hg; simpl.
    - destruct (decide (row ∈ [] /\ col ∈ seq 0 cc)) as [[H _]|_];
        [inversion H | reflexivity].
    - rewrite IH by now rewrite copy_row_length.
      rewrite copy_row_lookup by assumption.
      destruct (decide (row ∈ rws /\ col ∈ seq 0 cc)) as [[H1 H2]|Hno].
      + destruct (decide (row ∈ r :: rws /\ col ∈ seq 0 cc)) as [_|Hn]; [reflexivity|].
        exfalso. apply Hn. split; [now right | exact H2].
      + destruct (decide (r = row /\ col ∈ seq 0 cc)) as [[-> H2]|Hn1].
        * destruct (decide (row ∈ row :: rws /\ col ∈ seq 0 cc)) as [_|Hn];
            [reflexivity|]. exfalso. apply Hn. split; [left | exact H2].
        * destruct (decide (row ∈ r :: rws /\ col ∈ seq 0 cc)) as [[H1 H2]|_];
            [|reflexivity].
          exfalso. apply elem_of_cons in H1. destruct H1 as [->|H1].
          -- apply Hn1. now split.
          -- apply Hno. now split. }
  rewrite G by exact Hlen.
  destruct (decide (row ∈ seq 0 cr /\ col ∈ seq 0 cc)) as [[H1 H2]|Hn];
    destruct (decide (row < cr /\ col < cc)%nat) as [[H3 H4]|Hn']; try reflexivity.
  - exfalso. apply Hn'. apply elem_of_seq in H1. apply elem_of_seq in H2. lia.
  - exfalso. apply Hn. split; apply elem_of_seq; lia.
Qed.

Lemma or_zero_eq v : or_zero v == v.
Proof.
  unfold or_zero. destruct (Qeq_bool v 0) eqn:E; [|reflexivity].
  apply Qeq_bool_iff in E. now rewrite E.
Qed.

(** X6.  [resize(width, height)] on a well-formed field, to non-negative
    dimensions: the new grids have the new dimensions; a cell [(col, row)] of
    the new grid that also exists in the old grid holds the old cell's value,
    and every other cell of the new grid holds 0. *)
Theorem resize_copies_overlap ps width height :
  wf ps ->
  let newCols := Math_ceil (width / resolution ps) in
  let newRows := Math_ceil (height / resolution ps) in
  let ps' := exec (resize width height) ps in
  (0 <= newCols)%Z -> (0 <= newRows)%Z ->
  cols ps' = newCols /\ rows ps' = newRows /\
  forall ch (col row : Z),
    (0 <= col < newCols)%Z -> (0 <= row < newRows)%Z ->
    ((col < cols ps)%Z -> (row < rows ps)%Z ->
       exists v v',
         grid_of ch ps !! Z.to_nat (row * cols ps + col) = Some v /\
         grid_of ch ps' !! Z.to_nat (row * newCols + col) = Some v' /\ v' == v) /\
    (~ (col < cols ps /\ row < rows ps)%Z ->
       grid_of ch ps' !! Z.to_nat (row * newCols + col) = Some 0).
Proof.
  intros Hwf newCols newRows ps' Hnc Hnr.
  destruct Hwf as [Hc Hr Hf Hn _].
  assert (Shape : cols ps' = newCols /\ rows ps' = newRows /\
            forall ch, grid_of ch ps' =
              resize_copy (Z.to_nat (cols ps)) (Z.to_nat newCols)
                (Z.to_nat (Z.min (rows ps) newRows)) (Z.to_nat (Z.min (cols ps) newCols))
                (grid_of ch ps) (zeros (newCols * newRows))).
  { unfold ps', exec, resize, bind, gets, modify, updateAllVisualizations, ret. simpl.
    fold newCols newRows.
    destruct (canvasReady ps); simpl; (split; [reflexivity|]; split; [reflexivity|]);
      intros ch; now destruct ch. }
  destruct Shape as (S1 & S2 & G). split; [exact S1|]. split; [exact S2|].
  intros ch col row Hcol Hrow.
  assert (Eidx : Z.to_nat (row * newCols + col)
                 = (Z.to_nat row * Z.to_nat newCols + Z.to_nat col)%nat) by nia.
  assert (Hlook : grid_of ch ps' !! Z.to_nat (row * newCols + col)
            = if decide (Z.to_nat row < Z.to_nat (Z.min (rows ps) newRows) /\
                         Z.to_nat col < Z.to_nat (Z.min (cols ps) newCols))%nat
              then Some (or_zero (arr_get (grid_of ch ps)
                                    (Z.to_nat row * Z.to_nat (cols ps) + Z.to_nat col)))
              else zeros (newCols * newRows) !! Z.to_nat (row * newCols + col)).
  { rewrite G, Eidx. apply resize_copy_lookup; [lia | lia |].
    unfold zeros. rewrite length_replicate. nia. }
  split.
  - intros Hc' Hr'.
    assert (Elen : (Z.to_nat (row * cols ps + col) < length (grid_of ch ps))%nat).
    { destruct ch; simpl; [rewrite Hf | rewrite Hn]; nia. }
    destruct (lookup_lt_is_Some_2 _ _ Elen) as [v Hv].
    exists v, (or_zero v). split; [exact Hv|]. split; [|apply or_zero_eq].
    rewrite Hlook.
    destruct (decide _) as [_|Hno]; [|exfalso; apply Hno; lia].
    replace (Z.to_nat row * Z.to_nat (cols ps) + Z.to_nat col)%nat
      with (Z.to_nat (row * cols ps + col)) by nia.
    now rewrite (arr_get_lookup _ _ _ Hv).
  - intros Hout. rewrite Hlook.
    destruct (decide _) as [Hyes|_]; [exfalso; apply Hout; lia|].
    unfold zeros. apply lookup_replicate. split; [reflexivity | nia].
Qed.

Lemma resize_copies_overlap_witness :
  cols (exec (resize 20 20) field_3x2_full) = 4%Z /\
  rows (exec (resize 20 20) field_3x2_full) = 4%Z.
Proof.
  destruct (resize_copies_overlap field_3x2_full 20 20
              (field_wf 3 2 (replicate 6 500) ltac:(lia) ltac:(lia) eq_refl))
    as (Hc & Hr & _).
  - vm_compute. discriminate.
  - vm_compute. discriminate.
  - split; [exact Hc | exact Hr].
Defined.

(** *** A field with nothing above the threshold *)

Lemma list_eq_lookup {A} (l1 l2 : list A) :
  (forall k, l1 !! k = l2 !! k) -> l1 = l2.
Proof. apply list_eq. Qed.

(** X7.  Pheromone at or below the fade threshold neither evaporates nor
    spreads: when no cell of either grid of a well-formed field exceeds the
    threshold, [update()] returns both grids exactly as they were. *)
Theorem faint_field_is_stationary CONFIG ps :
  wf ps ->
  Forall (fun v => v <= threshold CONFIG) (toFoodGrid ps) ->
  Forall (fun v => v <= threshold CONFIG) (toNestGrid ps) ->
  toFoodGrid (exec (update CONFIG) ps) = toFoodGrid ps /\
  toNestGrid (exec (update CONFIG) ps) = toNestGrid ps.
Proof.
  intros Hwf Hf Hn.
  destruct (paused CONFIG) eqn:Hp.
  { unfold exec, update. rewrite Hp. split; reflexivity. }
  assert (Hall : forall ch, Forall (fun v => v <= threshold CONFIG) (grid_of ch ps))
    by (intros ch; now destruct ch).
  assert (Hcell : forall ch j, (j < length (toFoodGrid ps))%nat ->
            (threshold CONFIG <? arr_get (grid_of ch ps) j) = false).
  { intros ch j Hj. rewrite <- (wf_length ps ch Hwf) in Hj.
    destruct (lookup_lt_is_Some_2 _ _ Hj) as [v Hv].
    rewrite (arr_get_lookup _ _ _ Hv). apply Qltb_ge.
    exact (proj1 (Forall_lookup _ _) (Hall ch) j v Hv). }
  assert (G : forall ch, grid_of ch (exec (update CONFIG) ps) = grid_of ch ps).
  { intros ch. rewrite (update_grid CONFIG ps ch Hp).
    set (b0 := mkBuf (toFoodGrid ps) (toNestGrid ps) (dirtyRegions ps)).
    assert (Hb0 : next_of ch b0 = grid_of ch ps) by now destruct ch.
    apply list_eq_lookup. intros k.
    destruct (Nat.lt_ge_cases k (length (toFoodGrid ps))) as [Hk|Hk].
    - rewrite update_loop_quiet; [now rewrite Hb0 | now apply Hcell |].
      intros j Hj _. right. apply elem_of_seq in Hj.
      unfold evaporated. rewrite (Hcell ch j) by lia. apply Hcell. lia.
    - rewrite !(proj2 (lookup_ge_None _ _)); [reflexivity | |].
      + rewrite <- Hb0 in *. rewrite Hb0, (wf_length ps ch Hwf). exact Hk.
      + rewrite update_loop_length, Hb0, (wf_length ps ch Hwf). exact Hk. }
  split; [apply (G ToFood) | apply (G ToNest)].
Qed.

(** A 2 x 2 field whose cells are 4, 0, 5 and 1: none above the threshold 5. *)
Definition field_2x2_dim : PheromoneSystem := field 2 2 [4; 0; 5; 1].

Lemma faint_field_is_stationary_witness :
  toFoodGrid (exec (update shipped) field_2x2_dim) = [4; 0; 5; 1].
Proof.
  refine (proj1 (faint_field_is_stationary shipped field_2x2_dim _ _ _)).
  - apply field_wf; [lia | lia | reflexivity].
  - repeat constructor; vm_compute; discriminate.
  - repeat constructor; vm_compute; discriminate.
Defined.

(** *** A single source *)

Lemma update_cell_idle_list CONFIG ps ch b j :
  (threshold CONFIG <? arr_get (grid_of ch ps) j) = false ->
  next_of ch (update_cell CONFIG ps b j) = next_of ch b.
Proof.
  intros Hj. apply list_eq_lookup. intros k.
  destruct (decide (j = k)) as [->|Hjk].
  - now apply update_cell_idle.
  - apply update_cell_frame; [exact Hjk|]. right.
    unfold evaporated. now rewrite Hj.
Qed.

Lemma update_loop_idle_list CONFIG ps ch idx b :
  (forall j, j ∈ idx -> (threshold CONFIG <? arr_get (grid_of ch ps) j) = false) ->
  next_of ch (update_loop CONFIG ps idx b) = next_of ch b.
Proof.
  unfold update_loop. revert b.
  induction idx as [|j idx IH]; intros b H; simpl; [reflexivity|].
  rewrite IH by (intros j' Hj'; apply H; now right).
  apply update_cell_idle_list. apply H. left.
Qed.

Lemma evaporate_list CONFIG ch ch' i v b :
  next_of ch' (snd (evaporate CONFIG ch i v b)) =
  if decide (ch' = ch) then
    (if threshold CONFIG <? v then <[ i := evaporated CONFIG ch v ]> (next_of ch b)
     else next_of ch b)
  else next_of ch' b.
Proof.
  unfold evaporate, evaporated.
  destruct (decide (ch' = ch)) as [->|Hne].
  - destruct (threshold CONFIG <? v); [|reflexivity]. simpl.
    now rewrite next_of_mark, next_of_set_next_same.
  - destruct (threshold CONFIG <? v); [|reflexivity]. simpl.
    now rewrite next_of_mark, next_of_set_next_other.
Qed.

(** The source cell of the inner loop loses one share per neighbour. *)
Lemma diffuse_all_source CONFIG ch k fv nv len nbrs b x :
  (threshold CONFIG <? val_of ch fv nv) = true ->
  k ∉ nbrs ->
  next_of ch b !! k = Some x ->
  exists y,
    next_of ch (diffuse_all CONFIG k fv nv len nbrs b) !! k = Some y /\
    y == x - inject_Z (Z.of_nat (length nbrs)) *
             (val_of ch fv nv * diffusionRate (chan_cfg CONFIG ch)
              / inject_Z (Z.of_nat len)).
Proof.
  intros Hv. unfold diffuse_all. revert b x.
  induction nbrs as [|nb nbrs IH]; intros b x Hk Hx; simpl fold_left.
  - exists x. split; [exact Hx|]. simpl. unfold inject_Z. ring.
  - assert (Hnb : k <> nb) by (intros ->; apply Hk; left).
    assert (Hrest : k ∉ nbrs) by (intros H; apply Hk; now right).
    set (d := val_of ch fv nv * diffusionRate (chan_cfg CONFIG ch)
              / inject_Z (Z.of_nat len)).
    assert (Hstep : next_of ch
              (diffuse_to CONFIG ToNest k nv len nb
                 (diffuse_to CONFIG ToFood k fv len nb b)) !! k = Some (x - d)).
    { assert (Hlt : (k < length (next_of ch b))%nat)
        by (apply lookup_lt_is_Some_1; eauto).
      destruct ch; simpl in Hv, d.
      - rewrite (diffuse_to_frame CONFIG ToNest ToFood) by (left; discriminate).
        unfold diffuse_to. rewrite Hv. rewrite next_of_mark, next_of_set_next_same.
        fold d. rewrite list_lookup_insert_eq
          by (now rewrite length_insert).
        unfold arr_get at 1.
        rewrite list_lookup_insert_ne by congruence.
        cbn [next_of] in Hx |- *. now rewrite Hx.
      - unfold diffuse_to at 1. rewrite Hv. rewrite next_of_mark, next_of_set_next_same.
        fold d.
        assert (Hx' : next_of ToNest (diffuse_to CONFIG ToFood k fv len nb b) !! k = Some x).
        { rewrite (diffuse_to_frame CONFIG ToFood ToNest) by (left; discriminate).
          exact Hx. }
        rewrite list_lookup_insert_eq
          by (rewrite length_insert, (diffuse_to_length CONFIG ToFood ToNest); exact Hlt).
        unfold arr_get at 1.
        rewrite list_lookup_insert_ne by congruence.
        cbn [next_of] in Hx' |- *. now rewrite Hx'. }
    destruct (IH _ (x - d) Hrest Hstep) as (y & Hy & Ey).
    exists y. split; [exact Hy|]. rewrite Ey. fold d.
    change (length (nb :: nbrs)) with (S (length nbrs)).
    rewrite Nat2Z.inj_succ, <- Z.add_1_r, inject_Z_plus. simpl (inject_Z 1). ring.
Qed.

(** X8.  One cell above the threshold.  On a well-formed field whose channel
    has exactly one cell [k] above the fade threshold, one pass changes the
    sum of the channel by the evaporation loss of that cell only; if the
    evaporated value is not above the threshold the pass just stores it in
    cell [k]; otherwise, when the cell has neighbours, cell [k] keeps the
    fraction [1 - diffusionRate] of its evaporated value. *)
Theorem single_source_pass CONFIG ps ch k v li :
  wf ps ->
  paused CONFIG = false ->
  grid_of ch ps !! k = Some v ->
  threshold CONFIG < v ->
  (forall j w, j <> k -> grid_of ch ps !! j = Some w -> w <= threshold CONFIG) ->
  neighbors ps !! k = Some li ->
  let v' := evaporated CONFIG ch v in
  let g' := grid_of ch (exec (update CONFIG) ps) in
  total g' == total (grid_of ch ps) - v + v' /\
  (~ threshold CONFIG < v' -> g' = <[ k := v' ]> (grid_of ch ps)) /\
  (threshold CONFIG < v' -> li <> [] ->
     exists y, g' !! k = Some y /\
               y == v' * (1 - diffusionRate (chan_cfg CONFIG ch))).
Proof.
  intros Hwf Hp Hv Hgt Hothers Hli v' g'.
  pose proof (wf_length ps ch Hwf) as Hlen.
  assert (Hk : (k < length (toFoodGrid ps))%nat)
    by (rewrite <- Hlen; apply lookup_lt_is_Some_1; eauto).
  assert (Hget : arr_get (grid_of ch ps) k = v) by now apply arr_get_lookup.
  assert (Hidle : forall j, j <> k -> (j < length (toFoodGrid ps))%nat ->
            (threshold CONFIG <? arr_get (grid_of ch ps) j) = false).
  { intros j Hj Hjl. rewrite <- Hlen in Hjl.
    destruct (lookup_lt_is_Some_2 _ _ Hjl) as [w Hw].
    rewrite (arr_get_lookup _ _ _ Hw). apply Qltb_ge. now apply (Hothers j). }
  (* the pass is the step at [k] *)
  set (b0 := mkBuf (toFoodGrid ps) (toNestGrid ps) (dirtyRegions ps)).
  set (b1 := update_loop CONFIG ps (seq 0 k) b0).
  assert (Hb1 : next_of ch b1 = grid_of ch ps).
  { unfold b1. rewrite update_loop_idle_list; [now destruct ch|].
    intros j Hj. apply elem_of_seq in Hj. apply Hidle; lia. }
  assert (Hg' : g' = next_of ch (update_cell CONFIG ps b1 k)).
  { unfold g'. rewrite (update_grid CONFIG ps ch Hp). fold b0.
    replace (seq 0 (length (toFoodGrid ps)))
      with (seq 0 k ++ [k] ++ seq (S k) (length (toFoodGrid ps) - S k)).
    2:{ change ([k] ++ seq (S k) (length (toFoodGrid ps) - S k))
          with (seq k (S (length (toFoodGrid ps) - S k))).
        rewrite <- seq_app. f_equal. lia. }
    rewrite !update_loop_app. fold b1.
    rewrite update_loop_idle_list; [reflexivity|].
    intros j Hj. apply elem_of_seq in Hj. apply Hidle; lia. }
  (* the two evaporation blocks *)
  set (b2 := snd (evaporate CONFIG ToNest k (arr_get (toNestGrid ps) k)
                    (snd (evaporate CONFIG ToFood k (arr_get (toFoodGrid ps) k) b1)))).
  assert (Hb2 : next_of ch b2 = <[ k := v' ]> (grid_of ch ps)).
  { unfold b2. destruct ch; simpl in Hget, Hb1 |- *.
    - rewrite (evaporate_list CONFIG ToNest ToFood), (evaporate_list CONFIG ToFood ToFood).
      simpl. rewrite Hget, (proj2 (Qltb_lt _ _) Hgt). simpl. now rewrite Hb1.
    - rewrite (evaporate_list CONFIG ToNest ToNest). simpl.
      rewrite Hget, (proj2 (Qltb_lt _ _) Hgt).
      rewrite (evaporate_list CONFIG ToFood ToNest). simpl. now rewrite Hb1. }
  assert (Hlen2 : forall c, length (next_of c b2) = length (toFoodGrid ps)).
  { intros c. unfold b2, b1. rewrite !evaporate_length, update_loop_length.
    destruct c; simpl; [reflexivity|]. exact (wf_length ps ToNest Hwf). }
  assert (Htot2 : total (next_of ch b2) == total (grid_of ch ps) - v + v').
  { rewrite Hb2. now apply total_insert. }
  assert (Hnb : default [] (neighbors ps !! k) = li) by now rewrite Hli.
  rewrite Hg', update_cell_unfold. cbv zeta. fold b2. rewrite Hnb.
  pose proof (val_of_evaporated CONFIG ch ps k) as Hval. rewrite Hget in Hval. fold v' in Hval.
  destruct (neighbor_table_sound ps k li Hwf Hli) as (_ & Hrange & _).
  destruct ((threshold CONFIG <? evaporated CONFIG ToFood (arr_get (toFoodGrid ps) k))
            || (threshold CONFIG <? evaporated CONFIG ToNest (arr_get (toNestGrid ps) k)))
    eqn:Eany.
  - split; [|split].
    + rewrite diffuse_all_total; [exact Htot2 | | |].
      * change (toFoodNext b2) with (next_of ToFood b2). now rewrite Hlen2.
      * change (toNestNext b2) with (next_of ToNest b2). now rewrite Hlen2.
      * apply Forall_forall. intros n Hn.
        change (toFoodNext b2) with (next_of ToFood b2).
        change (toNestNext b2) with (next_of ToNest b2).
        rewrite !Hlen2. destruct (Hrange n Hn) as [H _]. now split.
    + intros Hno. apply list_eq_lookup. intros j.
      rewrite diffuse_all_frame; [now rewrite Hb2|].
      right. rewrite Hval. now apply not_lt_Qltb.
    + intros Hyes Hne.
      destruct (diffuse_all_source CONFIG ch k
                  (evaporated CONFIG ToFood (arr_get (toFoodGrid ps) k))
                  (evaporated CONFIG ToNest (arr_get (toNestGrid ps) k))
                  (length li) li b2 v') as (y & Hy & Ey).
      * rewrite Hval. now apply Qltb_lt.
      * intros Hin. destruct (Hrange k Hin) as [_ H]. congruence.
      * rewrite Hb2. apply list_lookup_insert_eq. now rewrite Hlen.
      * exists y. split; [exact Hy|]. rewrite Ey, Hval.
        assert (Hpos : ~ inject_Z (Z.of_nat (length li)) == 0).
        { destruct li as [|n li]; [congruence|]. simpl length.
          intros E. unfold Qeq, inject_Z in E. simpl in E. lia. }
        field. exact Hpos.
  - apply orb_false_iff in Eany. destruct Eany as [Ef En].
    assert (Hno : (threshold CONFIG <? v') = false).
    { rewrite <- Hval. now destruct ch. }
    split; [exact Htot2|]. split; [intros _; exact Hb2|].
    intros Hyes. apply Qltb_lt in Hyes. congruence.
Qed.

(** A 3 x 3 field with 200 units in the middle cell and nothing else. *)
Definition field_3x3_centre : PheromoneSystem :=
  field 3 3 [0; 0; 0; 0; 200; 0; 0; 0; 0].

Lemma single_source_pass_witness :
  total (grid_of ToFood (exec (update shipped) field_3x3_centre))
    == total (grid_of ToFood field_3x3_centre) - 200 + evaporated shipped ToFood 200.
Proof.
  destruct (single_source_pass shipped field_3x3_centre ToFood 4 200
              [0; 1; 2; 3; 5; 6; 7; 8]%nat) as (H & _ & _).
  - apply field_wf; [lia | lia | reflexivity].
  - reflexivity.
  - reflexivity.
  - reflexivity.
  - intros j w Hj Hw.
    destruct j as [|[|[|[|[|[|[|[|[|j]]]]]]]]]; simpl in Hw;
      try (injection Hw as <-; vm_compute; discriminate);
      [congruence | discriminate].
  - reflexivity.
  - exact H.
Defined.

End Pheromone.

(** ** SpatialGrid (js/utils.js) *)

Module Spatial.

(** Entities are JavaScript objects held by reference: a bucket stores
    references, the objects live in a heap.  The grid reads [position] and
    writes [gridIndex] ([None] is [undefined]). *)
Definition ref := nat.

Record Entity := mkEntity {
  position : Vec;
  gridIndex : option Z
}.

Definition Heap := gmap ref Entity.

Record SpatialGrid := mkGrid {
  cellSize : Q;
  cols : Z;
  rows : Z;
  grid : list (list ref)
}.

(** The constructor. *)
Definition new (width height size : Q) : SpatialGrid :=
  let c := Math_ceil (width / size) in
  let r := Math_ceil (height / size) in
  mkGrid size c r (replicate (Z.to_nat (c * r)) []).

(** [posToIndex(position)]. *)
Definition posToIndex (g : SpatialGrid) (pos : Vec) : Z :=
  let col := Math_floor (vx pos / cellSize g) in
  let row := Math_floor (vy pos / cellSize g) in
  if ((col <? 0) || (cols g <=? col) || (row <? 0) || (rows g <=? row))%Z
  then (-1)%Z
  else (row * cols g + col)%Z.

(** [this.grid[index]]. *)
Definition bucket (g : SpatialGrid) (index : nat) : list ref :=
  default [] (grid g !! index).

Definition set_bucket (g : SpatialGrid) (index : nat) (cell : list ref) : SpatialGrid :=
  mkGrid (cellSize g) (cols g) (rows g) (<[ index := cell ]> (grid g)).

Definition set_gridIndex (h : Heap) (e : ref) (gi : option Z) : Heap :=
  match h !! e with
  | Some o => <[ e := mkEntity (position o) gi ]> h
  | None => h
  end.

(** [insert(entity)]. *)
Definition insert (g : SpatialGrid) (h : Heap) (e : ref) : SpatialGrid * Heap :=
  match h !! e with
  | None => (g, h)
  | Some o =>
      let index := posToIndex g (position o) in
      if (index =? -1)%Z then (g, h)
      else (set_bucket g (Z.to_nat index) (bucket g (Z.to_nat index) ++ [e]),
            set_gridIndex h e (Some index))
  end.

(** [cell.indexOf(entity)] followed by [cell.splice(index, 1)]. *)
Fixpoint remove_first (e : ref) (cell : list ref) : list ref :=
  match cell with
  | [] => []
  | x :: cell' => if Nat.eqb x e then cell' else x :: remove_first e cell'
  end.

(** [remove(entity)]. *)
Definition remove (g : SpatialGrid) (h : Heap) (e : ref) : SpatialGrid * Heap :=
  match h !! e with
  | None => (g, h)
  | Some o =>
      match gridIndex o with
      | None => (g, h)
      | Some gi =>
          if (gi =? -1)%Z then (g, h)
          else (set_bucket g (Z.to_nat gi) (remove_first e (bucket g (Z.to_nat gi))),
                set_gridIndex h e None)
      end
  end.

(** [update(entity)]. *)
Definition update (g : SpatialGrid) (h : Heap) (e : ref) : SpatialGrid * Heap :=
  match h !! e with
  | None => (g, h)
  | Some o =>
      let newIndex := posToIndex g (position o) in
      let same := match gridIndex o with
                  | Some gi => (gi =? newIndex)%Z
                  | None => false
                  end in
      if same then (g, h)
      else
        let '(g1, h1) := remove g h e in
        if (newIndex =? -1)%Z then (g1, h1)
        else (set_bucket g1 (Z.to_nat newIndex) (bucket g1 (Z.to_nat newIndex) ++ [e]),
              set_gridIndex h1 e (Some newIndex))
  end.

(** [queryPosition(position)]. *)
Definition queryPosition (g : SpatialGrid) (pos : Vec) : list ref :=
  let index := posToIndex g pos in
  if (index =? -1)%Z then [] else bucket g (Z.to_nat index).

(** [queryRadius(position, radius)]: the buckets of the cell rectangle, rows
    outermost, appended in loop order. *)
Definition queryRadius (g : SpatialGrid) (pos : Vec) (radius : Q) : list ref :=
  let minCol := Z.max 0 (Math_floor ((vx pos - radius) / cellSize g)) in
  let maxCol := Z.min (cols g - 1) (Math_floor ((vx pos + radius) / cellSize g)) in
  let minRow := Z.max 0 (Math_floor ((vy pos - radius) / cellSize g)) in
  let maxRow := Z.min (rows g - 1) (Math_floor ((vy pos + radius) / cellSize g)) in
  flat_map (fun row =>
    flat_map (fun col => bucket g (Z.to_nat (row * cols g + col)))
             (seqZ minCol (maxCol - minCol + 1)))
    (seqZ minRow (maxRow - minRow + 1)).

(** [clear()]. *)
Definition clear (g : SpatialGrid) : SpatialGrid :=
  mkGrid (cellSize g) (cols g) (rows g) (replicate (length (grid g)) []).

(** *** Geometry of a query *)

(** The point [(qx, qy)] lies in cell [(col, row)]: cells are the half-open
    squares [posToIndex] sorts positions into. *)
Definition in_cell (g : SpatialGrid) (col row : Z) (qx qy : Q) : Prop :=
  inject_Z col * cellSize g <= qx /\ qx < inject_Z (col + 1) * cellSize g /\
  inject_Z row * cellSize g <= qy /\ qy < inject_Z (row + 1) * cellSize g.

(** The point lies in the axis-aligned bounding box of the query circle. *)
Definition in_box (pos : Vec) (radius : Q) (qx qy : Q) : Prop :=
  vx pos - radius <= qx /\ qx <= vx pos + radius /\
  vy pos - radius <= qy /\ qy <= vy pos + radius.

(** Cell [(col, row)] overlaps the bounding box: they share a point. *)
Definition overlaps (g : SpatialGrid) (col row : Z) (pos : Vec) (radius : Q) : Prop :=
  exists qx qy, in_cell g col row qx qy /\ in_box pos radius qx qy.

(** A grid as the constructor builds it. *)
Record wf (g : SpatialGrid) : Prop := mkWf {
  wf_cellSize : 0 < cellSize g;
  wf_cols : (0 <= cols g)%Z;
  wf_rows : (0 <= rows g)%Z;
  wf_grid : length (grid g) = Z.to_nat (cols g * rows g)
}.

(** Squared distance, [Vector.distanceSquared]. *)
Definition distanceSquared (v1 v2 : Vec) : Q :=
  let dx := vx v1 - vx v2 in
  let dy := vy v1 - vy v2 in
  dx * dx + dy * dy.

Lemma floor_le_iff (c : Z) (a s : Q) :
  0 < s -> (c <= Math_floor (a / s))%Z <-> inject_Z c * s <= a.
Proof.
  intros Hs. unfold Math_floor. split; intros H.
  - apply Qle_trans with (inject_Z (Qfloor (a / s)) * s).
    + apply Qmult_le_compat_r; [|now apply Qlt_le_weak].
      now rewrite <- Zle_Qle.
    + apply Qle_trans with (a / s * s).
      * apply Qmult_le_compat_r; [apply Qfloor_le | now apply Qlt_le_weak].
      * rewrite Qmult_comm, Qmult_div_r; [apply Qle_refl|].
        intros E. rewrite E in Hs. now apply Qlt_irrefl in Hs.
  - rewrite <- (Qfloor_Z c). apply Qfloor_resp_le.
    apply Qle_shift_div_l; assumption.
Qed.

Lemma floor_lt_iff (c : Z) (a s : Q) :
  0 < s -> (Math_floor (a / s) <= c)%Z <-> a < inject_Z (c + 1) * s.
Proof.
  intros Hs. split; intros H.
  - destruct (Qlt_le_dec a (inject_Z (c + 1) * s)) as [Hlt|Hge]; [exact Hlt|].
    apply floor_le_iff in Hge; [lia | exact Hs].
  - destruct (Z_le_gt_dec (Math_floor (a / s)) c) as [Hle|Hgt]; [exact Hle|].
    assert (Hc : (c + 1 <= Math_floor (a / s))%Z) by lia.
    apply floor_le_iff in Hc; [|exact Hs].
    exfalso. exact (Qlt_not_le _ _ H Hc).
Qed.

Lemma elem_of_flat_map {A B} (f : A -> list B) (l : list A) (y : B) :
  y ∈ flat_map f l <-> exists x, x ∈ l /\ y ∈ f x.
Proof.
  rewrite list_elem_of_In, in_flat_map.
  split; intros (x & H1 & H2); exists x; split;
    first [now apply list_elem_of_In | now apply list_elem_of_In in H1
          | now apply list_elem_of_In in H2].
Qed.

Lemma next_cell (c : Z) (s : Q) : inject_Z (c + 1) * s == inject_Z c * s + s.
Proof. rewrite inject_Z_plus. ring. Qed.

(** On one axis: the cell columns the loop visits (before clipping to the
    grid) are those whose interval meets [[x - r, x + r]]. *)
Lemma axis_overlap (s x r : Q) (c : Z) :
  0 < s -> 0 <= r ->
  (Math_floor ((x - r) / s) <= c <= Math_floor ((x + r) / s))%Z <->
  exists q, inject_Z c * s <= q /\ q < inject_Z (c + 1) * s /\
            x - r <= q /\ q <= x + r.
Proof.
  intros Hs Hr. split.
  - intros [H1 H2].
    apply floor_lt_iff in H1; [|exact Hs].
    apply floor_le_iff in H2; [|exact Hs].
    pose proof (next_cell c s) as E.
    destruct (Qlt_le_dec (x - r) (inject_Z c * s)) as [Hlt|Hge].
    + exists (inject_Z c * s). rewrite E in *.
      set (t := inject_Z c * s) in *. repeat split; lra.
    + exists (x - r). repeat split; first [lra | exact H1].
  - intros (q & Q1 & Q2 & Q3 & Q4). split.
    + apply floor_lt_iff; [exact Hs|]. now apply Qle_lt_trans with q.
    + apply floor_le_iff; [exact Hs|]. now apply Qle_trans with q.
Qed.

Lemma overlaps_axes g col row pos radius :
  overlaps g col row pos radius <->
  (exists q, inject_Z col * cellSize g <= q /\ q < inject_Z (col + 1) * cellSize g /\
             vx pos - radius <= q /\ q <= vx pos + radius) /\
  (exists q, inject_Z row * cellSize g <= q /\ q < inject_Z (row + 1) * cellSize g /\
             vy pos - radius <= q /\ q <= vy pos + radius).
Proof.
  unfold overlaps, in_cell, in_box. split.
  - intros (qx & qy & (A & B & C & D) & (E & F & G & H)).
    split; [exists qx | exists qy]; auto.
  - intros [(qx & A & B & E & F) (qy & C & D & G & H)].
    exists qx, qy. auto 10.
Qed.

Lemma square_nonneg (a : Q) : 0 <= a * a.
Proof.
  unfold Qle, Qmult. simpl. rewrite Z.mul_1_r. apply Z.square_nonneg.
Qed.

Lemma square_bound (d r : Q) : 0 <= r -> d * d <= r * r -> - r <= d /\ d <= r.
Proof.
  intros Hr H. split.
  - destruct (Qlt_le_dec d (- r)) as [Hlt|Hge]; [|exact Hge]. exfalso. nra.
  - destruct (Qlt_le_dec r d) as [Hlt|Hge]; [|exact Hge]. exfalso. nra.
Qed.

Lemma distanceSquared_in_box q pos radius :
  0 <= radius -> distanceSquared q pos <= radius * radius ->
  in_box pos radius (vx q) (vy q).
Proof.
  intros Hr H. unfold distanceSquared in H. cbv zeta in H.
  pose proof (square_nonneg (vx q - vx pos)) as Nx.
  pose proof (square_nonneg (vy q - vy pos)) as Ny.
  assert (Hx : (vx q - vx pos) * (vx q - vx pos) <= radius * radius) by lra.
  assert (Hy : (vy q - vy pos) * (vy q - vy pos) <= radius * radius) by lra.
  destruct (square_bound _ _ Hr Hx). destruct (square_bound _ _ Hr Hy).
  unfold in_box. repeat split; lra.
Qed.

Lemma posToIndex_cell g q :
  0 < cellSize g ->
  posToIndex g q <> (-1)%Z ->
  let col := Math_floor (vx q / cellSize g) in
  let row := Math_floor (vy q / cellSize g) in
  (0 <= col < cols g)%Z /\ (0 <= row < rows g)%Z /\
  posToIndex g q = (row * cols g + col)%Z /\
  in_cell g col row (vx q) (vy q).
Proof.
  intros Hs Hne col row. unfold posToIndex in *. fold col row in Hne |- *.
  destruct ((col <? 0) || (cols g <=? col) || (row <? 0) || (rows g <=? row))%Z eqn:E;
    [congruence|].
  rewrite !orb_false_iff in E.
  split; [lia|]. split; [lia|]. split; [reflexivity|].
  unfold in_cell. repeat split.
  - apply floor_le_iff; [exact Hs | fold col; lia].
  - apply floor_lt_iff; [exact Hs | fold col; lia].
  - apply floor_le_iff; [exact Hs | fold row; lia].
  - apply floor_lt_iff; [exact Hs | fold row; lia].
Qed.

(** C9.  For a non-negative radius, [queryRadius] returns exactly the
    references stored in the buckets of the in-grid cells that overlap the
    bounding box of the query circle; hence every entity that sits in the
    bucket of its current position and lies within the radius is returned. *)
Theorem queryRadius_overlapping_buckets g pos radius :
  wf g -> 0 <= radius ->
  (forall e, e ∈ queryRadius g pos radius <->
     exists col row,
       (0 <= col < cols g)%Z /\ (0 <= row < rows g)%Z /\
       overlaps g col row pos radius /\
       e ∈ bucket g (Z.to_nat (row * cols g + col))) /\
  (forall (h : Heap) e o,
     h !! e = Some o ->
     posToIndex g (position o) <> (-1)%Z ->
     e ∈ bucket g (Z.to_nat (posToIndex g (position o))) ->
     distanceSquared (position o) pos <= radius * radius ->
     e ∈ queryRadius g pos radius).
Proof.
  intros Hwf Hr.
  pose proof (wf_cellSize g Hwf) as Hs.
  assert (A : forall e, e ∈ queryRadius g pos radius <->
     exists col row,
       (0 <= col < cols g)%Z /\ (0 <= row < rows g)%Z /\
       overlaps g col row pos radius /\
       e ∈ bucket g (Z.to_nat (row * cols g + col))).
  { intros e. unfold queryRadius. cbv zeta. rewrite elem_of_flat_map. split.
    - intros (row & Hrow & He). apply elem_of_flat_map in He.
      destruct He as (col & Hcol & He).
      apply elem_of_seqZ in Hrow. apply elem_of_seqZ in Hcol.
      exists col, row. split; [lia|]. split; [lia|]. split; [|exact He].
      apply overlaps_axes. split; apply axis_overlap; auto; lia.
    - intros (col & row & Hc & Hrw & Hov & He).
      apply overlaps_axes in Hov. destruct Hov as [Hx Hy].
      apply axis_overlap in Hx; [|assumption..].
      apply axis_overlap in Hy; [|assumption..].
      exists row. split; [apply elem_of_seqZ; lia|].
      apply elem_of_flat_map. exists col. split; [apply elem_of_seqZ; lia|exact He]. }
  split; [exact A|].
  intros h e o _ Hne Hin Hd. apply A.
  destruct (posToIndex_cell g (position o) Hs Hne) as (Hc & Hrw & Eidx & Hcell).
  exists (Math_floor (vx (position o) / cellSize g)),
         (Math_floor (vy (position o) / cellSize g)).
  split; [exact Hc|]. split; [exact Hrw|]. split.
  - exists (vx (position o)), (vy (position o)). split; [exact Hcell|].
    now apply distanceSquared_in_box.
  - now rewrite <- Eidx.
Qed.

(** A 2 x 2 grid of cell size 20 holding entity 7 at (25, 5) in bucket 1. *)
Definition grid_2x2 : SpatialGrid := mkGrid 20 2 2 [[]; [7%nat]; []; []].
Definition heap_7 : Heap := {[ 7%nat := mkEntity (mkVec 25 5) (Some 1%Z) ]}.

Lemma queryRadius_overlapping_buckets_witness :
  7%nat ∈ queryRadius grid_2x2 (mkVec 15 5) 12.
Proof.
  refine (proj2 (queryRadius_overlapping_buckets grid_2x2 (mkVec 15 5) 12 _ _)
            heap_7 7%nat (mkEntity (mkVec 25 5) (Some 1%Z)) _ _ _ _).
  - constructor; simpl; [reflexivity | lia | lia | reflexivity].
  - vm_compute. discriminate.
  - vm_compute. reflexivity.
  - vm_compute. discriminate.
  - vm_compute. left.
  - vm_compute. discriminate.
Defined.

(** *** Buckets *)

Lemma bucket_set_bucket_same g i c :
  (i < length (grid g))%nat -> bucket (set_bucket g i c) i = c.
Proof.
  intros Hi. unfold bucket, set_bucket. simpl.
  now rewrite list_lookup_insert_eq.
Qed.

Lemma bucket_set_bucket_other g i j c :
  i <> j -> bucket (set_bucket g i c) j = bucket g j.
Proof.
  intros Hij. unfold bucket, set_bucket. simpl.
  now rewrite list_lookup_insert_ne.
Qed.

Lemma set_bucket_restore g i c :
  (i < length (grid g))%nat -> set_bucket (set_bucket g i c) i (bucket g i) = g.
Proof.
  intros Hi. unfold set_bucket, bucket. destruct g as [cs cl rw gr]. cbn [cellSize cols rows grid] in *.
  f_equal. rewrite list_insert_insert_eq.
  destruct (lookup_lt_is_Some_2 gr _ Hi) as [cell Hcell]. rewrite Hcell.
  now apply list_insert_id.
Qed.

Lemma bucket_elem_lt g i e : e ∈ bucket g i -> (i < length (grid g))%nat.
Proof.
  unfold bucket. intros H.
  destruct (grid g !! i) as [c|] eqn:E; [|inversion H].
  now apply lookup_lt_Some in E.
Qed.

Lemma posToIndex_set_bucket g i c q : posToIndex (set_bucket g i c) q = posToIndex g q.
Proof. reflexivity. Qed.

Lemma set_bucket_wf g i c : wf g -> wf (set_bucket g i c).
Proof.
  intros [H1 H2 H3 H4]. constructor; simpl; try assumption.
  now rewrite length_insert.
Qed.

(** Inside the grid the index is a position in [this.grid]. *)
Lemma posToIndex_bound g q :
  wf g -> posToIndex g q <> (-1)%Z ->
  (0 <= posToIndex g q)%Z /\ (Z.to_nat (posToIndex g q) < length (grid g))%nat.
Proof.
  intros Hwf Hne.
  destruct (posToIndex_cell g q (wf_cellSize g Hwf) Hne) as (Hc & Hr & E & _).
  rewrite E, (wf_grid g Hwf). split; nia.
Qed.

Lemma remove_first_elem e (cell : list ref) x :
  x ∈ remove_first e cell -> x ∈ cell.
Proof.
  induction cell as [|y cell IH]; simpl; [tauto|].
  destruct (Nat.eqb y e); intros H.
  - now right.
  - apply elem_of_cons in H. destruct H as [->|H]; [left | right; now apply IH].
Qed.

Lemma remove_first_other e (cell : list ref) x :
  x <> e -> x ∈ cell -> x ∈ remove_first e cell.
Proof.
  intros Hx. induction cell as [|y cell IH]; simpl; [tauto|].
  intros H. apply elem_of_cons in H.
  destruct (Nat.eqb_spec y e) as [->|Hy].
  - destruct H as [->|H]; [congruence | exact H].
  - destruct H as [->|H]; [left | right; now apply IH].
Qed.

Lemma remove_first_NoDup e (cell : list ref) :
  NoDup cell -> NoDup (remove_first e cell) /\ e ∉ remove_first e cell.
Proof.
  induction cell as [|y cell IH]; simpl; intros Hnd.
  - split; [constructor | intros H; inversion H].
  - apply NoDup_cons in Hnd. destruct Hnd as [Hy Hnd].
    destruct (Nat.eqb_spec y e) as [->|Hne].
    + split; assumption.
    + destruct (IH Hnd) as [IH1 IH2]. split.
      * apply NoDup_cons. split; [|exact IH1].
        intros H. apply Hy. now apply remove_first_elem in H.
      * intros H. apply elem_of_cons in H. destruct H as [->|H]; [congruence|].
        now apply IH2.
Qed.

Lemma remove_first_snoc e (cell : list ref) :
  e ∉ cell -> remove_first e (cell ++ [e]) = cell.
Proof.
  induction cell as [|y cell IH]; simpl; intros H.
  - now rewrite Nat.eqb_refl.
  - destruct (Nat.eqb_spec y e) as [->|Hne]; [exfalso; apply H; left|].
    rewrite IH; [reflexivity|]. intros Hin. apply H. now right.
Qed.

(** X9.  Inserting and looking up.  For an entity whose position lies
    outside the grid, [insert] changes neither the grid nor the entity.  For
    one inside, [queryPosition] at its position afterwards returns it (after
    the entities that were there), the entity's [gridIndex] is the index of
    that cell, and [queryPosition] in every other cell returns what it did. *)
Theorem insert_then_query g h e o :
  wf g -> h !! e = Some o ->
  (posToIndex g (position o) = (-1)%Z -> insert g h e = (g, h)) /\
  (posToIndex g (position o) <> (-1)%Z ->
     queryPosition (fst (insert g h e)) (position o)
       = queryPosition g (position o) ++ [e] /\
     snd (insert g h e) !! e
       = Some (mkEntity (position o) (Some (posToIndex g (position o)))) /\
     (forall q, posToIndex g q <> posToIndex g (position o) ->
        queryPosition (fst (insert g h e)) q = queryPosition g q) /\
     wf (fst (insert g h e))).
Proof.
  intros Hwf Ho. unfold insert. rewrite Ho. split.
  - intros E. now rewrite E.
  - intros Hne. destruct (posToIndex_bound g _ Hwf Hne) as [H0 Hlt].
    destruct (posToIndex g (position o) =? -1)%Z eqn:E;
      [apply Z.eqb_eq in E; congruence|].
    simpl fst; simpl snd. split; [|split; [|split]].
    + unfold queryPosition. rewrite posToIndex_set_bucket, E.
      now rewrite bucket_set_bucket_same.
    + unfold set_gridIndex. rewrite Ho. apply lookup_insert_eq.
    + intros q Hq. unfold queryPosition. rewrite posToIndex_set_bucket.
      destruct (posToIndex g q =? -1)%Z eqn:Eq; [reflexivity|].
      apply Z.eqb_neq in Eq. destruct (posToIndex_bound g q Hwf Eq) as [Hq0 _].
      apply bucket_set_bucket_other. lia.
    + now apply set_bucket_wf.
Qed.

(** A 2 x 2 grid with no entities, and an entity at (25, 5) not yet indexed. *)
Definition grid_empty : SpatialGrid := new 40 40 20.
Definition heap_fresh : Heap := {[ 7%nat := mkEntity (mkVec 25 5) None ]}.

Lemma grid_empty_wf : wf grid_empty.
Proof. constructor; vm_compute; try reflexivity; discriminate. Qed.

Lemma insert_then_query_witness :
  queryPosition (fst (insert grid_empty heap_fresh 7%nat)) (mkVec 25 5)
    = queryPosition grid_empty (mkVec 25 5) ++ [7%nat].
Proof.
  refine (proj1 (proj2 (insert_then_query grid_empty heap_fresh 7%nat
                          (mkEntity (mkVec 25 5) None) _ _) _)).
  - apply grid_empty_wf.
  - vm_compute. reflexivity.
  - vm_compute. discriminate.
Defined.

(** X10.  [remove] undoes [insert]: for an entity that is not indexed
    ([gridIndex] undefined, not in the bucket of its position), inserting it
    and then removing it gives back the grid and the entity as they were. *)
Theorem remove_undoes_insert g h e o :
  wf g -> h !! e = Some o -> gridIndex o = None ->
  e ∉ queryPosition g (position o) ->
  remove (fst (insert g h e)) (snd (insert g h e)) e = (g, h).
Proof.
  intros Hwf Ho Hgi Hnot.
  assert (Eo : o = mkEntity (position o) None) by (destruct o; simpl in *; now subst).
  unfold insert. rewrite Ho.
  destruct (posToIndex g (position o) =? -1)%Z eqn:E.
  - simpl. unfold remove. now rewrite Ho, Hgi.
  - apply Z.eqb_neq in E. destruct (posToIndex_bound g _ Hwf E) as [H0 Hlt].
    cbn [fst snd]. unfold remove, set_gridIndex. rewrite Ho.
    unfold Heap, ref in *.
    rewrite !lookup_insert_eq. cbn [gridIndex position].
    apply Z.eqb_neq in E. rewrite E. pose proof E as E'.
    rewrite insert_insert_eq.
    rewrite bucket_set_bucket_same by exact Hlt.
    unfold queryPosition in Hnot. rewrite E' in Hnot.
    rewrite remove_first_snoc by exact Hnot.
    f_equal.
    + now apply set_bucket_restore.
    + rewrite <- Eo. now apply insert_id.
Qed.

Lemma remove_undoes_insert_witness :
  remove (fst (insert grid_empty heap_fresh 7%nat))
         (snd (insert grid_empty heap_fresh 7%nat)) 7%nat
    = (grid_empty, heap_fresh).
Proof.
  apply (remove_undoes_insert grid_empty heap_fresh 7%nat (mkEntity (mkVec 25 5) None)).
  - apply grid_empty_wf.
  - vm_compute. reflexivity.
  - reflexivity.
  - vm_compute. intros H. inversion H.
Defined.

(** *** The index and the entities agree *)

(** No bucket lists an entity twice; an entity listed in bucket [i] records
    [gridIndex = i]; an entity that records a [gridIndex] is listed in that
    bucket. *)
Record indexed (g : SpatialGrid) (h : Heap) : Prop := mkIndexed {
  ix_nodup : forall i, NoDup (bucket g i);
  ix_listed : forall i e, e ∈ bucket g i ->
    exists o, h !! e = Some o /\ gridIndex o = Some (Z.of_nat i);
  ix_recorded : forall e o gi, h !! e = Some o -> gridIndex o = Some gi ->
    (0 <= gi)%Z /\ e ∈ bucket g (Z.to_nat gi)
}.

Lemma indexed_unlisted g h e o i :
  indexed g h -> h !! e = Some o -> gridIndex o = None -> e ∉ bucket g i.
Proof.
  intros Hix Ho Hgi Hin.
  destruct (ix_listed g h Hix i e Hin) as (o' & Ho' & Hgi').
  rewrite Ho in Ho'. inversion Ho'; subst. congruence.
Qed.

Lemma indexed_listed_at g h e o gi i :
  indexed g h -> h !! e = Some o -> gridIndex o = Some gi -> e ∈ bucket g i ->
  i = Z.to_nat gi.
Proof.
  intros Hix Ho Hgi Hin.
  destruct (ix_listed g h Hix i e Hin) as (o' & Ho' & Hgi').
  rewrite Ho in Ho'. inversion Ho'; subst. rewrite Hgi in Hgi'.
  inversion Hgi'; subst. now rewrite Nat2Z.id.
Qed.

(** [cell.splice] of the entity, and [gridIndex = undefined]. *)
Lemma unlist_indexed g h e o gi :
  indexed g h -> h !! e = Some o -> gridIndex o = Some gi ->
  indexed (set_bucket g (Z.to_nat gi) (remove_first e (bucket g (Z.to_nat gi))))
          (<[ e := mkEntity (position o) None ]> h).
Proof.
  intros Hix Ho Hgi.
  destruct (ix_recorded g h Hix e o gi Ho Hgi) as [H0 Hin].
  pose proof (bucket_elem_lt g _ e Hin) as Hlt.
  destruct (remove_first_NoDup e _ (ix_nodup g h Hix (Z.to_nat gi))) as [Hnd Hout].
  constructor.
  - intros i. destruct (decide (Z.to_nat gi = i)) as [<-|Hne].
    + now rewrite bucket_set_bucket_same.
    + rewrite bucket_set_bucket_other by exact Hne. apply (ix_nodup g h Hix).
  - intros i e' He'.
    assert (He : e' ∈ bucket g i /\ e' <> e).
    { destruct (decide (Z.to_nat gi = i)) as [<-|Hne].
      - rewrite bucket_set_bucket_same in He' by exact Hlt. split.
        + now apply remove_first_elem in He'.
        + intros ->. now apply Hout.
      - rewrite bucket_set_bucket_other in He' by exact Hne. split; [exact He'|].
        intros ->. apply Hne. symmetry.
        now apply (indexed_listed_at g h e o gi i). }
    destruct He as [He Hne].
    destruct (ix_listed g h Hix i e' He) as (o' & Ho' & Hgi').
    exists o'. split; [|exact Hgi'].
    unfold Heap, ref in *. now rewrite lookup_insert_ne.
  - intros e' o' gi' Ho' Hgi'. unfold Heap, ref in *.
    destruct (decide (e = e')) as [<-|Hne].
    + rewrite lookup_insert_eq in Ho'. inversion Ho'; subst. discriminate.
    + rewrite lookup_insert_ne in Ho' by exact Hne.
      destruct (ix_recorded g h Hix e' o' gi' Ho' Hgi') as [H0' Hin'].
      split; [exact H0'|].
      destruct (decide (Z.to_nat gi = Z.to_nat gi')) as [Eq|Hneq].
      * rewrite <- Eq in *. rewrite bucket_set_bucket_same by exact Hlt.
        apply remove_first_other; [congruence | exact Hin'].
      * now rewrite bucket_set_bucket_other.
Qed.

(** [cell.push] of an entity listed nowhere, and [gridIndex = index]. *)
Lemma list_indexed g h e o n :
  indexed g h -> h !! e = Some o -> gridIndex o = None ->
  (n < length (grid g))%nat ->
  indexed (set_bucket g n (bucket g n ++ [e]))
          (<[ e := mkEntity (position o) (Some (Z.of_nat n)) ]> h).
Proof.
  intros Hix Ho Hgi Hlt.
  pose proof (fun i => indexed_unlisted g h e o i Hix Ho Hgi) as Hout.
  constructor.
  - intros i. destruct (decide (n = i)) as [<-|Hne].
    + rewrite bucket_set_bucket_same by exact Hlt.
      apply NoDup_app. split; [apply (ix_nodup g h Hix)|]. split.
      * intros x Hx Hx'. apply list_elem_of_singleton in Hx'. subst.
        now apply (Hout n).
      * apply NoDup_singleton.
    + rewrite bucket_set_bucket_other by exact Hne. apply (ix_nodup g h Hix).
  - intros i e' He'. unfold Heap, ref in *.
    destruct (decide (e = e')) as [<-|Hne].
    + rewrite lookup_insert_eq. eexists. split; [reflexivity|]. simpl.
      destruct (decide (n = i)) as [<-|Hni]; [reflexivity|].
      rewrite bucket_set_bucket_other in He' by exact Hni.
      now apply Hout in He'.
    + rewrite lookup_insert_ne by exact Hne.
      apply (ix_listed g h Hix).
      destruct (decide (n = i)) as [<-|Hni].
      * rewrite bucket_set_bucket_same in He' by exact Hlt.
        apply elem_of_app in He'. destruct He' as [He'|He']; [exact He'|].
        apply list_elem_of_singleton in He'. congruence.
      * now rewrite bucket_set_bucket_other in He'.
  - intros e' o' gi' Ho' Hgi'. unfold Heap, ref in *.
    destruct (decide (e = e')) as [<-|Hne].
    + rewrite lookup_insert_eq in Ho'. inversion Ho'; subst. simpl in Hgi'.
      inversion Hgi'; subst. split; [lia|]. rewrite Nat2Z.id.
      rewrite bucket_set_bucket_same by exact Hlt.
      apply elem_of_app. right. now apply list_elem_of_singleton.
    + rewrite lookup_insert_ne in Ho' by exact Hne.
      destruct (ix_recorded g h Hix e' o' gi' Ho' Hgi') as [H0' Hin'].
      split; [exact H0'|].
      destruct (decide (n = Z.to_nat gi')) as [Eq|Hneq].
      * rewrite <- Eq in *. rewrite bucket_set_bucket_same by exact Hlt.
        apply elem_of_app. now left.
      * now rewrite bucket_set_bucket_other.
Qed.

Lemma set_gridIndex_Some (h : Heap) e o gi :
  h !! e = Some o -> set_gridIndex h e gi = <[ e := mkEntity (position o) gi ]> h.
Proof. intros Ho. unfold set_gridIndex. now rewrite Ho. Qed.

Lemma Entity_eta o gi : gridIndex o = gi -> o = mkEntity (position o) gi.
Proof. destruct o; simpl; now intros ->. Qed.

Lemma remove_recorded g h e o gi :
  h !! e = Some o -> gridIndex o = Some gi -> (0 <= gi)%Z ->
  remove g h e =
    (set_bucket g (Z.to_nat gi) (remove_first e (bucket g (Z.to_nat gi))),
     <[ e := mkEntity (position o) None ]> h).
Proof.
  intros Ho Hgi H0. unfold remove. rewrite Ho, Hgi.
  destruct (Z.eqb_spec gi (-1)) as [->|_]; [lia|].
  now rewrite (set_gridIndex_Some h e o).
Qed.

Lemma remove_unrecorded g h e o :
  h !! e = Some o -> gridIndex o = None -> remove g h e = (g, h).
Proof. intros Ho Hgi. unfold remove. now rewrite Ho, Hgi. Qed.

Lemma remove_indexed g h e o :
  indexed g h -> h !! e = Some o ->
  indexed (fst (remove g h e)) (snd (remove g h e)) /\
  snd (remove g h e) !! e = Some (mkEntity (position o) None).
Proof.
  intros Hix Ho. destruct (gridIndex o) as [gi|] eqn:Hgi.
  - destruct (ix_recorded g h Hix e o gi Ho Hgi) as [H0 _].
    rewrite (remove_recorded g h e o gi Ho Hgi H0). cbn [fst snd]. split.
    + now apply unlist_indexed.
    + unfold Heap, ref in *. apply lookup_insert_eq.
  - rewrite (remove_unrecorded g h e o Ho Hgi). cbn [fst snd]. split; [exact Hix|].
    now rewrite Ho, (Entity_eta o None Hgi) at 1.
Qed.

Lemma insert_indexed g h e o :
  wf g -> indexed g h -> h !! e = Some o -> gridIndex o = None ->
  indexed (fst (insert g h e)) (snd (insert g h e)) /\
  snd (insert g h e) !! e =
    Some (mkEntity (position o)
            (if (posToIndex g (position o) =? -1)%Z then None
             else Some (posToIndex g (position o)))).
Proof.
  intros Hwf Hix Ho Hgi. unfold insert. rewrite Ho.
  destruct (Z.eqb_spec (posToIndex g (position o)) (-1)) as [E|E]; cbn [fst snd].
  - split; [exact Hix|]. now rewrite Ho, (Entity_eta o None Hgi) at 1.
  - destruct (posToIndex_bound g _ Hwf E) as [H0 Hlt].
    rewrite (set_gridIndex_Some h e o _ Ho). split.
    + rewrite <- (Z2Nat.id (posToIndex g (position o))) at 3 by exact H0.
      now apply list_indexed.
    + unfold Heap, ref in *. apply lookup_insert_eq.
Qed.

(** [update] is [remove] followed by [insert], unless the entity is still
    in the cell it is recorded in. *)
Lemma update_moved g h e o :
  h !! e = Some o -> gridIndex o <> Some (posToIndex g (position o)) ->
  snd (remove g h e) !! e = Some (mkEntity (position o) None) ->
  update g h e = insert (fst (remove g h e)) (snd (remove g h e)) e.
Proof.
  intros Ho Hne Hrm. unfold update. rewrite Ho.
  assert (Hsame : match gridIndex o with
                  | Some gi => (gi =? posToIndex g (position o))%Z
                  | None => false
                  end = false).
  { destruct (gridIndex o) as [gi|]; [|reflexivity].
    apply Z.eqb_neq. congruence. }
  cbv zeta. rewrite Hsame.
  assert (Hpos : posToIndex (fst (remove g h e)) (position o) = posToIndex g (position o)).
  { unfold remove. rewrite Ho. destruct (gridIndex o) as [gi|]; [|reflexivity].
    now destruct (gi =? -1)%Z. }
  unfold insert. rewrite Hrm. cbn [position]. rewrite Hpos.
  destruct (remove g h e) as [g1 h1]. cbn [fst snd] in *.
  destruct (posToIndex g (position o) =? -1)%Z; [reflexivity|].
  reflexivity.
Qed.

Lemma remove_wf g h e : wf g -> wf (fst (remove g h e)).
Proof.
  intros Hwf. unfold remove. destruct (h !! e) as [o|]; [|exact Hwf].
  destruct (gridIndex o) as [gi|]; [|exact Hwf].
  destruct (gi =? -1)%Z; [exact Hwf|]. now apply set_bucket_wf.
Qed.

Lemma remove_posToIndex g h e q : posToIndex (fst (remove g h e)) q = posToIndex g q.
Proof.
  unfold remove. destruct (h !! e) as [o|]; [|reflexivity].
  destruct (gridIndex o) as [gi|]; [|reflexivity].
  now destruct (gi =? -1)%Z.
Qed.

Lemma update_indexed g h e o :
  wf g -> indexed g h -> h !! e = Some o ->
  indexed (fst (update g h e)) (snd (update g h e)) /\
  snd (update g h e) !! e =
    Some (mkEntity (position o)
            (if (posToIndex g (position o) =? -1)%Z then None
             else Some (posToIndex g (position o)))) /\
  (forall q, posToIndex (fst (update g h e)) q = posToIndex g q).
Proof.
  intros Hwf Hix Ho.
  destruct (decide (gridIndex o = Some (posToIndex g (position o)))) as [Hsame|Hne].
  - assert (E : update g h e = (g, h)).
    { unfold update. rewrite Ho. cbv zeta. rewrite Hsame. now rewrite Z.eqb_refl. }
    rewrite E. cbn [fst snd]. split; [exact Hix|]. split; [|reflexivity].
    destruct (ix_recorded g h Hix e o _ Ho Hsame) as [H0 _].
    destruct (Z.eqb_spec (posToIndex g (position o)) (-1)) as [E1|_]; [lia|].
    now rewrite Ho, (Entity_eta o _ Hsame) at 1.
  - destruct (remove_indexed g h e o Hix Ho) as [Hix1 Ho1].
    rewrite (update_moved g h e o Ho Hne Ho1).
    destruct (insert_indexed (fst (remove g h e)) (snd (remove g h e)) e _
                (remove_wf g h e Hwf) Hix1 Ho1 eq_refl) as [Hix2 Ho2].
    cbn [position] in Ho2. rewrite remove_posToIndex in Ho2.
    split; [exact Hix2|]. split; [exact Ho2|].
    intros q. rewrite <- (remove_posToIndex g h e q).
    unfold insert. rewrite Ho1.
    now destruct (posToIndex (fst (remove g h e)) _ =? -1)%Z.
Qed.

(** X11.  The grid and the entities stay consistent.  If no bucket lists an
    entity twice, every listed entity records the index of the bucket that
    lists it, and every entity that records an index is listed there, then
    the same holds after [insert] of an entity that records no index, after
    [remove], and after [update]. *)
Theorem index_kept g h e o :
  wf g -> indexed g h -> h !! e = Some o ->
  (gridIndex o = None -> indexed (fst (insert g h e)) (snd (insert g h e))) /\
  indexed (fst (remove g h e)) (snd (remove g h e)) /\
  indexed (fst (update g h e)) (snd (update g h e)).
Proof.
  intros Hwf Hix Ho. split; [|split].
  - intros Hgi. now apply (insert_indexed g h e o).
  - now apply (remove_indexed g h e o).
  - now apply (update_indexed g h e o).
Qed.

(** X12.  [update] moves the entity to the cell of its position: afterwards
    [queryPosition] at a point returns the entity exactly when the point is
    inside the grid and in the same cell as the entity, so an entity that
    has left the grid is returned nowhere. *)
Theorem update_relocates g h e o q :
  wf g -> indexed g h -> h !! e = Some o ->
  e ∈ queryPosition (fst (update g h e)) q <->
  posToIndex g q <> (-1)%Z /\ posToIndex g q = posToIndex g (position o).
Proof.
  intros Hwf Hix Ho.
  destruct (update_indexed g h e o Hwf Hix Ho) as (Hix' & Ho' & Hpos).
  unfold queryPosition. rewrite Hpos.
  destruct (Z.eqb_spec (posToIndex g q) (-1)) as [Eq|Eq].
  - split; [intros H; inversion H | intros [H _]; congruence].
  - destruct (posToIndex_bound g q Hwf Eq) as [Hq0 _]. split.
    + intros Hin. split; [exact Eq|].
      destruct (ix_listed _ _ Hix' _ _ Hin) as (o' & Ho'' & Hgi).
      rewrite Ho' in Ho''. inversion Ho''; subst o'. cbn [gridIndex] in Hgi.
      destruct (posToIndex g (position o) =? -1)%Z; [discriminate|].
      inversion Hgi. lia.
    + intros [_ E]. rewrite E in *.
      destruct (Z.eqb_spec (posToIndex g (position o)) (-1)) as [E1|_]; [congruence|].
      now destruct (ix_recorded _ _ Hix' e _ _ Ho' eq_refl) as [_ Hin].
Qed.

(** Entity 7 recorded and listed in bucket 1, wherever it now is. *)
Lemma grid_2x2_indexed p :
  indexed grid_2x2 {[ 7%nat := mkEntity p (Some 1%Z) ]}.
Proof.
  constructor.
  - intros i. unfold bucket, grid_2x2. cbn [grid].
    do 4 (destruct i as [|i]; [simpl; first [apply NoDup_nil_2 | apply NoDup_singleton]|]).
    simpl. apply NoDup_nil_2.
  - intros i e He. unfold bucket, grid_2x2 in He. cbn [grid] in He.
    destruct i as [|[|i]]; simpl in He.
    + inversion He.
    + apply list_elem_of_singleton in He. subst e.
      eexists. split; [apply lookup_singleton_eq | reflexivity].
    + destruct i as [|[|i]]; simpl in He; inversion He.
  - intros e o gi Ho Hgi. apply lookup_singleton_Some in Ho. destruct Ho as [<- <-].
    simpl in Hgi. inversion Hgi; subst gi. split; [lia|].
    vm_compute. apply list_elem_of_singleton. reflexivity.
Qed.

(** Entity 7 has walked from cell 1 to (5, 25), which is in cell 2. *)
Definition heap_moved : Heap := {[ 7%nat := mkEntity (mkVec 5 25) (Some 1%Z) ]}.

Lemma grid_2x2_wf : wf grid_2x2.
Proof. constructor; vm_compute; try reflexivity; discriminate. Qed.

Lemma index_kept_witness :
  indexed (fst (update grid_2x2 heap_moved 7%nat)) (snd (update grid_2x2 heap_moved 7%nat)).
Proof.
  refine (proj2 (proj2 (index_kept grid_2x2 heap_moved 7%nat
                          (mkEntity (mkVec 5 25) (Some 1%Z)) _ _ _))).
  - apply grid_2x2_wf.
  - apply grid_2x2_indexed.
  - vm_compute. reflexivity.
Defined.

Lemma update_relocates_witness :
  7%nat ∈ queryPosition (fst (update grid_2x2 heap_moved 7%nat)) (mkVec 10 30).
Proof.
  refine (proj2 (update_relocates grid_2x2 heap_moved 7%nat
                   (mkEntity (mkVec 5 25) (Some 1%Z)) (mkVec 10 30) _ _ _) _).
  - apply grid_2x2_wf.
  - apply grid_2x2_indexed.
  - vm_compute. reflexivity.
  - split; [vm_compute; discriminate | vm_compute; reflexivity].
Defined.

(** *** Emptying the grid *)

Lemma bucket_clear g i : bucket (clear g) i = [].
Proof.
  unfold bucket, clear. cbn [grid].
  destruct (replicate (length (grid g)) [] !! i) as [c|] eqn:E; [|reflexivity].
  apply lookup_replicate in E. now destruct E as [-> _].
Qed.

Lemma flat_map_nil {A B} (f : A -> list B) (l : list A) :
  (forall x, f x = []) -> flat_map f l = [].
Proof. intros Hf. induction l as [|x l IH]; simpl; [reflexivity|]. now rewrite Hf, IH. Qed.

(** X13.  After [clear] every query is empty, but the entities keep the
    [gridIndex] they had: [update] of an entity that is still in the cell it
    records changes nothing, so the entity stays out of the emptied grid. *)
Theorem clear_forgets_entities g h e o q r :
  h !! e = Some o -> gridIndex o = Some (posToIndex g (position o)) ->
  queryPosition (clear g) q = [] /\
  queryRadius (clear g) q r = [] /\
  update (clear g) h e = (clear g, h) /\
  e ∉ queryPosition (fst (update (clear g) h e)) (position o).
Proof.
  intros Ho Hgi.
  assert (Hq : forall q', queryPosition (clear g) q' = []).
  { intros q'. unfold queryPosition.
    destruct (posToIndex (clear g) q' =? -1)%Z; [reflexivity | apply bucket_clear]. }
  assert (Hu : update (clear g) h e = (clear g, h)).
  { unfold update. rewrite Ho. cbv zeta. rewrite Hgi.
    change (posToIndex (clear g) (position o)) with (posToIndex g (position o)).
    now rewrite Z.eqb_refl. }
  split; [apply Hq|]. split; [|split; [exact Hu|]].
  - unfold queryRadius. cbv zeta. apply flat_map_nil. intros row.
    apply flat_map_nil. intros col. apply bucket_clear.
  - rewrite Hu. cbn [fst]. rewrite Hq. intros H. inversion H.
Qed.

Lemma clear_forgets_entities_witness :
  queryPosition (clear grid_2x2) (mkVec 25 5) = [] /\
  queryRadius (clear grid_2x2) (mkVec 25 5) 12 = [] /\
  update (clear grid_2x2) heap_7 7%nat = (clear grid_2x2, heap_7) /\
  7%nat ∉ queryPosition (fst (update (clear grid_2x2) heap_7 7%nat)) (mkVec 25 5).
Proof.
  apply (clear_forgets_entities grid_2x2 heap_7 7%nat
           (mkEntity (mkVec 25 5) (Some 1%Z)) (mkVec 25 5) 12).
  - vm_compute. reflexivity.
  - vm_compute. reflexivity.
Defined.

(** *** Wider queries *)

Lemma queryRadius_elem g pos r e :
  e ∈ queryRadius g pos r <->
  exists row col,
    (Z.max 0 (Math_floor ((vy pos - r) / cellSize g)) <= row
       <= Z.min (rows g - 1) (Math_floor ((vy pos + r) / cellSize g)))%Z /\
    (Z.max 0 (Math_floor ((vx pos - r) / cellSize g)) <= col
       <= Z.min (cols g - 1) (Math_floor ((vx pos + r) / cellSize g)))%Z /\
    e ∈ bucket g (Z.to_nat (row * cols g + col)).
Proof.
  unfold queryRadius. cbv zeta. rewrite elem_of_flat_map. split.
  - intros (row & Hrow & He). apply elem_of_flat_map in He.
    destruct He as (col & Hcol & He).
    apply elem_of_seqZ in Hrow. apply elem_of_seqZ in Hcol.
    exists row, col. split; [lia|]. split; [lia | exact He].
  - intros (row & col & Hrow & Hcol & He).
    exists row. split; [apply elem_of_seqZ; lia|].
    apply elem_of_flat_map. exists col. split; [apply elem_of_seqZ; lia | exact He].
Qed.

Lemma floor_mono (a b s : Q) :
  0 < s -> a <= b -> (Math_floor (a / s) <= Math_floor (b / s))%Z.
Proof.
  intros Hs Hab. apply floor_le_iff; [exact Hs|].
  apply Qle_trans with a; [|exact Hab].
  apply floor_le_iff; [exact Hs | lia].
Qed.

(** X14.  A wider query returns more: for radii [0 <= r <= r'] every entity
    [queryPosition] returns at a point is returned by [queryRadius] with
    radius [r] there, and every entity returned with radius [r] is returned
    with radius [r']. *)
Theorem queryRadius_widens g pos r r' :
  wf g -> 0 <= r -> r <= r' ->
  queryPosition g pos ⊆ queryRadius g pos r /\
  queryRadius g pos r ⊆ queryRadius g pos r'.
Proof.
  intros Hwf H0 Hr. pose proof (wf_cellSize g Hwf) as Hs. split.
  - intros e He. unfold queryPosition in He.
    destruct (Z.eqb_spec (posToIndex g pos) (-1)) as [E|E]; [inversion He|].
    destruct (posToIndex_cell g pos Hs E) as (Hc & Hrw & Eidx & _).
    rewrite Eidx in He. apply queryRadius_elem.
    exists (Math_floor (vy pos / cellSize g)), (Math_floor (vx pos / cellSize g)).
    pose proof (floor_mono (vx pos - r) (vx pos) _ Hs ltac:(lra)).
    pose proof (floor_mono (vx pos) (vx pos + r) _ Hs ltac:(lra)).
    pose proof (floor_mono (vy pos - r) (vy pos) _ Hs ltac:(lra)).
    pose proof (floor_mono (vy pos) (vy pos + r) _ Hs ltac:(lra)).
    split; [lia|]. split; [lia | exact He].
  - intros e He. apply queryRadius_elem in He. apply queryRadius_elem.
    destruct He as (row & col & Hrow & Hcol & He). exists row, col.
    pose proof (floor_mono (vx pos - r') (vx pos - r) _ Hs ltac:(lra)).
    pose proof (floor_mono (vx pos + r) (vx pos + r') _ Hs ltac:(lra)).
    pose proof (floor_mono (vy pos - r') (vy pos - r) _ Hs ltac:(lra)).
    pose proof (floor_mono (vy pos + r) (vy pos + r') _ Hs ltac:(lra)).
    split; [lia|]. split; [lia | exact He].
Qed.

Lemma queryRadius_widens_witness :
  queryPosition grid_2x2 (mkVec 15 5) ⊆ queryRadius grid_2x2 (mkVec 15 5) 12 /\
  queryRadius grid_2x2 (mkVec 15 5) 12 ⊆ queryRadius grid_2x2 (mkVec 15 5) 30.
Proof.
  apply (queryRadius_widens grid_2x2 (mkVec 15 5) 12 30).
  - apply grid_2x2_wf.
  - vm_compute. discriminate.
  - vm_compute. discriminate.
Defined.

End Spatial.

(** ** Ants, food, nest and the simulation step *)

Module Colony.

Import Pheromone.

Inductive AntState := searching | returning.

Record Ant := mkAnt {
  id : nat;
  nestPosition : Vec;
  position : Vec;
  direction : Q;
  speed : Q;
  turnSpeed : Q;
  carryingFood : Q;
  state : AntState;
  energy : Q;
  isAlive : bool;
  trail : list Vec;
  trailMaxLength : nat;
  lastDepositionTime : nat;
  depositionInterval : nat;
  explorationRate : Q
}.

Definition set_position (a : Ant) (p : Vec) : Ant :=
  mkAnt (id a) (nestPosition a) p (direction a) (speed a) (turnSpeed a)
    (carryingFood a) (state a) (energy a) (isAlive a) (trail a)
    (trailMaxLength a) (lastDepositionTime a) (depositionInterval a)
    (explorationRate a).
Definition set_direction (a : Ant) (d : Q) : Ant :=
  mkAnt (id a) (nestPosition a) (position a) d (speed a) (turnSpeed a)
    (carryingFood a) (state a) (energy a) (isAlive a) (trail a)
    (trailMaxLength a) (lastDepositionTime a) (depositionInterval a)
    (explorationRate a).
Definition set_carryingFood (a : Ant) (c : Q) : Ant :=
  mkAnt (id a) (nestPosition a) (position a) (direction a) (speed a) (turnSpeed a)
    c (state a) (energy a) (isAlive a) (trail a)
    (trailMaxLength a) (lastDepositionTime a) (depositionInterval a)
    (explorationRate a).
Definition set_state (a : Ant) (s : AntState) : Ant :=
  mkAnt (id a) (nestPosition a) (position a) (direction a) (speed a) (turnSpeed a)
    (carryingFood a) s (energy a) (isAlive a) (trail a)
    (trailMaxLength a) (lastDepositionTime a) (depositionInterval a)
    (explorationRate a).
Definition set_energy (a : Ant) (e : Q) : Ant :=
  mkAnt (id a) (nestPosition a) (position a) (direction a) (speed a) (turnSpeed a)
    (carryingFood a) (state a) e (isAlive a) (trail a)
    (trailMaxLength a) (lastDepositionTime a) (depositionInterval a)
    (explorationRate a).
Definition set_isAlive (a : Ant) (b : bool) : Ant :=
  mkAnt (id a) (nestPosition a) (position a) (direction a) (speed a) (turnSpeed a)
    (carryingFood a) (state a) (energy a) b (trail a)
    (trailMaxLength a) (lastDepositionTime a) (depositionInterval a)
    (explorationRate a).
Definition set_trail (a : Ant) (t : list Vec) : Ant :=
  mkAnt (id a) (nestPosition a) (position a) (direction a) (speed a) (turnSpeed a)
    (carryingFood a) (state a) (energy a) (isAlive a) t
    (trailMaxLength a) (lastDepositionTime a) (depositionInterval a)
    (explorationRate a).
Definition set_lastDepositionTime (a : Ant) (n : nat) : Ant :=
  mkAnt (id a) (nestPosition a) (position a) (direction a) (speed a) (turnSpeed a)
    (carryingFood a) (state a) (energy a) (isAlive a) (trail a)
    (trailMaxLength a) n (depositionInterval a)
    (explorationRate a).

Record Food := mkFood {
  f_position : Vec;
  quantity : Q;
  initialQuantity : Q;
  f_size : Q;
  depleted : bool;
  displayRadius : Q
}.

Record Nest := mkNest {
  n_position : Vec;
  n_size : Q;
  foodStored : Q
}.

Record Obstacle := mkObstacle {
  o_position : Vec;
  o_radius : Q
}.

(** [Math.random]: a stream of draws and the number of draws made so far. *)
Record Rng := mkRng {
  draws : nat -> Q;
  cursor : nat
}.

(** Accesses to the shared pheromone field, in the order they happen.  This
    trace is ghost state: nothing reads it. *)
Inductive FieldEvent :=
  | Sense (ant : nat) (ch : Channel)
  | Deposit (ant : nat) (ch : Channel)
  | Advance.

(** What an ant reaches through its [simulation] argument. *)
Record World := mkWorld {
  width : Q;
  height : Q;
  nest : Nest;
  foodManager : list Food;
  obstacleManager : list Obstacle;
  pheromoneSystem : PheromoneSystem;
  random : Rng;
  fieldLog : list FieldEvent
}.

Definition set_nest (w : World) (n : Nest) : World :=
  mkWorld (width w) (height w) n (foodManager w) (obstacleManager w)
    (pheromoneSystem w) (random w) (fieldLog w).
Definition set_foods (w : World) (fs : list Food) : World :=
  mkWorld (width w) (height w) (nest w) fs (obstacleManager w)
    (pheromoneSystem w) (random w) (fieldLog w).
Definition set_pheromoneSystem (w : World) (ps : PheromoneSystem) : World :=
  mkWorld (width w) (height w) (nest w) (foodManager w) (obstacleManager w)
    ps (random w) (fieldLog w).
Definition set_random (w : World) (r : Rng) : World :=
  mkWorld (width w) (height w) (nest w) (foodManager w) (obstacleManager w)
    (pheromoneSystem w) r (fieldLog w).
Definition log_event (w : World) (e : FieldEvent) : World :=
  mkWorld (width w) (height w) (nest w) (foodManager w) (obstacleManager w)
    (pheromoneSystem w) (random w) (fieldLog w ++ [e]).

(** One call of [Math.random()]. *)
Definition Math_random (w : World) : Q * World :=
  (draws (random w) (cursor (random w)),
   set_random w (mkRng (draws (random w)) (S (cursor (random w))))).

(** [n] calls whose results only feed particle effects, which are not
    modelled. *)
Definition skip_random (n : nat) (w : World) : World :=
  set_random w (mkRng (draws (random w)) (n + cursor (random w))).

Record AntColony := mkColony {
  c_nestPosition : Vec;
  ants : list Ant;
  antIdCounter : nat
}.

Record Simulation := mkSim {
  initialized : bool;
  time : Q;
  antColony : AntColony;
  world : World
}.

(** [Math.abs], [Math.sign]. *)
Definition Math_abs (x : Q) : Q := if x <? 0 then - x else x.
Definition Math_sign (x : Q) : Q :=
  if 0 <? x then 1 else if x <? 0 then - (1) else 0.

(** The JavaScript remainder [a % b]: the sign follows the dividend. *)
Definition Qtrunc (x : Q) : Z := if x <? 0 then Qceiling x else Qfloor x.
Definition js_rem (a b : Q) : Q := a - b * inject_Z (Qtrunc (a / b)).

(** The library functions the ant code calls on numbers. *)
Record MathLib := mkMath {
  lib_cos : Q -> Q;
  lib_sin : Q -> Q;
  lib_sqrt : Q -> Q;
  lib_atan2 : Q -> Q -> Q;
  lib_PI : Q
}.

Section WithMath.

Variable Math : MathLib.
Variable CONFIG : Config.

Local Abbreviation Math_cos := (lib_cos Math).
Local Abbreviation Math_sin := (lib_sin Math).
Local Abbreviation Math_sqrt := (lib_sqrt Math).
Local Abbreviation Math_atan2 := (lib_atan2 Math).
Local Abbreviation Math_PI := (lib_PI Math).

(** *** Vector *)

Definition Vector_subtract (v1 v2 : Vec) : Vec :=
  mkVec (vx v1 - vx v2) (vy v1 - vy v2).
Definition Vector_magnitude (v : Vec) : Q :=
  Math_sqrt (vx v * vx v + vy v * vy v).
Definition Vector_normalize (v : Vec) : Vec :=
  let mag := Vector_magnitude v in
  if Qeq_bool mag 0 then mkVec 0 0 else mkVec (vx v / mag) (vy v / mag).
Definition Vector_distance (v1 v2 : Vec) : Q :=
  Vector_magnitude (Vector_subtract v1 v2).

(** [MathUtils.angleDiff(a, b)]. *)
Definition angleDiff (a b : Q) : Q :=
  let diff := js_rem (b - a) (2 * Math_PI) in
  let diff := if Math_PI <? diff then diff - 2 * Math_PI else diff in
  let diff := if diff <? - Math_PI then diff + 2 * Math_PI else diff in
  diff.

(** *** Food *)

(** [Food.take(amount)]: the food after the call and the amount taken. *)
Definition Food_take (f : Food) (amount : Q) : Q * Food :=
  let amount := Math_min amount (quantity f) in
  let q := quantity f - amount in
  let r := Math_sqrt q * f_size f * (25 # 100) in
  let d := if Qle_bool q 0 then true else depleted f in
  (amount, mkFood (f_position f) q (initialQuantity f) (f_size f) d r).

(** [Food.update()]. *)
Definition Food_update (f : Food) : Food :=
  if food_respawnEnabled CONFIG && (quantity f <? initialQuantity f) then
    let q := quantity f + food_respawnRate CONFIG * speedMultiplier CONFIG in
    let q := Math_min q (initialQuantity f) in
    mkFood (f_position f) q (initialQuantity f) (f_size f) false
           (Math_sqrt q * f_size f * (25 # 100))
  else f.

(** [Food.canCollect(antPosition)]. *)
Definition Food_canCollect (f : Food) (antPosition : Vec) : bool :=
  let dist := Vector_distance (f_position f) antPosition in
  negb (depleted f) && (dist <? displayRadius f + ant_size CONFIG).

(** [FoodManager.update()]. *)
Definition FoodManager_update (foods : list Food) : list Food :=
  if paused CONFIG then foods else map Food_update foods.

(** [FoodManager.canAntCollectFood(ant)]: the first food that can be
    collected, as its place in [this.foods]; [None] is [null]. *)
Fixpoint canAntCollectFood_from (i : nat) (foods : list Food) (antPosition : Vec)
  : option (nat * Food) :=
  match foods with
  | [] => None
  | f :: rest =>
      if Food_canCollect f antPosition then Some (i, f)
      else canAntCollectFood_from (S i) rest antPosition
  end.

Definition canAntCollectFood (foods : list Food) (a : Ant) : option (nat * Food) :=
  canAntCollectFood_from 0 foods (position a).

(** *** Nest *)

Definition Nest_contains (n : Nest) (p : Vec) : bool :=
  Vector_distance (n_position n) p <? n_size n + 0.

Definition Nest_storeFood (n : Nest) (amount : Q) : Nest :=
  mkNest (n_position n) (n_size n) (foodStored n + amount).

(** *** ObstacleManager *)

(** [calculateAvoidanceForce(ant)]; [None] is [null]. *)
Definition calculateAvoidanceForce (obstacles : list Obstacle) (a : Ant) : option Vec :=
  let avoidanceRadius := ant_sensorDistance CONFIG * (15 # 10) in
  let '(force, near) :=
    fold_left (fun '(force, near) o =>
      let dist := Vector_distance (position a) (o_position o) in
      if dist <? o_radius o + avoidanceRadius then
        let awayDirection := Vector_subtract (position a) (o_position o) in
        let awayNorm := Vector_normalize awayDirection in
        let forceMagnitude :=
          Math_max 0 (1 - (dist - o_radius o) / avoidanceRadius) in
        (mkVec (vx force + vx awayNorm * forceMagnitude * 2)
               (vy force + vy awayNorm * forceMagnitude * 2), true)
      else (force, near))
      obstacles (mkVec 0 0, false) in
  if near then Some (Vector_normalize force) else None.

(** *** Ant *)

(** The constructor; it draws the spawn angle, the spawn distance and the
    initial direction. *)
Definition Ant_new (nestPos : Vec) (ident : nat) (w : World) : Ant * World :=
  let '(r1, w) := Math_random w in
  let angle := r1 * Math_PI * 2 in
  let '(r2, w) := Math_random w in
  let distance := r2 * nest_size CONFIG * (8 # 10) in
  let '(r3, w) := Math_random w in
  (mkAnt ident nestPos
     (mkVec (vx nestPos + Math_cos angle * distance)
            (vy nestPos + Math_sin angle * distance))
     (r3 * Math_PI * 2) (ant_speed CONFIG) (ant_turnSpeed CONFIG)
     0 searching (ant_energyCapacity CONFIG) true
     [] (trailHistoryLength CONFIG) 0 2 (ant_explorationRate CONFIG), w).

(** [boundPosition(width, height)]. *)
Definition boundPosition (a : Ant) (width height : Q) : Ant :=
  let buffer := 10 in
  let a :=
    if vx (position a) <? buffer then
      set_direction (set_position a (mkVec buffer (vy (position a))))
                    (Math_PI - direction a)
    else if width - buffer <? vx (position a) then
      set_direction (set_position a (mkVec (width - buffer) (vy (position a))))
                    (Math_PI - direction a)
    else a in
  if vy (position a) <? buffer then
    set_direction (set_position a (mkVec (vx (position a)) buffer)) (- direction a)
  else if height - buffer <? vy (position a) then
    set_direction (set_position a (mkVec (vx (position a)) (height - buffer)))
                  (- direction a)
  else a.

(** [calculateDirectionToNest()]. *)
Definition calculateDirectionToNest (a : Ant) : Q :=
  let dx := vx (nestPosition a) - vx (position a) in
  let dy := vy (nestPosition a) - vy (position a) in
  Math_atan2 dy dx.

(** [simulation.pheromoneSystem.sensePheromone(grid, this.position,
    this.direction, CONFIG.ant.sensorAngle, CONFIG.ant.sensorDistance)]. *)
Definition sense (a : Ant) (ch : Channel) (w : World) : Sensors * World :=
  let '(sensors, ps) :=
    Pheromone.run
      (sensePheromone Math_cos Math_sin ch (position a) (direction a)
         (ant_sensorAngle CONFIG) (ant_sensorDistance CONFIG))
      (pheromoneSystem w) in
  (sensors, log_event (set_pheromoneSystem w ps) (Sense (id a) ch)).

(** [simulation.pheromoneSystem.depositToFood / depositToNest]. *)
Definition deposit_at (a : Ant) (ch : Channel) (amount : Q) (w : World) : World :=
  log_event
    (set_pheromoneSystem w
       (Pheromone.exec (deposit CONFIG ch (position a) amount) (pheromoneSystem w)))
    (Deposit (id a) ch).

(** [searchForFood(simulation)]. *)
Definition searchForFood (a : Ant) (w : World) : Ant * World :=
  match canAntCollectFood (foodManager w) a with
  | Some (i, foodSource) =>
      let '(taken, foodSource) := Food_take foodSource 1 in
      let w := set_foods w (<[ i := foodSource ]> (foodManager w)) in
      let a := set_carryingFood a taken in
      if 0 <? carryingFood a then
        let a := set_state a returning in
        let a := set_direction a (calculateDirectionToNest a) in
        (* createFoodParticleEffect: three particles, four draws each *)
        (a, skip_random 12 w)
      else (a, w)
  | None =>
      match calculateAvoidanceForce (obstacleManager w) a with
      | Some avoidanceForce =>
          let avoidanceAngle := Math_atan2 (vy avoidanceForce) (vx avoidanceForce) in
          (set_direction a (direction a * 0.3 + avoidanceAngle * 0.7), w)
      | None =>
          let '(sensors, w) := sense a ToFood w in
          let '(r, w) := Math_random w in
          if r <? explorationRate a then
            let '(r, w) := Math_random w in
            (set_direction a (direction a + (r - 0.5) * turnSpeed a * 2), w)
          else
            let maxPheromone :=
              Math_max (Math_max (forward sensors) (left sensors)) (right sensors) in
            if pheromoneFadeThreshold CONFIG <? maxPheromone then
              if (forward sensors <? left sensors) && (right sensors <? left sensors)
              then (set_direction a (direction a - turnSpeed a), w)
              else if (forward sensors <? right sensors) && (left sensors <? right sensors)
              then (set_direction a (direction a + turnSpeed a), w)
              else (a, w)
            else
              let '(r, w) := Math_random w in
              (set_direction a (direction a + (r - 0.5) * turnSpeed a), w)
      end
  end.

(** [returnToNest(simulation)]. *)
Definition returnToNest (a : Ant) (w : World) : Ant * World :=
  if Nest_contains (nest w) (position a) then
    let w := set_nest w (Nest_storeFood (nest w) (carryingFood a)) in
    (* createFoodStorageEffect: three particles, two draws each *)
    let w := skip_random 6 w in
    let a := set_carryingFood a 0 in
    let a := set_state a searching in
    let '(r, w) := Math_random w in
    let a := set_direction a (direction a + (Math_PI + (r - 0.5) * Math_PI / 2)) in
    let a := set_energy a (ant_energyCapacity CONFIG) in
    (a, w)
  else
    match calculateAvoidanceForce (obstacleManager w) a with
    | Some avoidanceForce =>
        let avoidanceAngle := Math_atan2 (vy avoidanceForce) (vx avoidanceForce) in
        (set_direction a (direction a * 0.3 + avoidanceAngle * 0.7), w)
    | None =>
        let '(sensors, w) := sense a ToNest w in
        let nestVector :=
          mkVec (vx (nestPosition a) - vx (position a))
                (vy (nestPosition a) - vy (position a)) in
        let distanceToNest := Vector_magnitude nestVector in
        let angleToNest := Math_atan2 (vy nestVector) (vx nestVector) in
        if distanceToNest <? nest_size CONFIG * 2 then
          (set_direction a angleToNest, w)
        else
          let '(r, w) := Math_random w in
          if r <? ant_returnHomeBias CONFIG then
            let diff := angleDiff (direction a) angleToNest in
            (set_direction a
               (direction a + Math_sign diff * Math_min (Math_abs diff) (turnSpeed a)), w)
          else
            let maxPheromone :=
              Math_max (Math_max (forward sensors) (left sensors)) (right sensors) in
            if pheromoneFadeThreshold CONFIG <? maxPheromone then
              if (forward sensors <? left sensors) && (right sensors <? left sensors)
              then (set_direction a (direction a - turnSpeed a), w)
              else if (forward sensors <? right sensors) && (left sensors <? right sensors)
              then (set_direction a (direction a + turnSpeed a), w)
              else (a, w)
            else
              let diff := angleDiff (direction a) angleToNest in
              (set_direction a
                 (direction a +
                  Math_sign diff * Math_min (Math_abs diff) (turnSpeed a * 0.5)), w)
    end.

(** [depositPheromones(simulation)]. *)
Definition depositPheromones (a : Ant) (w : World) : Ant * World :=
  let a := set_lastDepositionTime a (S (lastDepositionTime a)) in
  if (lastDepositionTime a <? depositionInterval a)%nat then (a, w)
  else
    let a := set_lastDepositionTime a 0 in
    match state a with
    | searching =>
        let strengthModifier := 1 in
        (a, deposit_at a ToNest (strength (pher_toNest CONFIG) * strengthModifier) w)
    | returning =>
        let strengthModifier := carryingFood a in
        (a, deposit_at a ToFood (strength (pher_toFood CONFIG) * strengthModifier) w)
    end.

(** [updateTrail()]. *)
Definition updateTrail (a : Ant) : Ant :=
  let t := trail a ++ [position a] in
  set_trail a (if (trailMaxLength a <? length t)%nat then tail t else t).

(** The part of [Ant.update] after the energy check: behaviour, movement,
    bounds, deposition, trail. *)
Definition act (a : Ant) (w : World) : Ant * World :=
  let '(a, w) :=
    match state a with
    | searching => searchForFood a w
    | returning => returnToNest a w
    end in
  let currentSpeed := speed a in
  let currentSpeed :=
    if 0 <? carryingFood a then currentSpeed * ant_carrierSpeed CONFIG
    else currentSpeed in
  let currentSpeed := currentSpeed * speedMultiplier CONFIG in
  let a := set_position a
             (mkVec (vx (position a) + Math_cos (direction a) * currentSpeed)
                    (vy (position a) + Math_sin (direction a) * currentSpeed)) in
  let a := boundPosition a (width w) (height w) in
  let '(a, w) := depositPheromones a w in
  let a := if trailHistory CONFIG then updateTrail a else set_trail a [] in
  (a, w).

(** [Ant.update(simulation)]. *)
Definition Ant_update (a : Ant) (w : World) : Ant * World :=
  if negb (isAlive a) || paused CONFIG then (a, w)
  else
    let a := set_energy a
               (energy a - ant_energyConsumption CONFIG * speedMultiplier CONFIG) in
    if Qle_bool (energy a) 0 then (set_isAlive a false, w)
    else act a w.

(** *** AntColony *)

(** [addAnt()]. *)
Definition addAnt (c : AntColony) (w : World) : AntColony * World :=
  let '(ant, w) := Ant_new (c_nestPosition c) (antIdCounter c) w in
  (mkColony (c_nestPosition c) (ants c ++ [ant]) (S (antIdCounter c)), w).

(** [for (const ant of this.ants) ant.update(simulation)]. *)
Fixpoint update_ants (l : list Ant) (w : World) : list Ant * World :=
  match l with
  | [] => ([], w)
  | a :: rest =>
      let '(a', w) := Ant_update a w in
      let '(rest', w) := update_ants rest w in
      (a' :: rest', w)
  end.

(** [AntColony.update(simulation)]. *)
Definition AntColony_update (c : AntColony) (w : World) : AntColony * World :=
  if paused CONFIG then (c, w)
  else
    let '(updated, w) := update_ants (ants c) w in
    let c := mkColony (c_nestPosition c) (List.filter isAlive updated) (antIdCounter c) in
    if (length (ants c) <? ant_maxCount CONFIG)%nat then
      let spawnChance := ant_spawnRate CONFIG * speedMultiplier CONFIG / 60 in
      let '(r, w) := Math_random w in
      if r <? spawnChance then addAnt c w else (c, w)
    else (c, w).

(** *** Simulation *)

(** [this.pheromoneSystem.update()] as called from the simulation step. *)
Definition advance_field (w : World) : World :=
  log_event
    (set_pheromoneSystem w (Pheromone.exec (Pheromone.update CONFIG) (pheromoneSystem w)))
    Advance.

(** [Simulation.update(timestamp)].  The performance monitor, the UI and the
    day/night cycle, which the method updates first, touch none of the
    fields modelled here. *)
Definition Simulation_update (s : Simulation) : Simulation :=
  if negb (initialized s) then s
  else if paused CONFIG then s
  else
    let w := world s in
    let w := set_foods w (FoodManager_update (foodManager w)) in
    let w := advance_field w in
    let '(c, w) := AntColony_update (antColony s) w in
    mkSim (initialized s)
          (time s + timeStep CONFIG * speedMultiplier CONFIG) c w.

(** *** What the steps of a tick keep *)

Ltac break_match :=
  repeat match goal with
         | |- context [match ?x with _ => _ end] => destruct x eqn:?
         end.

Lemma boundPosition_keeps a wd ht :
  id (boundPosition a wd ht) = id a /\
  state (boundPosition a wd ht) = state a /\
  carryingFood (boundPosition a wd ht) = carryingFood a /\
  isAlive (boundPosition a wd ht) = isAlive a.
Proof. unfold boundPosition. cbv zeta. break_match; simpl; auto. Qed.

Lemma depositPheromones_keeps a w :
  id (fst (depositPheromones a w)) = id a /\
  state (fst (depositPheromones a w)) = state a /\
  carryingFood (fst (depositPheromones a w)) = carryingFood a /\
  isAlive (fst (depositPheromones a w)) = isAlive a.
Proof. unfold depositPheromones. cbv zeta. break_match; simpl; auto. Qed.

Lemma searchForFood_keeps a w :
  id (fst (searchForFood a w)) = id a /\
  isAlive (fst (searchForFood a w)) = isAlive a /\
  position (fst (searchForFood a w)) = position a.
Proof. unfold searchForFood. cbv zeta. break_match; simpl; auto. Qed.

Lemma returnToNest_keeps a w :
  id (fst (returnToNest a w)) = id a /\
  isAlive (fst (returnToNest a w)) = isAlive a /\
  position (fst (returnToNest a w)) = position a.
Proof. unfold returnToNest. cbv zeta. break_match; simpl; auto. Qed.

Lemma trail_step_keeps a :
  let a' := if trailHistory CONFIG then updateTrail a else set_trail a [] in
  id a' = id a /\ state a' = state a /\ carryingFood a' = carryingFood a /\
  isAlive a' = isAlive a.
Proof. cbv zeta. unfold updateTrail. destruct (trailHistory CONFIG); simpl; auto. Qed.

(** [act] written with projections. *)
Definition behave (a : Ant) (w : World) : Ant * World :=
  match state a with
  | searching => searchForFood a w
  | returning => returnToNest a w
  end.

Definition move (a : Ant) : Ant :=
  let currentSpeed := speed a in
  let currentSpeed :=
    if 0 <? carryingFood a then currentSpeed * ant_carrierSpeed CONFIG
    else currentSpeed in
  let currentSpeed := currentSpeed * speedMultiplier CONFIG in
  set_position a
    (mkVec (vx (position a) + Math_cos (direction a) * currentSpeed)
           (vy (position a) + Math_sin (direction a) * currentSpeed)).

Lemma act_unfold a w :
  act a w =
  let a1 := fst (behave a w) in
  let w1 := snd (behave a w) in
  let a2 := boundPosition (move a1) (width w1) (height w1) in
  let a3 := fst (depositPheromones a2 w1) in
  let w3 := snd (depositPheromones a2 w1) in
  (if trailHistory CONFIG then updateTrail a3 else set_trail a3 [], w3).
Proof.
  unfold act, behave, move. cbv zeta.
  destruct (match state a with
            | searching => searchForFood a w
            | returning => returnToNest a w
            end) as [a1 w1].
  simpl fst; simpl snd.
  destruct (depositPheromones _ w1) as [a3 w3]. reflexivity.
Qed.

Lemma act_after_behave a w :
  id (fst (act a w)) = id (fst (behave a w)) /\
  state (fst (act a w)) = state (fst (behave a w)) /\
  carryingFood (fst (act a w)) = carryingFood (fst (behave a w)) /\
  isAlive (fst (act a w)) = isAlive (fst (behave a w)).
Proof.
  rewrite act_unfold. cbv zeta. simpl fst.
  set (a1 := fst (behave a w)). set (w1 := snd (behave a w)).
  destruct (trail_step_keeps
              (fst (depositPheromones (boundPosition (move a1) (width w1) (height w1)) w1)))
    as (T1 & T2 & T3 & T4).
  destruct (depositPheromones_keeps (boundPosition (move a1) (width w1) (height w1)) w1)
    as (D1 & D2 & D3 & D4).
  destruct (boundPosition_keeps (move a1) (width w1) (height w1)) as (B1 & B2 & B3 & B4).
  cbv zeta in T1, T2, T3, T4.
  rewrite T1, T2, T3, T4, D1, D2, D3, D4, B1, B2, B3, B4.
  unfold move. cbv zeta. simpl. auto.
Qed.

Lemma depositPheromones_pose a w :
  direction (fst (depositPheromones a w)) = direction a /\
  position (fst (depositPheromones a w)) = position a.
Proof. unfold depositPheromones. cbv zeta. break_match; simpl; auto. Qed.

Lemma trail_step_pose a :
  let a' := if trailHistory CONFIG then updateTrail a else set_trail a [] in
  direction a' = direction a /\ position a' = position a.
Proof. cbv zeta. unfold updateTrail. destruct (trailHistory CONFIG); simpl; auto. Qed.

(** Inside the inset rectangle [boundPosition] changes nothing. *)
Lemma boundPosition_inside a wd ht :
  10 <= vx (position a) -> vx (position a) <= wd - 10 ->
  10 <= vy (position a) -> vy (position a) <= ht - 10 ->
  boundPosition a wd ht = a.
Proof.
  intros H1 H2 H3 H4. unfold boundPosition. cbv zeta.
  rewrite (proj2 (Qltb_ge _ _) H1), (proj2 (Qltb_ge _ _) H2).
  now rewrite (proj2 (Qltb_ge _ _) H3), (proj2 (Qltb_ge _ _) H4).
Qed.

Lemma act_pose a w :
  let a1 := fst (behave a w) in
  let w1 := snd (behave a w) in
  direction (fst (act a w)) = direction (boundPosition (move a1) (width w1) (height w1)) /\
  position (fst (act a w)) = position (boundPosition (move a1) (width w1) (height w1)).
Proof.
  cbv zeta. rewrite act_unfold. cbv zeta. simpl fst.
  set (a2 := boundPosition _ _ _).
  destruct (trail_step_pose (fst (depositPheromones a2 (snd (behave a w))))) as (T1 & T2).
  destruct (depositPheromones_pose a2 (snd (behave a w))) as (D1 & D2).
  cbv zeta in T1, T2. now rewrite T1, T2, D1, D2.
Qed.

Lemma sense_arena a ch w :
  width (snd (sense a ch w)) = width w /\ height (snd (sense a ch w)) = height w.
Proof.
  unfold sense. destruct (Pheromone.run _ _) as [s ps]. simpl. auto.
Qed.

Lemma searchForFood_arena a w :
  width (snd (searchForFood a w)) = width w /\
  height (snd (searchForFood a w)) = height w.
Proof.
  unfold searchForFood.
  destruct (canAntCollectFood (foodManager w) a) as [[i src]|].
  - unfold Food_take, skip_random. cbv zeta. break_match; simpl; auto.
  - destruct (calculateAvoidanceForce (obstacleManager w) a); [simpl; auto|].
    destruct (sense_arena a ToFood w) as (E1 & E2).
    destruct (sense a ToFood w) as [s w0]. simpl in E1, E2.
    unfold Math_random. cbv zeta. break_match; simpl; auto.
Qed.

Lemma behave_id a w : id (fst (behave a w)) = id a.
Proof.
  unfold behave. destruct (state a);
    [apply searchForFood_keeps | apply returnToNest_keeps].
Qed.

Lemma Ant_update_id a w : id (fst (Ant_update a w)) = id a.
Proof.
  unfold Ant_update. cbv zeta.
  destruct (negb (isAlive a) || paused CONFIG); [reflexivity|].
  destruct (Qle_bool _ 0); [reflexivity|].
  destruct (act_after_behave
              (set_energy a (energy a - ant_energyConsumption CONFIG * speedMultiplier CONFIG)) w)
    as (H & _).
  now rewrite H, behave_id.
Qed.

Lemma update_ants_app l1 l2 w :
  update_ants (l1 ++ l2) w =
  (fst (update_ants l1 w) ++ fst (update_ants l2 (snd (update_ants l1 w))),
   snd (update_ants l2 (snd (update_ants l1 w)))).
Proof.
  revert w. induction l1 as [|a l1 IH]; intros w; simpl.
  - now destruct (update_ants l2 w).
  - destruct (Ant_update a w) as [a' w1]. rewrite IH.
    destruct (update_ants l1 w1) as [l1' w2]. simpl.
    reflexivity.
Qed.

Lemma update_ants_ids l w : map id (fst (update_ants l w)) = map id l.
Proof.
  revert w. induction l as [|a l IH]; intros w; simpl; [reflexivity|].
  pose proof (Ant_update_id a w) as Ha.
  destruct (Ant_update a w) as [a' w1]. simpl in Ha.
  specialize (IH w1). destruct (update_ants l w1) as [l' w2]. simpl in *.
  now rewrite Ha, IH.
Qed.

(** The ant as [Ant.update] leaves it when the energy check fails. *)
Definition starved (a : Ant) : Ant :=
  set_isAlive
    (set_energy a (energy a - ant_energyConsumption CONFIG * speedMultiplier CONFIG))
    false.

Lemma Ant_update_starved a w :
  paused CONFIG = false -> isAlive a = true ->
  energy a - ant_energyConsumption CONFIG * speedMultiplier CONFIG <= 0 ->
  Ant_update a w = (starved a, w).
Proof.
  intros Hp Ha He. unfold Ant_update, starved. rewrite Hp, Ha. simpl.
  now rewrite (proj2 (Qle_bool_iff _ _) He).
Qed.

Lemma addAnt_ants c w :
  exists fresh, ants (fst (addAnt c w)) = ants c ++ [fresh] /\ id fresh = antIdCounter c.
Proof.
  unfold addAnt, Ant_new, Math_random. simpl.
  eexists. split; reflexivity.
Qed.

(** The ants of the colony after [AntColony.update]: the survivors of the
    update loop, possibly followed by one fresh ant. *)
Lemma AntColony_update_ants c w :
  paused CONFIG = false ->
  ants (fst (AntColony_update c w)) = List.filter isAlive (fst (update_ants (ants c) w)) \/
  exists fresh,
    ants (fst (AntColony_update c w))
      = List.filter isAlive (fst (update_ants (ants c) w)) ++ [fresh] /\
    id fresh = antIdCounter c.
Proof.
  intros Hp. unfold AntColony_update. rewrite Hp.
  destruct (update_ants (ants c) w) as [updated w1]. cbv zeta. simpl fst.
  cbn [ants antIdCounter c_nestPosition].
  destruct (length (List.filter isAlive updated) <? ant_maxCount CONFIG)%nat;
    [|left; reflexivity].
  unfold Math_random. cbv zeta.
  match goal with
  | |- context [if ?b then addAnt ?c0 ?w0 else _] =>
      destruct b; [|left; reflexivity];
      destruct (addAnt_ants c0 w0) as (fresh & E1 & E2)
  end.
  right. exists fresh. split; assumption.
Qed.

(** C7.  A live ant whose energy equals the per-tick consumption (speed
    multiplier 1, simulation running) fails the energy check of its next
    update: its energy drops to at most 0, it is marked dead, and nothing else
    of the ant or of the world changes (no goal check, steering, movement or
    deposition, no random draw).  The colony update that runs that ant's
    update drops it from [ants]. *)
Theorem exhausted_ant_dies_and_is_removed c w a l1 l2 :
  paused CONFIG = false ->
  speedMultiplier CONFIG == 1 ->
  isAlive a = true ->
  energy a == ant_energyConsumption CONFIG ->
  ants c = l1 ++ a :: l2 ->
  NoDup (map id (ants c)) ->
  (forall x, x ∈ ants c -> (id x < antIdCounter c)%nat) ->
  (forall w0, Ant_update a w0 = (starved a, w0)) /\
  energy (starved a) <= 0 /\
  isAlive (starved a) = false /\
  (position (starved a) = position a /\ direction (starved a) = direction a /\
   state (starved a) = state a /\ carryingFood (starved a) = carryingFood a /\
   lastDepositionTime (starved a) = lastDepositionTime a) /\
  (forall x, x ∈ ants (fst (AntColony_update c w)) -> id x <> id a).
Proof.
  intros Hp Hm Ha He Hants Hnd Hlt.
  assert (Hz : energy a - ant_energyConsumption CONFIG * speedMultiplier CONFIG <= 0).
  { rewrite Hm, He. lra. }
  assert (Hupd : forall w0, Ant_update a w0 = (starved a, w0))
    by (intros w0; now apply Ant_update_starved).
  split; [exact Hupd|]. split; [exact Hz|]. split; [reflexivity|].
  split; [repeat split|].
  intros x Hx.
  (* the survivors of the loop *)
  assert (Hsurv : forall y, y ∈ List.filter isAlive (fst (update_ants (ants c) w)) ->
                            id y <> id a).
  { intros y Hy. apply list_elem_of_In, filter_In in Hy. destruct Hy as [Hy Halive].
    rewrite Hants, update_ants_app in Hy. simpl fst in Hy.
    set (w1 := snd (update_ants l1 w)) in *.
    simpl update_ants in Hy. rewrite (Hupd w1) in Hy.
    destruct (update_ants l2 w1) as [l2' w2] eqn:E2. simpl fst in Hy.
    rewrite Hants, map_app in Hnd. simpl in Hnd.
    apply NoDup_app in Hnd. destruct Hnd as (_ & Hdisj & Hnd2).
    apply NoDup_cons in Hnd2. destruct Hnd2 as [Hnotin2 _].
    apply in_app_or in Hy. destruct Hy as [Hy|[Hy|Hy]].
    - intros E. apply (Hdisj (id a)); [|left].
      rewrite <- (update_ants_ids l1 w), <- E.
      apply list_elem_of_In, in_map, Hy.
    - subst y. simpl in Halive. discriminate.
    - intros E. apply Hnotin2.
      pose proof (update_ants_ids l2 w1) as Hids. rewrite E2 in Hids. simpl in Hids.
      rewrite <- Hids, <- E. apply list_elem_of_In, in_map, Hy. }
  destruct (AntColony_update_ants c w Hp) as [E|(fresh & E & Hfresh)];
    rewrite E in Hx.
  - now apply Hsurv.
  - apply list_elem_of_In, in_app_or in Hx. destruct Hx as [Hx|[Hx|[]]].
    + apply Hsurv. now apply list_elem_of_In.
    + subst x. rewrite Hfresh.
      assert (Hin : a ∈ ants c)
        by (rewrite Hants; apply list_elem_of_In, in_or_app; right; left; reflexivity).
      specialize (Hlt a Hin). lia.
Qed.

(** *** Collecting food *)

Lemma canAntCollectFood_from_Some k foods pos i src :
  canAntCollectFood_from k foods pos = Some (i, src) ->
  exists j, i = (k + j)%nat /\ foods !! j = Some src /\
            Food_canCollect src pos = true /\
            forall j' f', (j' < j)%nat -> foods !! j' = Some f' ->
                          Food_canCollect f' pos = false.
Proof.
  revert k. induction foods as [|f foods IH]; intros k H; simpl in H; [discriminate|].
  destruct (Food_canCollect f pos) eqn:E.
  - injection H as <- <-. exists 0%nat. repeat split; auto with arith.
    intros j' f' Hj. lia.
  - destruct (IH (S k) H) as (j & -> & Hj & Hc & Hfirst).
    exists (S j). split; [lia|]. split; [exact Hj|]. split; [exact Hc|].
    intros [|j'] f' Hlt Hf'; simpl in Hf'.
    + now injection Hf' as <-.
    + apply (Hfirst j' f'); [lia | exact Hf'].
Qed.

Lemma canAntCollectFood_from_exists k foods pos f :
  f ∈ foods -> Food_canCollect f pos = true ->
  exists i src, canAntCollectFood_from k foods pos = Some (i, src).
Proof.
  revert k. induction foods as [|g foods IH]; intros k Hin Hc; [inversion Hin|].
  simpl. destruct (Food_canCollect g pos) eqn:E; [eauto|].
  apply IH; [|exact Hc].
  apply elem_of_cons in Hin. destruct Hin as [->|Hin]; [congruence|exact Hin].
Qed.

(** The direction from the ant's position to the nest. *)
Definition bearing_to_nest (a : Ant) : Q :=
  Math_atan2 (vy (nestPosition a) - vy (position a))
             (vx (nestPosition a) - vx (position a)).

Lemma searchForFood_collect a w i src :
  canAntCollectFood (foodManager w) a = Some (i, src) ->
  let granted := Math_min 1 (quantity src) in
  let w' := set_foods w (<[ i := snd (Food_take src 1) ]> (foodManager w)) in
  searchForFood a w =
  if 0 <? granted then
    (set_direction (set_state (set_carryingFood a granted) returning) (bearing_to_nest a),
     skip_random 12 w')
  else (set_carryingFood a granted, w').
Proof.
  intros H. unfold searchForFood. rewrite H. unfold Food_take. cbv zeta. simpl.
  destruct (0 <? Math_min 1 (quantity src)); reflexivity.
Qed.

(** C6.  A searching ant in collection range of a non-depleted food source
    requests one unit from the first such source and carries what [take]
    grants, [min 1 quantity]; the source loses that amount.  When the granted
    amount is positive the goal step switches the ant to [returning] and sets
    its direction to the bearing from its position to the nest; the ant ends
    that tick in state [returning] with the granted amount, and, unless the
    move of that tick carries it into the 10-pixel border, still heading along
    that bearing. *)
Theorem collecting_ant_turns_home a w f :
  f ∈ foodManager w ->
  Food_canCollect f (position a) = true ->
  exists i src,
    canAntCollectFood (foodManager w) a = Some (i, src) /\
    foodManager w !! i = Some src /\
    Food_canCollect src (position a) = true /\
    let granted := Math_min 1 (quantity src) in
    granted <= 1 /\ granted <= quantity src /\
    carryingFood (fst (searchForFood a w)) = granted /\
    (exists src', foodManager (snd (searchForFood a w)) !! i = Some src' /\
                  quantity src' = quantity src - granted) /\
    position (fst (searchForFood a w)) = position a /\
    (0 < granted ->
       state (fst (searchForFood a w)) = returning /\
       direction (fst (searchForFood a w)) = bearing_to_nest a) /\
    (state a = searching -> isAlive a = true -> paused CONFIG = false ->
     0 < energy a - ant_energyConsumption CONFIG * speedMultiplier CONFIG ->
       carryingFood (fst (Ant_update a w)) = granted /\
       (0 < granted -> state (fst (Ant_update a w)) = returning) /\
       (0 < granted ->
        let landing := position (move (fst (searchForFood a w))) in
        10 <= vx landing -> vx landing <= width w - 10 ->
        10 <= vy landing -> vy landing <= height w - 10 ->
        direction (fst (Ant_update a w)) = bearing_to_nest a /\
        position (fst (Ant_update a w)) = landing)).
Proof.
  intros Hin Hc.
  destruct (canAntCollectFood_from_exists 0 (foodManager w) (position a) f Hin Hc)
    as (i & src & Hsel).
  exists i, src.
  destruct (canAntCollectFood_from_Some _ _ _ _ _ Hsel) as (j & Ej & Hj & Hcj & _).
  simpl in Ej. subst j.
  split; [exact Hsel|]. split; [exact Hj|]. split; [exact Hcj|].
  intros granted.
  assert (Hlen : (i < length (foodManager w))%nat)
    by (apply lookup_lt_is_Some_1; eauto).
  assert (G1 : granted <= 1).
  { unfold granted, Math_min. destruct (Qle_bool 1 (quantity src)) eqn:E;
      [apply Qle_refl|].
    apply Qlt_le_weak, Qltb_lt. unfold Qltb. now rewrite E. }
  assert (G2 : granted <= quantity src) by apply Math_min_le_r.
  assert (S1 : forall a0, position a0 = position a -> nestPosition a0 = nestPosition a ->
    carryingFood (fst (searchForFood a0 w)) = granted /\
    (exists src', foodManager (snd (searchForFood a0 w)) !! i = Some src' /\
                  quantity src' = quantity src - granted) /\
    (0 < granted ->
       state (fst (searchForFood a0 w)) = returning /\
       direction (fst (searchForFood a0 w)) = bearing_to_nest a)).
  { intros a0 Hpos Hnest.
    assert (Hsel0 : canAntCollectFood (foodManager w) a0 = Some (i, src))
      by (unfold canAntCollectFood; now rewrite Hpos).
    rewrite (searchForFood_collect a0 w i src Hsel0). cbv zeta. fold granted.
    assert (Hb : bearing_to_nest a0 = bearing_to_nest a)
      by (unfold bearing_to_nest; now rewrite Hpos, Hnest).
    destruct (0 <? granted) eqn:E; simpl.
    - split; [reflexivity|]. split.
      + eexists. split; [now apply list_lookup_insert_eq | reflexivity].
      + intros _. now split.
    - split; [reflexivity|]. split.
      + eexists. split; [now apply list_lookup_insert_eq | reflexivity].
      + intros Hpos'. apply Qltb_lt in Hpos'. congruence. }
  split; [exact G1|]. split; [exact G2|].
  destruct (S1 a eq_refl eq_refl) as (C1 & C2 & C3).
  split; [exact C1|]. split; [exact C2|].
  split; [apply searchForFood_keeps|]. split; [exact C3|].
  intros Hst Ha Hp He.
  set (a0 := set_energy a (energy a - ant_energyConsumption CONFIG * speedMultiplier CONFIG)).
  assert (Hupd : Ant_update a w = act a0 w).
  { unfold Ant_update. rewrite Ha, Hp. simpl. fold a0.
    destruct (Qle_bool (energy a - ant_energyConsumption CONFIG * speedMultiplier CONFIG) 0)
      eqn:E; [|reflexivity].
    apply Qle_bool_iff in E. exfalso. exact (Qlt_not_le _ _ He E). }
  rewrite Hupd.
  destruct (act_after_behave a0 w) as (_ & A2 & A3 & _).
  destruct (act_pose a0 w) as (P1 & P2).
  rewrite A2, A3, P1, P2.
  assert (Hb : behave a0 w = searchForFood a0 w)
    by (unfold behave; simpl; now rewrite Hst).
  rewrite Hb.
  destruct (S1 a0 eq_refl eq_refl) as (D1 & _ & D3).
  split; [exact D1|]. split; [intros Hg; now apply D3|].
  intros Hg landing L1 L2 L3 L4.
  destruct (searchForFood_arena a0 w) as (W1 & W2). rewrite W1, W2.
  assert (Hmove : position (move (fst (searchForFood a0 w))) = landing /\
                  direction (move (fst (searchForFood a0 w))) = bearing_to_nest a).
  { unfold landing.
    assert (Hsel0 : canAntCollectFood (foodManager w) a0 = Some (i, src)) by exact Hsel.
    rewrite (searchForFood_collect a0 w i src Hsel0),
            (searchForFood_collect a w i src Hsel).
    cbv zeta. fold granted. rewrite (proj2 (Qltb_lt _ _) Hg).
    split; reflexivity. }
  destruct Hmove as (M1 & M2).
  rewrite boundPosition_inside; rewrite ?M1; try assumption.
  now split.
Qed.

(** *** Following a trail *)

(** The new direction [d] is what the trail-following block computes from
    the readings [s]: a left turn exactly when the left reading is strictly the
    greatest, a right turn exactly when the right reading is strictly the
    greatest, and the old direction otherwise. *)
Definition steered (a : Ant) (s : Sensors) (d : Q) : Prop :=
  (forward s < left s /\ right s < left s -> d = direction a - turnSpeed a) /\
  (forward s < right s /\ left s < right s -> d = direction a + turnSpeed a) /\
  (~ (forward s < left s /\ right s < left s) ->
   ~ (forward s < right s /\ left s < right s) -> d = direction a).

(** What the ant reads from channel [ch] of the field. *)
Definition readings (a : Ant) (ch : Channel) (w : World) : Sensors :=
  Pheromone.eval
    (sensePheromone Math_cos Math_sin ch (position a) (direction a)
       (ant_sensorAngle CONFIG) (ant_sensorDistance CONFIG))
    (pheromoneSystem w).

Definition strongest (s : Sensors) : Q :=
  Math_max (Math_max (forward s) (left s)) (right s).

Lemma andb_Qltb a b c d :
  ((a <? b) && (c <? d)) = true <-> a < b /\ c < d.
Proof. rewrite andb_true_iff, !Qltb_lt. reflexivity. Qed.

Lemma steer_block a (s : Sensors) :
  steered a s
    (direction
       (if (forward s <? left s) && (right s <? left s)
        then set_direction a (direction a - turnSpeed a)
        else if (forward s <? right s) && (left s <? right s)
             then set_direction a (direction a + turnSpeed a)
             else a)).
Proof.
  unfold steered.
  destruct ((forward s <? left s) && (right s <? left s)) eqn:EL;
    destruct ((forward s <? right s) && (left s <? right s)) eqn:ER; simpl.
  - apply andb_Qltb in EL. apply andb_Qltb in ER.
    destruct EL as [_ E1]. destruct ER as [_ E2].
    exfalso. exact (Qlt_irrefl _ (Qlt_trans _ _ _ E1 E2)).
  - split; [reflexivity|]. split.
    + intros H. apply andb_Qltb in H. congruence.
    + intros H. exfalso. apply H. now apply andb_Qltb.
  - split; [|split; [reflexivity|]].
    + intros H. apply andb_Qltb in H. congruence.
    + intros _ H. exfalso. apply H. now apply andb_Qltb.
  - split; [|split; [|reflexivity]].
    + intros H. apply andb_Qltb in H. congruence.
    + intros H. apply andb_Qltb in H. congruence.
Qed.

Lemma readings_sense a ch w :
  fst (sense a ch w) = readings a ch w /\
  random (snd (sense a ch w)) = random w /\
  fieldLog (snd (sense a ch w)) = fieldLog w ++ [Sense (id a) ch].
Proof.
  unfold sense, readings, Pheromone.eval, Pheromone.run.
  destruct (sensePheromone _ _ _ _ _ _ _ _) as [s ps]. simpl. auto.
Qed.

(** C8.  With no obstacle to avoid, in the trail-following branch: a
    searching ant reads the "to food" channel and a returning ant the "to
    nest" channel, and when the strongest of the three readings is above the
    fade threshold the direction is changed as [steered] says: left turn only
    for a strictly greatest left reading, right turn only for a strictly
    greatest right reading, unchanged otherwise. *)
Theorem trail_following_turns_to_strict_maximum a w :
  calculateAvoidanceForce (obstacleManager w) a = None ->
  (canAntCollectFood (foodManager w) a = None ->
   ~ draws (random w) (cursor (random w)) < explorationRate a ->
   pheromoneFadeThreshold CONFIG < strongest (readings a ToFood w) ->
   steered a (readings a ToFood w) (direction (fst (searchForFood a w))) /\
   fieldLog (snd (searchForFood a w)) = fieldLog w ++ [Sense (id a) ToFood]) /\
  (Nest_contains (nest w) (position a) = false ->
   ~ Vector_magnitude (Vector_subtract (nestPosition a) (position a))
       < nest_size CONFIG * 2 ->
   ~ draws (random w) (cursor (random w)) < ant_returnHomeBias CONFIG ->
   pheromoneFadeThreshold CONFIG < strongest (readings a ToNest w) ->
   steered a (readings a ToNest w) (direction (fst (returnToNest a w))) /\
   fieldLog (snd (returnToNest a w)) = fieldLog w ++ [Sense (id a) ToNest]).
Proof.
  intros Hav. split.
  - intros Hfood Hdraw Hmax.
    unfold searchForFood. rewrite Hfood, Hav.
    destruct (readings_sense a ToFood w) as (R1 & R2 & R3).
    destruct (sense a ToFood w) as [s w1]. simpl in R1, R2, R3. subst s.
    unfold Math_random. rewrite R2. cbv zeta.
    rewrite (not_lt_Qltb _ _ Hdraw).
    unfold strongest in Hmax. rewrite (proj2 (Qltb_lt _ _) Hmax).
    split.
    + pose proof (steer_block a (readings a ToFood w)) as Hs.
      destruct ((forward _ <? left _) && (right _ <? left _));
        [|destruct ((forward _ <? right _) && (left _ <? right _))]; exact Hs.
    + destruct ((forward _ <? left _) && (right _ <? left _));
        [|destruct ((forward _ <? right _) && (left _ <? right _))]; exact R3.
  - intros Hnest Hfar Hdraw Hmax.
    unfold returnToNest. rewrite Hnest, Hav.
    destruct (readings_sense a ToNest w) as (R1 & R2 & R3).
    destruct (sense a ToNest w) as [s w1]. simpl in R1, R2, R3. subst s.
    cbv zeta. unfold Vector_subtract in Hfar. simpl in Hfar.
    rewrite (not_lt_Qltb _ _ Hfar).
    unfold Math_random. rewrite R2. cbv zeta.
    rewrite (not_lt_Qltb _ _ Hdraw).
    unfold strongest in Hmax. rewrite (proj2 (Qltb_lt _ _) Hmax).
    split.
    + pose proof (steer_block a (readings a ToNest w)) as Hs.
      destruct ((forward _ <? left _) && (right _ <? left _));
        [|destruct ((forward _ <? right _) && (left _ <? right _))]; exact Hs.
    + destruct ((forward _ <? left _) && (right _ <? left _));
        [|destruct ((forward _ <? right _) && (left _ <? right _))]; exact R3.
Qed.

(** *** The trace of field accesses *)

(** The event is an access by ant [i]. *)
Definition by_ant (i : nat) (e : FieldEvent) : Prop :=
  match e with
  | Sense j _ | Deposit j _ => j = i
  | Advance => False
  end.

(** [w'] has the trace of [w] followed by accesses of ant [i]. *)
Definition extends_by (i : nat) (w w' : World) : Prop :=
  exists evs, fieldLog w' = fieldLog w ++ evs /\ Forall (by_ant i) evs.

Lemma extends_by_refl i w w' : fieldLog w' = fieldLog w -> extends_by i w w'.
Proof. intros E. exists []. split; [now rewrite app_nil_r | constructor]. Qed.

Lemma extends_by_one i w w' e :
  fieldLog w' = fieldLog w ++ [e] -> by_ant i e -> extends_by i w w'.
Proof. intros E H. exists [e]. split; [exact E | now repeat constructor]. Qed.

Lemma extends_by_trans i w1 w2 w3 :
  extends_by i w1 w2 -> extends_by i w2 w3 -> extends_by i w1 w3.
Proof.
  intros (e1 & E1 & F1) (e2 & E2 & F2). exists (e1 ++ e2). split.
  - now rewrite E2, E1, app_assoc.
  - now apply Forall_app.
Qed.

Ltac log_leaf :=
  simpl;
  first [ apply extends_by_refl; reflexivity
        | eapply extends_by_one; [reflexivity | reflexivity] ].

Lemma searchForFood_log a w : extends_by (id a) w (snd (searchForFood a w)).
Proof.
  unfold searchForFood.
  destruct (canAntCollectFood (foodManager w) a) as [[i src]|].
  - unfold Food_take, skip_random. cbv zeta. break_match; log_leaf.
  - destruct (calculateAvoidanceForce (obstacleManager w) a); [log_leaf|].
    destruct (readings_sense a ToFood w) as (_ & _ & R).
    destruct (sense a ToFood w) as [s w0]. simpl in R.
    unfold Math_random. cbv zeta.
    break_match; (eapply extends_by_one; [simpl; exact R | reflexivity]).
Qed.

Lemma returnToNest_log a w : extends_by (id a) w (snd (returnToNest a w)).
Proof.
  unfold returnToNest.
  destruct (Nest_contains (nest w) (position a)).
  - unfold skip_random, Math_random. cbv zeta. log_leaf.
  - destruct (calculateAvoidanceForce (obstacleManager w) a); [log_leaf|].
    destruct (readings_sense a ToNest w) as (_ & _ & R).
    destruct (sense a ToNest w) as [s w0]. simpl in R.
    unfold Math_random. cbv zeta.
    break_match; (eapply extends_by_one; [simpl; exact R | reflexivity]).
Qed.

Lemma depositPheromones_log a w : extends_by (id a) w (snd (depositPheromones a w)).
Proof.
  unfold depositPheromones, deposit_at. cbv zeta.
  break_match; log_leaf.
Qed.

Lemma act_log a w : extends_by (id a) w (snd (act a w)).
Proof.
  rewrite act_unfold. cbv zeta. simpl snd.
  apply extends_by_trans with (snd (behave a w)).
  - unfold behave. destruct (state a);
      [apply searchForFood_log | apply returnToNest_log].
  - pose proof (depositPheromones_log
                  (boundPosition (move (fst (behave a w)))
                     (width (snd (behave a w))) (height (snd (behave a w))))
                  (snd (behave a w))) as H.
    destruct (boundPosition_keeps (move (fst (behave a w)))
                (width (snd (behave a w))) (height (snd (behave a w)))) as (B & _).
    rewrite B in H. unfold move in H. cbv zeta in H. simpl id in H.
    now rewrite behave_id in H.
Qed.

Lemma Ant_update_log a w : extends_by (id a) w (snd (Ant_update a w)).
Proof.
  unfold Ant_update. cbv zeta.
  destruct (negb (isAlive a) || paused CONFIG); [now apply extends_by_refl|].
  destruct (Qle_bool _ 0); [now apply extends_by_refl|].
  apply (act_log (set_energy a _) w).
Qed.

(** The event is an access by one of the ants in [l]. *)
Definition by_ants (l : list Ant) (e : FieldEvent) : Prop :=
  exists a, a ∈ l /\ by_ant (id a) e.

Lemma update_ants_log l w :
  exists evs, fieldLog (snd (update_ants l w)) = fieldLog w ++ evs /\
              Forall (by_ants l) evs.
Proof.
  revert w. induction l as [|a l IH]; intros w; simpl.
  - exists []. split; [now rewrite app_nil_r | constructor].
  - destruct (Ant_update_log a w) as (e1 & E1 & F1).
    destruct (Ant_update a w) as [a' w1]. simpl in E1.
    destruct (IH w1) as (e2 & E2 & F2).
    destruct (update_ants l w1) as [l' w2]. simpl in *.
    exists (e1 ++ e2). split; [now rewrite E2, E1, app_assoc|].
    apply Forall_app. split.
    + eapply Forall_impl; [exact F1|]. intros e He. exists a. split; [left|exact He].
    + eapply Forall_impl; [exact F2|]. intros e (b & Hb & He).
      exists b. split; [now right|exact He].
Qed.

Lemma AntColony_update_log c w :
  exists evs, fieldLog (snd (AntColony_update c w)) = fieldLog w ++ evs /\
              Forall (by_ants (ants c)) evs.
Proof.
  unfold AntColony_update.
  destruct (paused CONFIG).
  { exists []. split; [now rewrite app_nil_r | constructor]. }
  destruct (update_ants_log (ants c) w) as (evs & E & F).
  destruct (update_ants (ants c) w) as [updated w1]. simpl in E.
  exists evs. split; [|exact F]. rewrite <- E.
  cbv zeta. unfold Math_random, addAnt, Ant_new, Math_random. cbv zeta.
  break_match; reflexivity.
Qed.

(** C1 (amended).  A step of an initialised, running simulation advances the
    pheromone field exactly once, before every sensing and deposition of that
    step: the trace of the step is [Advance] followed by accesses of the
    colony's ants only.  The ants therefore read and write the field the pass
    has already produced.  A paused or uninitialised step changes nothing. *)
Theorem field_advances_once_before_agents s :
  (initialized s = false \/ paused CONFIG = true -> Simulation_update s = s) /\
  (initialized s = true -> paused CONFIG = false ->
   exists evs,
     fieldLog (world (Simulation_update s)) = fieldLog (world s) ++ Advance :: evs /\
     Forall (by_ants (ants (antColony s))) evs /\
     Forall (fun e => e <> Advance) evs).
Proof.
  split.
  - intros [H|H]; unfold Simulation_update; rewrite H; simpl; [reflexivity|].
    now destruct (initialized s).
  - intros Hi Hp. unfold Simulation_update. rewrite Hi, Hp. cbv zeta. simpl negb.
    cbv iota.
    set (w1 := advance_field _).
    destruct (AntColony_update_log (antColony s) w1) as (evs & E & F).
    destruct (AntColony_update (antColony s) w1) as [c w2]. simpl in E. simpl world.
    exists evs. split; [|split; [exact F|]].
    + rewrite E. unfold w1, advance_field. simpl.
      now rewrite <- app_assoc.
    + eapply Forall_impl; [exact F|].
      intros e (a & _ & He) ->. exact He.
Qed.

End WithMath.

(** *** A concrete arena *)

(** Rational stand-ins for the library functions, precise enough to place
    sensor points in the right cells.  Every theorem above holds for any
    choice of [MathLib]. *)
Definition approx_PI : Q := 355 # 113.
Definition approx_cos (x : Q) : Q := 1 - x * x / 2 + x * x * x * x / 24.
Definition approx_sin (x : Q) : Q := x - x * x * x / 6 + x * x * x * x * x / 120.
Definition approx_sqrt (x : Q) : Q :=
  let newton y := Qred ((y + x / y) / 2) in
  newton (newton (newton (newton ((1 + x) / 2)))).
Definition approx_atan (z : Q) : Q :=
  if Qle_bool (Math_abs z) 1 then z / (1 + (28 # 100) * z * z)
  else Math_sign z * approx_PI / 2 - z / (z * z + (28 # 100)).
Definition approx_atan2 (y x : Q) : Q :=
  if 0 <? x then approx_atan (y / x)
  else if x <? 0 then
    (if y <? 0 then approx_atan (y / x) - approx_PI
     else approx_atan (y / x) + approx_PI)
  else Math_sign y * approx_PI / 2.

Definition approx : MathLib :=
  mkMath approx_cos approx_sin approx_sqrt approx_atan2 approx_PI.

(** A 100 x 100 arena: 20 x 20 pheromone cells, the nest in the middle, no
    obstacles, every random draw 1/2. *)
Definition arena : PheromoneSystem := Pheromone.new 100 100 5.
Definition home : Nest := mkNest (mkVec 50 50) 30 0.
Definition coin : Rng := mkRng (fun _ => 1 # 2) 0.

Definition arena_world (foods : list Food) (ps : PheromoneSystem) : World :=
  mkWorld 100 100 home foods [] ps coin [].

(** A searching ant of the shipped CONFIG heading east. *)
Definition scout (ident : nat) (pos : Vec) (e : Q) (sinceDeposit : nat) : Ant :=
  mkAnt ident (mkVec 50 50) pos 0 2 (15 # 100) 0 searching e true
        [] 100 sinceDeposit 2 (1 # 10).

(** One ant at the nest, due to deposit on this tick, on an empty field. *)
Definition one_ant_simulation : Simulation :=
  mkSim true 0
        (mkColony (mkVec 50 50) [scout 0 (mkVec 50 50) 100 1] 1)
        (arena_world [] arena).

(** The order the specification asks for, in its words: within a step all
    agents sense and deposit, and only then the field is advanced, once. *)
Definition advance_after_agents (evs : list FieldEvent) : Prop :=
  exists pre, evs = pre ++ [Advance] /\ Forall (fun e => e <> Advance) pre.

(** C1, as stated, fails: in a step of the one-ant simulation the pass runs
    first and the ant senses and deposits afterwards; the 100 units the ant
    deposits in this step are still 100 at the end of the step. *)
Lemma field_advance_precedes_agents :
  initialized one_ant_simulation = true /\
  paused shipped = false /\
  fieldLog (world one_ant_simulation) = [] /\
  fieldLog (world (Simulation_update approx shipped one_ant_simulation))
    = [Advance; Sense 0 ToFood; Deposit 0 ToNest] /\
  ~ advance_after_agents
      (fieldLog (world (Simulation_update approx shipped one_ant_simulation))) /\
  toNestGrid (pheromoneSystem (world (Simulation_update approx shipped one_ant_simulation)))
    !! 210%nat = Some 100.
Proof.
  assert (E : fieldLog (world (Simulation_update approx shipped one_ant_simulation))
              = [Advance; Sense 0 ToFood; Deposit 0 ToNest])
    by (vm_compute; reflexivity).
  split; [reflexivity|]. split; [reflexivity|]. split; [reflexivity|].
  split; [exact E|]. split; [|vm_compute; reflexivity].
  rewrite E. intros (pre & Hpre & _).
  destruct pre as [|e1 [|e2 [|e3 [|e4 pre]]]]; simpl in Hpre; congruence.
Qed.

Lemma field_advances_once_before_agents_witness :
  exists evs,
    fieldLog (world (Simulation_update approx shipped one_ant_simulation))
      = fieldLog (world one_ant_simulation) ++ Advance :: evs /\
    Forall (by_ants (ants (antColony one_ant_simulation))) evs /\
    Forall (fun e => e <> Advance) evs.
Proof.
  exact (proj2 (field_advances_once_before_agents approx shipped one_ant_simulation)
               eq_refl eq_refl).
Defined.

(** An ant whose energy is exactly the per-tick consumption 0.05. *)
Definition tired : Ant := scout 0 (mkVec 50 50) (5 # 100) 0.
Definition tired_colony : AntColony := mkColony (mkVec 50 50) [tired] 1.

Lemma exhausted_ant_dies_and_is_removed_witness :
  Ant_update approx shipped tired (arena_world [] arena)
    = (starved shipped tired, arena_world [] arena) /\
  Forall (fun x => id x <> id tired)
         (ants (fst (AntColony_update approx shipped tired_colony (arena_world [] arena)))).
Proof.
  destruct (exhausted_ant_dies_and_is_removed approx shipped tired_colony
              (arena_world [] arena) tired [] [])
    as (Hupd & _ & _ & _ & Hgone).
  - reflexivity.
  - reflexivity.
  - reflexivity.
  - reflexivity.
  - reflexivity.
  - simpl. apply NoDup_cons_2; [intros H; inversion H | apply NoDup_nil_2].
  - intros x Hx. simpl in Hx. inversion Hx as [|? ? ? Hnil]; subst; simpl.
    + apply Nat.lt_0_1.
    + inversion Hnil.
  - split; [apply Hupd | apply Forall_forall; exact Hgone].
Defined.

(** A nearly exhausted food source (half a unit left) 4 pixels east of a
    searching ant. *)
Definition crumb : Food := mkFood (mkVec 56 50) (1 # 2) 100 4 false 10.
Definition forager : Ant := scout 0 (mkVec 52 50) 100 0.
Definition crumb_world : World := arena_world [crumb] arena.

Lemma collecting_ant_turns_home_witness :
  carryingFood (fst (Ant_update approx shipped forager crumb_world)) = Math_min 1 (1 # 2) /\
  state (fst (Ant_update approx shipped forager crumb_world)) = returning.
Proof.
  destruct (collecting_ant_turns_home approx shipped forager crumb_world crumb)
    as (i & src & Hsel & _ & _ & _ & _ & _ & _ & _ & _ & Htick).
  - left.
  - vm_compute. reflexivity.
  - vm_compute in Hsel. injection Hsel as <- <-.
    destruct Htick as [Hc Hs].
    + reflexivity.
    + reflexivity.
    + reflexivity.
    + vm_compute. reflexivity.
    + split; [exact Hc|]. apply Hs. vm_compute. reflexivity.
Defined.

(** The arena with 50 units of "to food" pheromone in the cell under the
    left sensor of an ant at the nest heading east. *)
Definition scented : PheromoneSystem :=
  set_grid ToFood (<[ 152%nat := 50 ]> (toFoodGrid arena)) arena.
Definition tracker : Ant := scout 0 (mkVec 50 50) 100 0.

Lemma trail_following_turns_to_strict_maximum_witness :
  direction (fst (searchForFood approx shipped tracker (arena_world [] scented)))
    = direction tracker - turnSpeed tracker.
Proof.
  destruct (proj1 (trail_following_turns_to_strict_maximum approx shipped tracker
                     (arena_world [] scented) eq_refl)) as [(Hleft & _) _].
  - reflexivity.
  - intros H. vm_compute in H. discriminate.
  - vm_compute. reflexivity.
  - apply Hleft. split; vm_compute; reflexivity.
Defined.

(** *** Food accounts *)

(** Food lying in the sources, food an ant carries, and both together with
    the food stored in the nest. *)
Definition on_ground (w : World) : Q := total (map quantity (foodManager w)).
Definition food_in_play (a : Ant) (w : World) : Q :=
  on_ground w + carryingFood a + foodStored (nest w).

(** An ant carries a non-negative amount, and nothing while it searches. *)
Definition tidy (a : Ant) : Prop :=
  0 <= carryingFood a /\ (state a = searching -> carryingFood a == 0).

(** No food source holds a negative quantity. *)
Definition stocked (w : World) : Prop :=
  Forall (fun f => 0 <= quantity f) (foodManager w).

Definition carried (l : list Ant) : Q := total (map carryingFood l).
Definition colony_food (c : AntColony) (w : World) : Q :=
  on_ground w + carried (ants c) + foodStored (nest w).

Ltac break_match :=
  repeat match goal with
         | |- context [match ?x with _ => _ end] => destruct x eqn:?
         end.

Section FoodAccounts.

Variable Math : MathLib.
Variable CONFIG : Config.

Lemma on_ground_insert w i src f' :
  foodManager w !! i = Some src ->
  on_ground (set_foods w (<[ i := f' ]> (foodManager w)))
    == on_ground w - quantity src + quantity f'.
Proof.
  intros H. unfold on_ground. cbn [foodManager set_foods].
  rewrite list_fmap_insert. apply total_insert.
  now rewrite list_lookup_fmap, H.
Qed.

Lemma Math_min_1_bounds q :
  0 <= q -> 0 <= Math_min 1 q /\ Math_min 1 q <= q /\ Math_min 1 q <= 1.
Proof.
  intros Hq. unfold Math_min. destruct (Qle_bool 1 q) eqn:E.
  - apply Qle_bool_iff in E. repeat split; lra.
  - assert (~ 1 <= q) by (intros H; apply Qle_bool_iff in H; congruence).
    repeat split; lra.
Qed.

Lemma sense_stock a ch w :
  foodManager (snd (sense Math CONFIG a ch w)) = foodManager w /\
  nest (snd (sense Math CONFIG a ch w)) = nest w.
Proof.
  unfold sense. destruct (Pheromone.run _ _) as [s ps]. simpl. auto.
Qed.

Lemma searchForFood_idle a w :
  canAntCollectFood Math CONFIG (foodManager w) a = None ->
  carryingFood (fst (searchForFood Math CONFIG a w)) = carryingFood a /\
  state (fst (searchForFood Math CONFIG a w)) = state a /\
  foodManager (snd (searchForFood Math CONFIG a w)) = foodManager w /\
  nest (snd (searchForFood Math CONFIG a w)) = nest w.
Proof.
  intros H. unfold searchForFood. rewrite H.
  destruct (calculateAvoidanceForce Math CONFIG (obstacleManager w) a); [simpl; auto|].
  destruct (sense_stock a ToFood w) as (E1 & E2).
  destruct (sense Math CONFIG a ToFood w) as [s w0]. simpl in E1, E2.
  unfold Math_random. cbv zeta. break_match; simpl; auto.
Qed.

Lemma returnToNest_away a w :
  Nest_contains Math (nest w) (position a) = false ->
  carryingFood (fst (returnToNest Math CONFIG a w)) = carryingFood a /\
  state (fst (returnToNest Math CONFIG a w)) = state a /\
  foodManager (snd (returnToNest Math CONFIG a w)) = foodManager w /\
  nest (snd (returnToNest Math CONFIG a w)) = nest w.
Proof.
  intros H. unfold returnToNest. rewrite H.
  destruct (calculateAvoidanceForce Math CONFIG (obstacleManager w) a); [simpl; auto|].
  destruct (sense_stock a ToNest w) as (E1 & E2).
  destruct (sense Math CONFIG a ToNest w) as [s w0]. simpl in E1, E2.
  unfold Math_random. cbv zeta. break_match; simpl; auto.
Qed.

(** At the nest: everything carried is stored. *)
Lemma returnToNest_home a w :
  Nest_contains Math (nest w) (position a) = true ->
  carryingFood (fst (returnToNest Math CONFIG a w)) = 0 /\
  state (fst (returnToNest Math CONFIG a w)) = searching /\
  energy (fst (returnToNest Math CONFIG a w)) = ant_energyCapacity CONFIG /\
  foodManager (snd (returnToNest Math CONFIG a w)) = foodManager w /\
  nest (snd (returnToNest Math CONFIG a w)) = Nest_storeFood (nest w) (carryingFood a).
Proof.
  intros H. unfold returnToNest. rewrite H.
  unfold skip_random, Math_random. cbv zeta. simpl. auto.
Qed.

Lemma unchanged_food a w a' w' :
  carryingFood a' = carryingFood a -> state a' = state a ->
  foodManager w' = foodManager w -> nest w' = nest w ->
  tidy a -> stocked w ->
  food_in_play a' w' == food_in_play a w /\ tidy a' /\ stocked w'.
Proof.
  intros E1 E2 E3 E4 Ht Hs. unfold food_in_play, on_ground, tidy, stocked in *.
  rewrite E1, E2, E3, E4. split; [reflexivity | split; assumption].
Qed.

Lemma searchForFood_food a w :
  tidy a -> stocked w -> state a = searching ->
  food_in_play (fst (searchForFood Math CONFIG a w)) (snd (searchForFood Math CONFIG a w))
    == food_in_play a w /\
  tidy (fst (searchForFood Math CONFIG a w)) /\
  stocked (snd (searchForFood Math CONFIG a w)).
Proof.
  intros Ht Hs Hst.
  destruct (canAntCollectFood Math CONFIG (foodManager w) a) as [[i src]|] eqn:Hc.
  - pose proof Hc as Hc'. unfold canAntCollectFood in Hc'.
    apply canAntCollectFood_from_Some in Hc'.
    destruct Hc' as (j & -> & Hj & _). simpl in Hj.
    assert (Hq : 0 <= quantity src).
    { unfold stocked in Hs. rewrite Forall_forall in Hs. apply Hs.
      now apply list_elem_of_lookup_2 in Hj. }
    destruct (Math_min_1_bounds _ Hq) as (G0 & G1 & _).
    destruct Ht as [_ Hz]. specialize (Hz Hst).
    pose proof (on_ground_insert w (0 + j) src (snd (Food_take Math src 1)) Hj) as Hg.
    change (quantity (snd (Food_take Math src 1)))
      with (quantity src - Math_min 1 (quantity src)) in Hg.
    assert (Hs' : stocked (set_foods w (<[ (0 + j)%nat := snd (Food_take Math src 1) ]>
                                          (foodManager w)))).
    { unfold stocked. cbn [foodManager set_foods]. apply Forall_insert; [exact Hs|].
      change (quantity (snd (Food_take Math src 1)))
        with (quantity src - Math_min 1 (quantity src)). lra. }
    rewrite (searchForFood_collect Math CONFIG a w _ src Hc). cbv zeta.
    destruct (0 <? Math_min 1 (quantity src)) eqn:Eg; cbn [fst snd].
    + split; [|split].
      * unfold food_in_play in *. unfold on_ground in *.
        cbn [carryingFood set_direction set_state set_carryingFood nest foodManager
             skip_random set_random set_foods] in *.
        rewrite Hg, Hz. ring.
      * split; [exact G0 | discriminate].
      * exact Hs'.
    + apply Qltb_ge in Eg. split; [|split].
      * unfold food_in_play in *. unfold on_ground in *.
        cbn [carryingFood set_carryingFood nest foodManager set_foods] in *.
        rewrite Hg, Hz. ring.
      * split; [exact G0|]. intros _. cbn [carryingFood set_carryingFood].
        apply Qle_antisym; assumption.
      * exact Hs'.
  - destruct (searchForFood_idle a w Hc) as (E1 & E2 & E3 & E4).
    now apply unchanged_food.
Qed.

Lemma returnToNest_food a w :
  tidy a -> stocked w ->
  food_in_play (fst (returnToNest Math CONFIG a w)) (snd (returnToNest Math CONFIG a w))
    == food_in_play a w /\
  tidy (fst (returnToNest Math CONFIG a w)) /\
  stocked (snd (returnToNest Math CONFIG a w)).
Proof.
  intros Ht Hs.
  destruct (Nest_contains Math (nest w) (position a)) eqn:Hn.
  - destruct (returnToNest_home a w Hn) as (E1 & E2 & _ & E3 & E4).
    unfold food_in_play, on_ground, tidy, stocked in *.
    rewrite E1, E3, E4. cbn [foodStored Nest_storeFood]. split; [ring|].
    split; [|exact Hs]. split; [lra | reflexivity].
  - destruct (returnToNest_away a w Hn) as (E1 & E2 & E3 & E4).
    now apply unchanged_food.
Qed.

Lemma behave_food a w :
  tidy a -> stocked w ->
  food_in_play (fst (behave Math CONFIG a w)) (snd (behave Math CONFIG a w))
    == food_in_play a w /\
  tidy (fst (behave Math CONFIG a w)) /\ stocked (snd (behave Math CONFIG a w)).
Proof.
  intros Ht Hs. unfold behave. destruct (state a) eqn:Hst.
  - now apply searchForFood_food.
  - now apply returnToNest_food.
Qed.

Lemma depositPheromones_stock a w :
  foodManager (snd (depositPheromones CONFIG a w)) = foodManager w /\
  nest (snd (depositPheromones CONFIG a w)) = nest w.
Proof. unfold depositPheromones, deposit_at. cbv zeta. break_match; simpl; auto. Qed.

Lemma act_stock a w :
  foodManager (snd (act Math CONFIG a w)) = foodManager (snd (behave Math CONFIG a w)) /\
  nest (snd (act Math CONFIG a w)) = nest (snd (behave Math CONFIG a w)).
Proof. rewrite act_unfold. cbv zeta. cbn [snd]. apply depositPheromones_stock. Qed.

Lemma act_food a w :
  tidy a -> stocked w ->
  food_in_play (fst (act Math CONFIG a w)) (snd (act Math CONFIG a w))
    == food_in_play a w /\
  tidy (fst (act Math CONFIG a w)) /\ stocked (snd (act Math CONFIG a w)).
Proof.
  intros Ht Hs.
  destruct (behave_food a w Ht Hs) as (B1 & B2 & B3).
  destruct (act_after_behave Math CONFIG a w) as (_ & E2 & E1 & _).
  destruct (act_stock a w) as (E3 & E4).
  destruct (unchanged_food _ _ _ _ E1 E2 E3 E4 B2 B3) as (U1 & U2 & U3).
  split; [now rewrite U1 | split; assumption].
Qed.

(** The three ways [Ant.update] ends: at once (dead or paused), with the
    death of the ant, or with the ant acting on what energy it has left. *)
Lemma Ant_update_cases a w :
  let a0 := set_energy a (energy a - ant_energyConsumption CONFIG * speedMultiplier CONFIG) in
  Ant_update Math CONFIG a w = (a, w) \/
  Ant_update Math CONFIG a w = (set_isAlive a0 false, w) \/
  Ant_update Math CONFIG a w = act Math CONFIG a0 w.
Proof.
  cbv zeta. unfold Ant_update.
  destruct (negb (isAlive a) || paused CONFIG); [now left|].
  cbv zeta. destruct (Qle_bool _ 0); [right; now left | right; now right].
Qed.

(** X15.  An ant neither creates nor destroys food.  While no source holds a
    negative quantity and the ant carries nothing when it searches, one
    [Ant.update] leaves the sum of the food in the sources, the food the ant
    carries and the food stored in the nest unchanged, and both conditions
    hold again afterwards. *)
Theorem ant_conserves_food a w :
  tidy a -> stocked w ->
  food_in_play (fst (Ant_update Math CONFIG a w)) (snd (Ant_update Math CONFIG a w))
    == food_in_play a w /\
  tidy (fst (Ant_update Math CONFIG a w)) /\
  stocked (snd (Ant_update Math CONFIG a w)).
Proof.
  intros Ht Hs.
  destruct (Ant_update_cases a w) as [E|[E|E]]; rewrite E.
  - split; [reflexivity | split; assumption].
  - cbn [fst snd]. split; [reflexivity | split; assumption].
  - destruct (act_food (set_energy a (energy a - ant_energyConsumption CONFIG *
                                                 speedMultiplier CONFIG)) w Ht Hs)
      as (A1 & A2 & A3).
    split; [exact A1 | split; assumption].
Qed.

End FoodAccounts.

Lemma ant_conserves_food_witness :
  food_in_play (fst (Ant_update approx shipped forager crumb_world))
               (snd (Ant_update approx shipped forager crumb_world))
    == food_in_play forager crumb_world.
Proof.
  refine (proj1 (ant_conserves_food approx shipped forager crumb_world _ _)).
  - split; [vm_compute; discriminate | intros _; reflexivity].
  - repeat constructor. vm_compute. discriminate.
Defined.

(** The ants a tick removes from the colony. *)
Definition casualties (l : list Ant) : list Ant :=
  List.filter (fun a => negb (isAlive a)) l.

Section ColonyAccounts.

Variable Math : MathLib.
Variable CONFIG : Config.

Lemma carried_app l1 l2 : carried (l1 ++ l2) == carried l1 + carried l2.
Proof.
  unfold carried. induction l1 as [|a l1 IH]; simpl; [ring|].
  rewrite IH. ring.
Qed.

Lemma carried_one a : carried [a] == carryingFood a.
Proof. unfold carried. simpl. ring. Qed.

Lemma carried_nonneg l : Forall tidy l -> 0 <= carried l.
Proof.
  unfold carried. induction 1 as [|a l [Ha _] _ IH]; simpl; [lra|]. lra.
Qed.

Lemma carried_survivors l :
  carried (List.filter isAlive l) == carried l - carried (casualties l).
Proof.
  unfold carried, casualties. induction l as [|a l IH]; simpl; [ring|].
  destruct (isAlive a); simpl; rewrite IH; ring.
Qed.

Lemma Forall_filter_keep {A} (P : A -> Prop) (f : A -> bool) l :
  Forall P l -> Forall P (List.filter f l).
Proof.
  induction 1 as [|a l Ha _ IH]; simpl; [constructor|].
  destruct (f a); [constructor|]; assumption.
Qed.

Lemma update_ants_food l w :
  Forall tidy l -> stocked w ->
  on_ground (snd (update_ants Math CONFIG l w))
    + carried (fst (update_ants Math CONFIG l w))
    + foodStored (nest (snd (update_ants Math CONFIG l w)))
    == on_ground w + carried l + foodStored (nest w) /\
  Forall tidy (fst (update_ants Math CONFIG l w)) /\
  stocked (snd (update_ants Math CONFIG l w)).
Proof.
  intros Hl. revert w. induction Hl as [|a l Ha Hl IH]; intros w Hs.
  - simpl. split; [reflexivity | split; [constructor | exact Hs]].
  - simpl.
    assert (A : on_ground (snd (Ant_update Math CONFIG a w))
                  + carryingFood (fst (Ant_update Math CONFIG a w))
                  + foodStored (nest (snd (Ant_update Math CONFIG a w)))
                == on_ground w + carryingFood a + foodStored (nest w) /\
                tidy (fst (Ant_update Math CONFIG a w)) /\
                stocked (snd (Ant_update Math CONFIG a w))).
    { destruct (Ant_update_cases Math CONFIG a w) as [E|[E|E]]; rewrite E;
        [split; [reflexivity | split; assumption]..|].
      apply (act_food Math CONFIG (set_energy a _) w Ha Hs). }
    destruct A as (A1 & A2 & A3).
    destruct (Ant_update Math CONFIG a w) as [a' w1]. cbn [fst snd] in *.
    destruct (IH w1 A3) as (I1 & I2 & I3).
    destruct (update_ants Math CONFIG l w1) as [l' w2]. cbn [fst snd] in *.
    split; [|split; [constructor; assumption | exact I3]].
    unfold carried in *. simpl. lra.
Qed.

Lemma Ant_new_fresh nestPos ident w :
  id (fst (Ant_new Math CONFIG nestPos ident w)) = ident /\
  carryingFood (fst (Ant_new Math CONFIG nestPos ident w)) = 0 /\
  state (fst (Ant_new Math CONFIG nestPos ident w)) = searching /\
  isAlive (fst (Ant_new Math CONFIG nestPos ident w)) = true /\
  foodManager (snd (Ant_new Math CONFIG nestPos ident w)) = foodManager w /\
  nest (snd (Ant_new Math CONFIG nestPos ident w)) = nest w.
Proof. unfold Ant_new, Math_random. cbv zeta. simpl. auto 10. Qed.

Lemma addAnt_fresh c w :
  ants (fst (addAnt Math CONFIG c w))
    = ants c ++ [fst (Ant_new Math CONFIG (c_nestPosition c) (antIdCounter c) w)] /\
  antIdCounter (fst (addAnt Math CONFIG c w)) = S (antIdCounter c) /\
  snd (addAnt Math CONFIG c w)
    = snd (Ant_new Math CONFIG (c_nestPosition c) (antIdCounter c) w).
Proof.
  unfold addAnt. destruct (Ant_new Math CONFIG _ _ w) as [ant w']. simpl. auto.
Qed.

(** The colony after the removal of the dead, before spawning. *)
Definition survivors (c : AntColony) (w : World) : AntColony :=
  mkColony (c_nestPosition c)
           (List.filter isAlive (fst (update_ants Math CONFIG (ants c) w)))
           (antIdCounter c).

(** [AntColony.update] keeps the survivors and spawns at most one ant, and
    the spawning touches neither the sources nor the nest. *)
Lemma AntColony_update_cases c w :
  paused CONFIG = false ->
  let w1 := snd (update_ants Math CONFIG (ants c) w) in
  (fst (AntColony_update Math CONFIG c w) = survivors c w \/
   exists w2,
     fst (AntColony_update Math CONFIG c w) = fst (addAnt Math CONFIG (survivors c w) w2) /\
     (length (ants (survivors c w)) < ant_maxCount CONFIG)%nat) /\
  foodManager (snd (AntColony_update Math CONFIG c w)) = foodManager w1 /\
  nest (snd (AntColony_update Math CONFIG c w)) = nest w1.
Proof.
  intros Hp. unfold AntColony_update, survivors. rewrite Hp.
  destruct (update_ants Math CONFIG (ants c) w) as [updated w1]. cbv zeta. cbn [fst snd ants].
  destruct (Nat.ltb_spec (length (List.filter isAlive updated)) (ant_maxCount CONFIG))
    as [Hlt|Hge]; [|cbn [fst snd]; auto].
  unfold Math_random. cbv zeta.
  destruct (_ <? _).
  - destruct (addAnt_fresh (mkColony (c_nestPosition c) (List.filter isAlive updated)
                                     (antIdCounter c))
                (set_random w1 (mkRng (draws (random w1)) (S (cursor (random w1))))))
      as (_ & _ & E).
    rewrite E.
    destruct (Ant_new_fresh (c_nestPosition c) (antIdCounter c)
                (set_random w1 (mkRng (draws (random w1)) (S (cursor (random w1))))))
      as (_ & _ & _ & _ & F1 & F2).
    cbn [c_nestPosition antIdCounter]. rewrite F1, F2. cbn [foodManager nest set_random].
    split; [|auto]. right. eexists. split; [reflexivity | exact Hlt].
  - cbn [fst snd foodManager nest set_random]. auto.
Qed.

(** X16.  The colony loses food only with its dead.  While the simulation
    runs, one [AntColony.update] lowers the sum of the food in the sources,
    the food carried by the colony's ants and the food in the nest by
    exactly what the ants it removes were carrying, which is never
    negative; so the colony never creates food. *)
Theorem colony_loses_food_only_with_its_dead c w :
  paused CONFIG = false -> Forall tidy (ants c) -> stocked w ->
  colony_food (fst (AntColony_update Math CONFIG c w)) (snd (AntColony_update Math CONFIG c w))
    == colony_food c w
       - carried (casualties (fst (update_ants Math CONFIG (ants c) w))) /\
  0 <= carried (casualties (fst (update_ants Math CONFIG (ants c) w))) /\
  Forall tidy (ants (fst (AntColony_update Math CONFIG c w))) /\
  stocked (snd (AntColony_update Math CONFIG c w)).
Proof.
  intros Hp Hl Hs.
  destruct (update_ants_food (ants c) w Hl Hs) as (U1 & U2 & U3).
  destruct (AntColony_update_cases c w Hp) as (Hc & F1 & F2).
  cbv zeta in *.
  pose proof (carried_survivors (fst (update_ants Math CONFIG (ants c) w))) as Hsv.
  assert (Hdead : 0 <= carried (casualties (fst (update_ants Math CONFIG (ants c) w)))).
  { apply carried_nonneg. now apply Forall_filter_keep. }
  assert (Hkeep : Forall tidy (ants (survivors c w))).
  { unfold survivors. cbn [ants]. now apply Forall_filter_keep. }
  assert (Hst : stocked (snd (AntColony_update Math CONFIG c w))).
  { unfold stocked in *. now rewrite F1. }
  unfold colony_food, on_ground in *. rewrite F1, F2.
  destruct Hc as [E|(w2 & E & _)]; rewrite E.
  - unfold survivors in *. cbn [ants] in *.
    split; [lra | split; [exact Hdead | split; assumption]].
  - destruct (addAnt_fresh (survivors c w) w2) as (A1 & _ & _). rewrite A1.
    destruct (Ant_new_fresh (c_nestPosition (survivors c w))
                (antIdCounter (survivors c w)) w2) as (_ & N1 & N2 & _).
    split; [|split; [exact Hdead | split; [|exact Hst]]].
    + rewrite carried_app, carried_one, N1.
      unfold survivors in *. cbn [ants] in *. lra.
    + apply Forall_app. split; [exact Hkeep|]. constructor; [|constructor].
      split; [rewrite N1; lra | intros _; rewrite N1; reflexivity].
Qed.

End ColonyAccounts.

(** A colony of two: a forager at the crumb, and an exhausted carrier. *)
Definition spent_carrier : Ant :=
  mkAnt 1 (mkVec 50 50) (mkVec 20 20) 0 2 (15 # 100) 1 returning (5 # 100) true
        [] 100 0 2 (1 # 10).
Definition mixed_colony : AntColony :=
  mkColony (mkVec 50 50) [forager; spent_carrier] 2.

Lemma colony_loses_food_only_with_its_dead_witness :
  colony_food (fst (AntColony_update approx shipped mixed_colony crumb_world))
              (snd (AntColony_update approx shipped mixed_colony crumb_world))
    == colony_food mixed_colony crumb_world
       - carried (casualties (fst (update_ants approx shipped (ants mixed_colony) crumb_world))).
Proof.
  refine (proj1 (colony_loses_food_only_with_its_dead approx shipped
                   mixed_colony crumb_world _ _ _)).
  - reflexivity.
  - repeat constructor; try (vm_compute; discriminate); discriminate.
  - repeat constructor. vm_compute. discriminate.
Defined.

(** *** Where an ant is, and what it writes *)

(** The part of the arena [boundPosition] keeps an ant in. *)
Definition inside (w : World) (p : Vec) : Prop :=
  10 <= vx p /\ vx p <= width w - 10 /\ 10 <= vy p /\ vy p <= height w - 10.

(** The channel an ant in a given state deposits to. *)
Definition written (s : AntState) : Channel :=
  match s with
  | searching => ToNest
  | returning => ToFood
  end.

Section AntFacts.

Variable Math : MathLib.
Variable CONFIG : Config.

Lemma boundPosition_bounds a wd ht :
  20 <= wd -> 20 <= ht ->
  10 <= vx (position (boundPosition Math a wd ht)) /\
  vx (position (boundPosition Math a wd ht)) <= wd - 10 /\
  10 <= vy (position (boundPosition Math a wd ht)) /\
  vy (position (boundPosition Math a wd ht)) <= ht - 10.
Proof.
  intros Hw Hh. unfold boundPosition. cbv zeta.
  destruct (vx (position a) <? 10) eqn:X1;
    [|destruct (wd - 10 <? vx (position a)) eqn:X2];
    cbn [position set_position set_direction vx vy];
    (destruct (vy (position a) <? 10) eqn:Y1;
       [|destruct (ht - 10 <? vy (position a)) eqn:Y2]);
    cbn [position set_position set_direction vx vy];
    repeat match goal with
           | H : (_ <? _) = true |- _ => apply Qltb_lt in H
           | H : (_ <? _) = false |- _ => apply Qltb_ge in H
           end;
    repeat split; lra.
Qed.

Lemma returnToNest_arena a w :
  width (snd (returnToNest Math CONFIG a w)) = width w /\
  height (snd (returnToNest Math CONFIG a w)) = height w.
Proof.
  unfold returnToNest.
  destruct (Nest_contains Math (nest w) (position a)).
  - unfold skip_random, Math_random. cbv zeta. simpl. auto.
  - destruct (calculateAvoidanceForce Math CONFIG (obstacleManager w) a); [simpl; auto|].
    destruct (sense_arena Math CONFIG a ToNest w) as (E1 & E2).
    destruct (sense Math CONFIG a ToNest w) as [s w0]. simpl in E1, E2.
    unfold Math_random. cbv zeta. break_match; simpl; auto.
Qed.

Lemma behave_arena a w :
  width (snd (behave Math CONFIG a w)) = width w /\
  height (snd (behave Math CONFIG a w)) = height w.
Proof.
  unfold behave. destruct (state a);
    [apply searchForFood_arena | apply returnToNest_arena].
Qed.

Lemma depositPheromones_arena a w :
  width (snd (depositPheromones CONFIG a w)) = width w /\
  height (snd (depositPheromones CONFIG a w)) = height w.
Proof. unfold depositPheromones, deposit_at. cbv zeta. break_match; simpl; auto. Qed.

Lemma act_arena a w :
  width (snd (act Math CONFIG a w)) = width w /\
  height (snd (act Math CONFIG a w)) = height w.
Proof.
  rewrite act_unfold. cbv zeta. cbn [snd].
  destruct (depositPheromones_arena
              (boundPosition Math (move Math CONFIG (fst (behave Math CONFIG a w)))
                 (width (snd (behave Math CONFIG a w)))
                 (height (snd (behave Math CONFIG a w))))
              (snd (behave Math CONFIG a w))) as (D1 & D2).
  destruct (behave_arena a w) as (B1 & B2).
  rewrite D1, D2. auto.
Qed.

Lemma act_inside a w :
  20 <= width w -> 20 <= height w -> inside w (position (fst (act Math CONFIG a w))).
Proof.
  intros Hw Hh. destruct (act_pose Math CONFIG a w) as (_ & E). cbv zeta in E.
  rewrite E. destruct (behave_arena a w) as (B1 & B2). rewrite B1, B2.
  unfold inside. now apply boundPosition_bounds.
Qed.

(** X17.  Ants stay in the arena.  In an arena at least 20 wide and 20 high,
    an ant that [Ant.update] moves (alive, simulation running, energy left
    after this tick's consumption) ends at least 10 from every edge; an ant
    it does not move stays where it is; and the update never changes the
    size of the arena. *)
Theorem ant_stays_in_arena a w :
  20 <= width w -> 20 <= height w ->
  (isAlive a = true -> paused CONFIG = false ->
   0 < energy a - ant_energyConsumption CONFIG * speedMultiplier CONFIG ->
   inside w (position (fst (Ant_update Math CONFIG a w)))) /\
  (inside w (position a) -> inside w (position (fst (Ant_update Math CONFIG a w)))) /\
  width (snd (Ant_update Math CONFIG a w)) = width w /\
  height (snd (Ant_update Math CONFIG a w)) = height w.
Proof.
  intros Hw Hh.
  set (a0 := set_energy a (energy a - ant_energyConsumption CONFIG * speedMultiplier CONFIG)).
  pose proof (act_inside a0 w Hw Hh) as Hin.
  destruct (act_arena a0 w) as (A1 & A2).
  unfold Ant_update. fold a0. split; [|split].
  - intros Hal Hp He. rewrite Hal, Hp. cbn [negb orb]. cbv zeta.
    destruct (Qle_bool (energy a0) 0) eqn:E; [|exact Hin].
    apply Qle_bool_iff in E. unfold a0 in E. cbn [energy set_energy] in E. lra.
  - intros Hpos. destruct (negb (isAlive a) || paused CONFIG); [exact Hpos|].
    cbv zeta. destruct (Qle_bool (energy a0) 0); [exact Hpos | exact Hin].
  - destruct (negb (isAlive a) || paused CONFIG); [auto|].
    cbv zeta. destruct (Qle_bool (energy a0) 0); auto.
Qed.

End AntFacts.

Lemma ant_stays_in_arena_witness :
  inside crumb_world (position (fst (Ant_update approx shipped forager crumb_world))).
Proof.
  refine (proj1 (ant_stays_in_arena approx shipped forager crumb_world _ _) _ _ _);
    first [reflexivity | vm_compute; discriminate | vm_compute; reflexivity].
Defined.

(** *** The population *)

(** Every ant has its own id, below the colony's counter. *)
Definition ids_ok (c : AntColony) : Prop :=
  NoDup (map id (ants c)) /\ Forall (fun i => (i < antIdCounter c)%nat) (map id (ants c)).

Section ColonyFacts.

Variable Math : MathLib.
Variable CONFIG : Config.

(** [reset()] and [initialize()]; the loop of [initialize] calls [addAnt]
    [CONFIG.ant.count] times. *)
Definition AntColony_reset (c : AntColony) : AntColony :=
  mkColony (c_nestPosition c) [] 0.

Fixpoint addAnts (n : nat) (c : AntColony) (w : World) : AntColony * World :=
  match n with
  | O => (c, w)
  | S n' => let '(c, w) := addAnt Math CONFIG c w in addAnts n' c w
  end.

Definition AntColony_initialize (c : AntColony) (w : World) : AntColony * World :=
  addAnts (ant_count CONFIG) (mkColony (c_nestPosition c) [] (antIdCounter c)) w.

Lemma addAnt_ids c w :
  ids_ok c -> ids_ok (fst (addAnt Math CONFIG c w)) /\
  length (ants (fst (addAnt Math CONFIG c w))) = S (length (ants c)).
Proof.
  intros [Hnd Hlt].
  destruct (addAnt_fresh Math CONFIG c w) as (E1 & E2 & _).
  destruct (Ant_new_fresh Math CONFIG (c_nestPosition c) (antIdCounter c) w) as (Hid & _).
  unfold ids_ok. rewrite E1, E2, map_app. cbn [map]. rewrite Hid. split; [split|].
  - apply NoDup_app. split; [exact Hnd|]. split; [|apply NoDup_singleton].
    intros x Hx Hx'. apply list_elem_of_singleton in Hx'. subst x.
    rewrite Forall_forall in Hlt. specialize (Hlt _ Hx). lia.
  - apply Forall_app. split; [|constructor; [lia | constructor]].
    eapply Forall_impl; [exact Hlt|]. intros x Hx. simpl in Hx. lia.
  - rewrite length_app. simpl. lia.
Qed.

Lemma addAnts_ids n c w :
  ids_ok c -> ids_ok (fst (addAnts n c w)) /\
  length (ants (fst (addAnts n c w))) = (length (ants c) + n)%nat.
Proof.
  revert c w. induction n as [|n IH]; intros c w Hc.
  - simpl. split; [exact Hc | lia].
  - cbn [addAnts]. destruct (addAnt_ids c w Hc) as [H1 H2].
    destruct (addAnt Math CONFIG c w) as [c1 w1]. cbn [fst] in *.
    destruct (IH c1 w1 H1) as [I1 I2]. split; [exact I1|]. rewrite I2, H2. lia.
Qed.

Lemma filter_ids (f : Ant -> bool) (P : nat -> Prop) l :
  (NoDup (map id l) -> NoDup (map id (List.filter f l))) /\
  (Forall P (map id l) -> Forall P (map id (List.filter f l))) /\
  (forall i, i ∈ map id (List.filter f l) -> i ∈ map id l) /\
  (length (List.filter f l) <= length l)%nat.
Proof.
  induction l as [|a l (IH1 & IH2 & IH3 & IH4)]; simpl.
  - repeat split; auto.
  - assert (Hin : forall i, i ∈ map id (if f a then a :: List.filter f l else List.filter f l) ->
                            i ∈ id a :: map id l).
    { intros i Hi. destruct (f a); simpl in Hi.
      - apply elem_of_cons in Hi. destruct Hi as [->|Hi]; [left | right; auto].
      - right. auto. }
    split; [|split; [|split; [exact Hin|]]].
    + intros Hnd. apply NoDup_cons in Hnd. destruct Hnd as [Ha Hnd].
      destruct (f a); simpl; [|auto].
      apply NoDup_cons. split; [|auto]. intros Hi. apply Ha. auto.
    + intros Hall. apply Forall_cons in Hall. destruct Hall as [Ha Hall].
      destruct (f a); simpl; [constructor|]; auto.
    + destruct (f a); simpl; lia.
Qed.

Lemma update_ants_length l w :
  length (fst (update_ants Math CONFIG l w)) = length l.
Proof.
  rewrite <- (length_map id (fst _)), update_ants_ids. apply length_map.
Qed.

Lemma survivors_ids c w : ids_ok c -> ids_ok (survivors Math CONFIG c w).
Proof.
  intros [Hnd Hlt]. unfold ids_ok, survivors. cbn [ants antIdCounter].
  destruct (filter_ids isAlive (fun i => (i < antIdCounter c)%nat)
              (fst (update_ants Math CONFIG (ants c) w))) as (F1 & F2 & _).
  rewrite update_ants_ids in F1, F2. auto.
Qed.

Lemma survivors_alive c w :
  Forall (fun a => isAlive a = true) (ants (survivors Math CONFIG c w)) /\
  (length (ants (survivors Math CONFIG c w)) <= length (ants c))%nat.
Proof.
  unfold survivors. cbn [ants]. split.
  - apply Forall_forall. intros a Ha. apply list_elem_of_In in Ha.
    apply filter_In in Ha. tauto.
  - rewrite <- (update_ants_length (ants c) w). apply filter_ids. exact (fun _ => True).
Qed.

(** X18.  Ant ids are unique.  [initialize] builds a colony of
    [CONFIG.ant.count] ants whose ids are pairwise different and below the
    id counter, also after a [reset]; and a colony with that property keeps
    it through [addAnt] and [AntColony.update]. *)
Theorem ant_ids_stay_unique c w :
  ids_ok c ->
  ids_ok (fst (AntColony_initialize c w)) /\
  length (ants (fst (AntColony_initialize c w))) = ant_count CONFIG /\
  ids_ok (fst (AntColony_initialize (AntColony_reset c) w)) /\
  ids_ok (fst (addAnt Math CONFIG c w)) /\
  ids_ok (fst (AntColony_update Math CONFIG c w)).
Proof.
  intros Hc.
  assert (Hempty : forall p n, ids_ok (mkColony p [] n)).
  { intros p n. split; simpl; constructor. }
  split; [|split; [|split; [|split]]].
  - apply addAnts_ids, Hempty.
  - unfold AntColony_initialize.
    destruct (addAnts_ids (ant_count CONFIG) (mkColony (c_nestPosition c) [] (antIdCounter c))
                w (Hempty _ _)) as [_ E].
    rewrite E. reflexivity.
  - apply addAnts_ids, Hempty.
  - now apply addAnt_ids.
  - destruct (paused CONFIG) eqn:Hp.
    + unfold AntColony_update. now rewrite Hp.
    + destruct (AntColony_update_cases Math CONFIG c w Hp) as ([E|(w2 & E & _)] & _);
        rewrite E.
      * now apply survivors_ids.
      * apply addAnt_ids. now apply survivors_ids.
Qed.

(** X19.  While the simulation runs, after [AntColony.update] every ant of
    the colony is alive, and the colony has at most one ant more than
    before and no more than the larger of its previous size and
    [CONFIG.ant.maxCount]. *)
Theorem colony_population c w :
  paused CONFIG = false ->
  Forall (fun a => isAlive a = true) (ants (fst (AntColony_update Math CONFIG c w))) /\
  (length (ants (fst (AntColony_update Math CONFIG c w))) <= S (length (ants c)))%nat /\
  (length (ants (fst (AntColony_update Math CONFIG c w)))
     <= Nat.max (length (ants c)) (ant_maxCount CONFIG))%nat.
Proof.
  intros Hp. destruct (survivors_alive c w) as [Hal Hlen].
  destruct (AntColony_update_cases Math CONFIG c w Hp) as ([E|(w2 & E & Hlt)] & _);
    rewrite E.
  - split; [exact Hal | lia].
  - destruct (addAnt_fresh Math CONFIG (survivors Math CONFIG c w) w2) as (A1 & _).
    destruct (Ant_new_fresh Math CONFIG (c_nestPosition (survivors Math CONFIG c w))
                (antIdCounter (survivors Math CONFIG c w)) w2) as (_ & _ & _ & N & _).
    rewrite A1, length_app. cbn [length]. split; [|lia].
    apply Forall_app. split; [exact Hal|]. constructor; [exact N | constructor].
Qed.

End ColonyFacts.

Lemma ant_ids_stay_unique_witness :
  ids_ok (fst (AntColony_update approx shipped mixed_colony crumb_world)).
Proof.
  refine (proj2 (proj2 (proj2 (proj2
            (ant_ids_stay_unique approx shipped mixed_colony crumb_world _))))).
  split.
  - simpl. apply NoDup_cons. split; [|apply NoDup_singleton].
    intros H. apply list_elem_of_singleton in H. discriminate.
  - simpl. repeat constructor.
Defined.

Lemma colony_population_witness :
  Forall (fun a => isAlive a = true)
         (ants (fst (AntColony_update approx shipped mixed_colony crumb_world))).
Proof.
  refine (proj1 (colony_population approx shipped mixed_colony crumb_world _)).
  reflexivity.
Defined.

(** *** What an ant writes to the field *)

Section FieldWrites.

Variable Math : MathLib.
Variable CONFIG : Config.

Lemma sensePheromone_state ch p angle sensorAngle sensorDistance ps :
  snd (Pheromone.run
         (sensePheromone (lib_cos Math) (lib_sin Math) ch p angle sensorAngle sensorDistance)
         ps) = ps.
Proof.
  unfold Pheromone.run, sensePheromone, bind, ret.
  rewrite !getPheromoneAt_pure. reflexivity.
Qed.

Lemma sense_field a ch w :
  pheromoneSystem (snd (sense Math CONFIG a ch w)) = pheromoneSystem w.
Proof.
  unfold sense.
  pose proof (sensePheromone_state ch (position a) (direction a)
                (ant_sensorAngle CONFIG) (ant_sensorDistance CONFIG) (pheromoneSystem w)) as E.
  destruct (Pheromone.run _ _) as [s ps]. simpl in *. exact E.
Qed.

Lemma searchForFood_field a w :
  pheromoneSystem (snd (searchForFood Math CONFIG a w)) = pheromoneSystem w.
Proof.
  unfold searchForFood.
  destruct (canAntCollectFood Math CONFIG (foodManager w) a) as [[i src]|].
  - unfold Food_take, skip_random. cbv zeta. break_match; reflexivity.
  - destruct (calculateAvoidanceForce Math CONFIG (obstacleManager w) a); [reflexivity|].
    pose proof (sense_field a ToFood w) as E.
    destruct (sense Math CONFIG a ToFood w) as [s w0]. simpl in E.
    unfold Math_random. cbv zeta. break_match; simpl; exact E.
Qed.

Lemma returnToNest_field a w :
  pheromoneSystem (snd (returnToNest Math CONFIG a w)) = pheromoneSystem w.
Proof.
  unfold returnToNest.
  destruct (Nest_contains Math (nest w) (position a)).
  - unfold skip_random, Math_random. cbv zeta. reflexivity.
  - destruct (calculateAvoidanceForce Math CONFIG (obstacleManager w) a); [reflexivity|].
    pose proof (sense_field a ToNest w) as E.
    destruct (sense Math CONFIG a ToNest w) as [s w0]. simpl in E.
    unfold Math_random. cbv zeta. break_match; simpl; exact E.
Qed.

Lemma behave_field a w :
  pheromoneSystem (snd (behave Math CONFIG a w)) = pheromoneSystem w.
Proof.
  unfold behave. destruct (state a);
    [apply searchForFood_field | apply returnToNest_field].
Qed.

(** A deposit touches one cell of one grid. *)
Lemma deposit_frame ch p amount ps :
  let ps' := Pheromone.exec (deposit CONFIG ch p amount) ps in
  grid_of (other ch) ps' = grid_of (other ch) ps /\
  (forall i, i <> Z.to_nat (Pheromone.posToIndex ps p) ->
             grid_of ch ps' !! i = grid_of ch ps !! i).
Proof.
  cbv zeta. destruct (posToIndex_cases ps p) as [[_ E]|[_ Hne]].
  - unfold Pheromone.exec.
    pose proof (deposit_run_out CONFIG ch p amount ps E) as R.
    unfold Pheromone.run in R. rewrite R. auto.
  - rewrite (deposit_exec_in _ _ _ _ _ Hne). cbv zeta.
    split; [destruct ch; reflexivity|].
    intros i Hi. destruct ch; simpl; now rewrite list_lookup_insert_ne.
Qed.

(** The field is as it was, or has taken one deposit at the ant's position
    in the channel of the ant's state. *)
Definition one_deposit (a : Ant) (ps ps' : PheromoneSystem) : Prop :=
  ps' = ps \/
  exists amount,
    ps' = Pheromone.exec (deposit CONFIG (written (state a)) (position a) amount) ps.

Lemma depositPheromones_field a w :
  one_deposit a (pheromoneSystem w) (pheromoneSystem (snd (depositPheromones CONFIG a w))).
Proof.
  unfold one_deposit, depositPheromones, deposit_at. cbv zeta.
  destruct (_ <? _)%nat; [now left|].
  cbn [state set_lastDepositionTime].
  destruct (state a) eqn:Hs; right; eexists; simpl; reflexivity.
Qed.

Lemma act_field a w :
  one_deposit (fst (act Math CONFIG a w)) (pheromoneSystem w)
              (pheromoneSystem (snd (act Math CONFIG a w))).
Proof.
  destruct (act_after_behave Math CONFIG a w) as (_ & Hst & _).
  destruct (act_pose Math CONFIG a w) as (_ & Hpos). cbv zeta in Hpos.
  unfold one_deposit. rewrite Hst, Hpos.
  rewrite act_unfold. cbv zeta. cbn [snd].
  set (a2 := boundPosition Math _ _ _).
  destruct (boundPosition_keeps Math (move Math CONFIG (fst (behave Math CONFIG a w)))
              (width (snd (behave Math CONFIG a w)))
              (height (snd (behave Math CONFIG a w)))) as (_ & B & _).
  fold a2 in B.
  assert (M : state (move Math CONFIG (fst (behave Math CONFIG a w)))
              = state (fst (behave Math CONFIG a w))) by reflexivity.
  rewrite <- M, <- B, <- (behave_field a w).
  apply depositPheromones_field.
Qed.

Lemma Ant_update_field a w :
  one_deposit (fst (Ant_update Math CONFIG a w)) (pheromoneSystem w)
              (pheromoneSystem (snd (Ant_update Math CONFIG a w))).
Proof.
  unfold Ant_update.
  destruct (negb (isAlive a) || paused CONFIG); [now left|].
  cbv zeta. destruct (Qle_bool _ 0); [now left|].
  apply act_field.
Qed.

(** X20.  An ant writes one cell of one grid.  After [Ant.update] the grid
    the ant follows in the state it ends in (food trails when searching,
    nest trails when returning) is exactly as before, and in the other grid
    every cell except the one under the ant is as before. *)
Theorem ant_writes_one_cell a w :
  let a' := fst (Ant_update Math CONFIG a w) in
  let ps := pheromoneSystem w in
  let ps' := pheromoneSystem (snd (Ant_update Math CONFIG a w)) in
  grid_of (other (written (state a'))) ps' = grid_of (other (written (state a'))) ps /\
  (forall i, i <> Z.to_nat (Pheromone.posToIndex ps (position a')) ->
             grid_of (written (state a')) ps' !! i = grid_of (written (state a')) ps !! i).
Proof.
  cbv zeta. destruct (Ant_update_field a w) as [E|(amount & E)]; rewrite E.
  - auto.
  - apply deposit_frame.
Qed.

End FieldWrites.

(** *** Delivery *)

Section Delivery.

Variable Math : MathLib.
Variable CONFIG : Config.

Lemma boundPosition_energy a wd ht : energy (boundPosition Math a wd ht) = energy a.
Proof. unfold boundPosition. cbv zeta. break_match; reflexivity. Qed.

Lemma depositPheromones_energy a w :
  energy (fst (depositPheromones CONFIG a w)) = energy a.
Proof. unfold depositPheromones. cbv zeta. break_match; reflexivity. Qed.

Lemma act_energy a w :
  energy (fst (act Math CONFIG a w)) = energy (fst (behave Math CONFIG a w)).
Proof.
  rewrite act_unfold. cbv zeta. cbn [fst].
  assert (T : forall x, energy (if trailHistory CONFIG then updateTrail x else set_trail x [])
                        = energy x).
  { intros x. destruct (trailHistory CONFIG); reflexivity. }
  rewrite T, depositPheromones_energy, boundPosition_energy. reflexivity.
Qed.

(** X21.  Delivery.  A living ant that returns with food, has energy left
    after this tick's consumption and stands inside the nest hands over all
    it carries in this [Ant.update]: the nest's store grows by that amount,
    the ant carries nothing, searches again and has its full energy back;
    the food sources and the food-trail grid are left as they were. *)
Theorem delivering_ant_restocks a w :
  paused CONFIG = false -> isAlive a = true ->
  0 < energy a - ant_energyConsumption CONFIG * speedMultiplier CONFIG ->
  state a = returning ->
  Nest_contains Math (nest w) (position a) = true ->
  let a' := fst (Ant_update Math CONFIG a w) in
  let w' := snd (Ant_update Math CONFIG a w) in
  foodStored (nest w') == foodStored (nest w) + carryingFood a /\
  carryingFood a' = 0 /\ state a' = searching /\
  energy a' = ant_energyCapacity CONFIG /\
  foodManager w' = foodManager w /\
  toFoodGrid (pheromoneSystem w') = toFoodGrid (pheromoneSystem w).
Proof.
  intros Hp Hal He Hst Hn. cbv zeta.
  set (a0 := set_energy a (energy a - ant_energyConsumption CONFIG * speedMultiplier CONFIG)).
  assert (E : Ant_update Math CONFIG a w = act Math CONFIG a0 w).
  { unfold Ant_update. rewrite Hal, Hp. cbn [negb orb]. cbv zeta. fold a0.
    destruct (Qle_bool (energy a0) 0) eqn:Eq; [|reflexivity].
    apply Qle_bool_iff in Eq. unfold a0 in Eq. cbn [energy set_energy] in Eq. lra. }
  assert (B : behave Math CONFIG a0 w = returnToNest Math CONFIG a0 w).
  { unfold behave. change (state a0) with (state a). now rewrite Hst. }
  destruct (returnToNest_home Math CONFIG a0 w Hn) as (R1 & R2 & R3 & R4 & R5).
  destruct (act_after_behave Math CONFIG a0 w) as (_ & A2 & A1 & _).
  destruct (act_stock Math CONFIG a0 w) as (S1 & S2).
  pose proof (act_energy a0 w) as A3.
  pose proof (act_field Math CONFIG a0 w) as F.
  rewrite B in *. rewrite E.
  rewrite A1, A2, A3, S1, S2, R1, R2, R3, R4, R5.
  cbn [foodStored Nest_storeFood]. change (carryingFood a0) with (carryingFood a).
  split; [reflexivity|]. do 4 (split; [reflexivity|]).
  destruct F as [F|(amount & F)]; rewrite F; [reflexivity|].
  rewrite A2, R2.
  exact (proj1 (deposit_frame CONFIG ToNest _ amount (pheromoneSystem w))).
Qed.

End Delivery.

(** A carrier standing in the nest with one unit of food. *)
Definition carrier_home : Ant :=
  mkAnt 0 (mkVec 50 50) (mkVec 52 50) 0 2 (15 # 100) 1 returning 100 true
        [] 100 0 2 (1 # 10).

Lemma delivering_ant_restocks_witness :
  foodStored (nest (snd (Ant_update approx shipped carrier_home (arena_world [] arena))))
    == foodStored (nest (arena_world [] arena)) + carryingFood carrier_home.
Proof.
  refine (proj1 (delivering_ant_restocks approx shipped carrier_home
                   (arena_world [] arena) _ _ _ _ _));
    first [reflexivity | vm_compute; reflexivity].
Defined.

(** *** Angles *)

(** The remainder has the sign of the dividend and is smaller than the
    divisor. *)
Lemma js_rem_bound (x m : Q) :
  0 < m ->
  - m < js_rem x m /\ js_rem x m < m /\
  js_rem x m == x - inject_Z (Qtrunc (x / m)) * m.
Proof.
  intros Hm. unfold js_rem.
  assert (Hx : x == x / m * m).
  { field. intros E. rewrite E in Hm. now apply Qlt_irrefl in Hm. }
  set (q := x / m) in *.
  assert (Ht : - (1) < q - inject_Z (Qtrunc q) /\ q - inject_Z (Qtrunc q) < 1).
  { unfold Qtrunc. destruct (q <? 0).
    - pose proof (Qle_ceiling q) as H1. pose proof (Qceiling_lt q) as H2.
      unfold Z.sub in H2. rewrite inject_Z_plus, inject_Z_opp in H2.
      change (inject_Z 1) with 1 in H2. split; lra.
    - pose proof (Qfloor_le q) as H1. pose proof (Qlt_floor q) as H2.
      rewrite inject_Z_plus in H2. change (inject_Z 1) with 1 in H2. split; lra. }
  set (t := inject_Z (Qtrunc q)) in *. destruct Ht as [T1 T2].
  assert (E : x - m * t == m * (q - t)) by (rewrite Hx at 1; ring).
  assert (P1 : 0 < m * (q - t + 1)) by (apply Qmult_lt_0_compat; lra).
  assert (P2 : 0 < m * (1 - (q - t))) by (apply Qmult_lt_0_compat; lra).
  split; [|split].
  - rewrite E. lra.
  - rewrite E. lra.
  - ring.
Qed.

(** X22.  [MathUtils.angleDiff(a, b)] is a turn from [a] to [b] of at most
    half a circle: for a positive [Math.PI] the result lies in
    [[-PI, PI]] and differs from [b - a] by a whole number of full
    circles. *)
Theorem angleDiff_is_shortest_turn (Math : MathLib) (a b : Q) :
  0 < lib_PI Math ->
  - lib_PI Math <= angleDiff Math a b /\ angleDiff Math a b <= lib_PI Math /\
  exists k : Z, angleDiff Math a b == b - a + inject_Z k * (2 * lib_PI Math).
Proof.
  intros Hpi. unfold angleDiff. cbv zeta.
  assert (H2 : 0 < 2 * lib_PI Math) by lra.
  destruct (js_rem_bound (b - a) (2 * lib_PI Math) H2) as (R1 & R2 & R3).
  set (d := js_rem (b - a) (2 * lib_PI Math)) in *.
  set (t := Qtrunc ((b - a) / (2 * lib_PI Math))) in *.
  destruct (lib_PI Math <? d) eqn:E1.
  - apply Qltb_lt in E1.
    destruct (d - 2 * lib_PI Math <? - lib_PI Math) eqn:E2.
    + apply Qltb_lt in E2. lra.
    + apply Qltb_ge in E2. split; [lra|]. split; [lra|].
      exists (- t - 1)%Z. unfold Z.sub. rewrite R3, inject_Z_plus, !inject_Z_opp.
      change (inject_Z 1) with 1. ring.
  - apply Qltb_ge in E1.
    destruct (d <? - lib_PI Math) eqn:E2.
    + apply Qltb_lt in E2. split; [lra|]. split; [lra|].
      exists (- t + 1)%Z. rewrite R3, inject_Z_plus, inject_Z_opp.
      change (inject_Z 1) with 1. ring.
    + apply Qltb_ge in E2. split; [lra|]. split; [lra|].
      exists (- t)%Z. rewrite R3, inject_Z_opp. ring.
Qed.

Lemma angleDiff_is_shortest_turn_witness :
  - lib_PI approx <= angleDiff approx 6 (1 # 10) /\
  angleDiff approx 6 (1 # 10) <= lib_PI approx /\
  exists k : Z, angleDiff approx 6 (1 # 10) == (1 # 10) - 6 + inject_Z k * (2 * lib_PI approx).
Proof.
  apply (angleDiff_is_shortest_turn approx 6 (1 # 10)).
  vm_compute. reflexivity.
Defined.

(** *** Food sources *)

Section Foraging.

Variable Math : MathLib.
Variable CONFIG : Config.

(** One round of the loop of [findNearest]; [None] as [nearestDistance] is
    [Infinity], which every distance is below. *)
Definition nearer (position : Vec) (best : option Food * option Q) (food : Food)
  : option Food * option Q :=
  if negb (depleted food) then
    let distance := Vector_distance Math position (f_position food) in
    if match snd best with
       | None => true
       | Some nearestDistance => distance <? nearestDistance
       end
    then (Some food, Some distance)
    else best
  else best.

(** [FoodManager.findNearest(position)]; [None] is [null]. *)
Definition findNearest (foods : list Food) (position : Vec) : option Food :=
  fst (fold_left (nearer position) foods (None, None)).

(** What the loop of [findNearest] has established after the sources
    [seen]. *)
Definition nearest_of (position : Vec) (seen : list Food) (best : option Food * option Q)
  : Prop :=
  match fst best with
  | None => snd best = None /\ Forall (fun g => depleted g = true) seen
  | Some f =>
      snd best = Some (Vector_distance Math position (f_position f)) /\
      f ∈ seen /\ depleted f = false /\
      Forall (fun g => depleted g = false ->
                       Vector_distance Math position (f_position f)
                         <= Vector_distance Math position (f_position g)) seen
  end.

Lemma nearer_step position seen best food :
  nearest_of position seen best ->
  nearest_of position (seen ++ [food]) (nearer position best food).
Proof.
  unfold nearest_of, nearer. destruct best as [[f|] nd]; cbn [fst snd].
  - intros (-> & Hin & Hf & Hall).
    destruct (depleted food) eqn:Hd; cbn [negb fst snd].
    + split; [reflexivity|]. split; [apply elem_of_app; now left|].
      split; [exact Hf|]. apply Forall_app. split; [exact Hall|].
      constructor; [congruence | constructor].
    + destruct (_ <? _) eqn:E; cbn [fst snd].
      * apply Qltb_lt in E. split; [reflexivity|].
        split; [apply elem_of_app; right; now apply list_elem_of_singleton|].
        split; [exact Hd|]. apply Forall_app. split.
        -- eapply Forall_impl; [exact Hall|]. intros g Hg Hgd.
           specialize (Hg Hgd). cbv beta in Hg. lra.
        -- constructor; [intros _; lra | constructor].
      * apply Qltb_ge in E. split; [reflexivity|].
        split; [apply elem_of_app; now left|]. split; [exact Hf|].
        apply Forall_app. split; [exact Hall|]. constructor; [auto | constructor].
  - intros (-> & Hall).
    destruct (depleted food) eqn:Hd; cbn [negb fst snd].
    + split; [reflexivity|]. apply Forall_app. split; [exact Hall|].
      constructor; [exact Hd | constructor].
    + split; [reflexivity|].
      split; [apply elem_of_app; right; now apply list_elem_of_singleton|].
      split; [exact Hd|]. apply Forall_app. split.
      * eapply Forall_impl; [exact Hall|]. intros g Hg Hgd. cbv beta in Hg. congruence.
      * constructor; [intros _; lra | constructor].
Qed.

Lemma nearer_loop position foods seen best :
  nearest_of position seen best ->
  nearest_of position (seen ++ foods) (fold_left (nearer position) foods best).
Proof.
  revert seen best. induction foods as [|food foods IH]; intros seen best H.
  - simpl. now rewrite app_nil_r.
  - simpl. replace (seen ++ food :: foods) with ((seen ++ [food]) ++ foods)
      by now rewrite <- app_assoc.
    apply IH. now apply nearer_step.
Qed.

(** X23.  [findNearest] returns a nearest source that is not depleted: the
    source it returns is in the list, is not depleted, and no source that is
    not depleted is nearer to the position; it returns [null] exactly when
    every source is depleted. *)
Theorem findNearest_is_nearest foods position :
  match findNearest foods position with
  | Some f =>
      f ∈ foods /\ depleted f = false /\
      Forall (fun g => depleted g = false ->
                       Vector_distance Math position (f_position f)
                         <= Vector_distance Math position (f_position g)) foods
  | None => Forall (fun g => depleted g = true) foods
  end.
Proof.
  unfold findNearest.
  assert (H0 : nearest_of position [] (None, None)).
  { unfold nearest_of. simpl. split; [reflexivity | constructor]. }
  pose proof (nearer_loop position foods [] (None, None) H0) as H.
  rewrite app_nil_l in H. unfold nearest_of in H.
  destruct (fst (fold_left (nearer position) foods (None, None))) as [f|]; tauto.
Qed.

(** X24.  A food source never holds less than nothing or more than it
    started with.  For a source with [0 <= quantity <= initialQuantity],
    [take] of a non-negative amount hands out between 0 and that amount,
    lowers the quantity by exactly what it hands out, keeps the quantity in
    range and marks a source it has emptied as depleted; [update] with a
    non-negative respawn never lowers the quantity and keeps it in range. *)
Theorem food_source_stays_in_range f amount :
  0 <= quantity f -> quantity f <= initialQuantity f ->
  0 <= amount ->
  0 <= food_respawnRate CONFIG * speedMultiplier CONFIG ->
  let taken := fst (Food_take Math f amount) in
  let f' := snd (Food_take Math f amount) in
  let f'' := Food_update Math CONFIG f in
  (0 <= taken /\ taken <= amount /\ quantity f' == quantity f - taken /\
   0 <= quantity f' /\ quantity f' <= initialQuantity f' /\
   (quantity f' <= 0 -> depleted f' = true)) /\
  (quantity f <= quantity f'' /\ quantity f'' <= initialQuantity f'' /\
   initialQuantity f'' = initialQuantity f).
Proof.
  intros H0 H1 Ha Hr. cbv zeta. split.
  - unfold Food_take. cbv zeta. cbn [fst snd quantity initialQuantity depleted].
    assert (Hm : 0 <= Math_min amount (quantity f) /\
                 Math_min amount (quantity f) <= amount /\
                 Math_min amount (quantity f) <= quantity f).
    { unfold Math_min. destruct (Qle_bool amount (quantity f)) eqn:E.
      - apply Qle_bool_iff in E. repeat split; lra.
      - assert (~ amount <= quantity f)
          by (intros H; apply Qle_bool_iff in H; congruence).
        repeat split; lra. }
    destruct Hm as (M0 & M1 & M2).
    repeat split; try lra.
    intros Hq. apply Qle_bool_iff in Hq. now rewrite Hq.
  - unfold Food_update.
    destruct (food_respawnEnabled CONFIG && (quantity f <? initialQuantity f)) eqn:E;
      cbv zeta; cbn [quantity initialQuantity]; [|repeat split; lra].
    apply andb_true_iff in E. destruct E as [_ E]. apply Qltb_lt in E.
    unfold Math_min. destruct (Qle_bool _ (initialQuantity f)) eqn:E2.
    + apply Qle_bool_iff in E2. repeat split; lra.
    + repeat split; lra.
Qed.

End Foraging.

Lemma food_source_stays_in_range_witness :
  quantity (snd (Food_take approx crumb 1)) == quantity crumb - fst (Food_take approx crumb 1).
Proof.
  refine (proj1 (proj2 (proj2 (proj1
            (food_source_stays_in_range approx shipped crumb 1 _ _ _ _)))));
    vm_compute; discriminate.
Defined.

(** *** Obstacles *)

Section Avoidance.

Variable Math : MathLib.
Variable CONFIG : Config.

(** The test in the loop of [calculateAvoidanceForce]. *)
Definition in_reach (a : Ant) (o : Obstacle) : bool :=
  Vector_distance Math (position a) (o_position o)
    <? o_radius o + ant_sensorDistance CONFIG * (15 # 10).

(** The direction an ant takes from an avoidance force. *)
Definition veer (a : Ant) (force : Vec) : Ant :=
  set_direction a (direction a * 0.3 + lib_atan2 Math (vy force) (vx force) * 0.7).

Lemma avoidance_near obstacles a :
  (Forall (fun o => in_reach a o = false) obstacles ->
   calculateAvoidanceForce Math CONFIG obstacles a = None) /\
  (Exists (fun o => in_reach a o = true) obstacles ->
   exists force, calculateAvoidanceForce Math CONFIG obstacles a = Some force).
Proof.
  unfold calculateAvoidanceForce. cbv zeta.
  set (step := fun '(force, near) o => _).
  assert (L : forall l acc,
             (Forall (fun o => in_reach a o = false) l ->
              snd (fold_left step l acc) = snd acc) /\
             (snd acc = true \/ Exists (fun o => in_reach a o = true) l ->
              snd (fold_left step l acc) = true)).
  { induction l as [|o l IH]; intros [force near].
    - simpl. split; [reflexivity|]. intros [H|H]; [exact H | inversion H].
    - simpl. fold (in_reach a o).
      destruct (in_reach a o) eqn:E.
      + split.
        * intros H. inversion H; subst. congruence.
        * intros _. apply IH. now left.
      + split.
        * intros H. inversion H; subst. now apply IH.
        * intros [H|H]; apply IH; [now left|].
          inversion H; subst; [congruence | now right]. }
  destruct (L obstacles (mkVec 0 0, false)) as [L1 L2].
  destruct (fold_left step obstacles (mkVec 0 0, false)) as [force near].
  cbn [snd] in *. split.
  - intros H. now rewrite (L1 H).
  - intros H. rewrite (L2 (or_intror H)). eauto.
Qed.

(** X25.  Obstacles come before trails.  [calculateAvoidanceForce] returns
    [null] when no obstacle is within its radius plus one and a half sensor
    distances of the ant, and a force when one is.  With a force, an ant
    that finds no food to collect (when searching) or is outside the nest
    (when returning) only blends its direction with the direction of the
    force: it does not read the pheromone field, draws no random number and
    leaves the world unchanged. *)
Theorem obstacle_overrides_trails a w :
  (Forall (fun o => in_reach a o = false) (obstacleManager w) ->
   calculateAvoidanceForce Math CONFIG (obstacleManager w) a = None) /\
  (Exists (fun o => in_reach a o = true) (obstacleManager w) ->
   exists force,
     calculateAvoidanceForce Math CONFIG (obstacleManager w) a = Some force /\
     (canAntCollectFood Math CONFIG (foodManager w) a = None ->
      searchForFood Math CONFIG a w = (veer a force, w)) /\
     (Nest_contains Math (nest w) (position a) = false ->
      returnToNest Math CONFIG a w = (veer a force, w))).
Proof.
  destruct (avoidance_near (obstacleManager w) a) as [H1 H2].
  split; [exact H1|]. intros Hex. destruct (H2 Hex) as (force & Hf).
  exists force. split; [exact Hf|]. split.
  - intros Hc. unfold searchForFood. now rewrite Hc, Hf.
  - intros Hn. unfold returnToNest. now rewrite Hn, Hf.
Qed.

End Avoidance.

(** The arena with a rock of radius 20 at (20, 20), and a scout beside it. *)
Definition rocky_world : World :=
  mkWorld 100 100 home [] [mkObstacle (mkVec 20 20) 20] arena coin [].
Definition climber : Ant := scout 0 (mkVec 45 20) 100 0.

Lemma obstacle_overrides_trails_witness :
  exists force,
    calculateAvoidanceForce approx shipped (obstacleManager rocky_world) climber = Some force /\
    (canAntCollectFood approx shipped (foodManager rocky_world) climber = None ->
     searchForFood approx shipped climber rocky_world = (veer approx climber force, rocky_world)) /\
    (Nest_contains approx (nest rocky_world) (position climber) = false ->
     returnToNest approx shipped climber rocky_world = (veer approx climber force, rocky_world)).
Proof.
  apply (proj2 (obstacle_overrides_trails approx shipped climber rocky_world)).
  apply Exists_cons_hd. vm_compute. reflexivity.
Defined.

End Colony.


(** * MathUtils and Collision (js/utils.js) *)

Module MathUtils.

(** [lerp(a, b, t)]. *)
Definition lerp (a b t : Q) : Q := a + (b - a) * t.

(** [map(value, start1, stop1, start2, stop2)]. *)
Definition map (value start1 stop1 start2 stop2 : Q) : Q :=
  start2 + (stop2 - start2) * ((value - start1) / (stop1 - start1)).

(** [constrain(value, min, max)]. *)
Definition constrain (value min max : Q) : Q :=
  Math_min (Math_max value min) max.

Lemma constrain_spec value lo hi :
  lo <= hi ->
  (value <= lo /\ constrain value lo hi = lo) \/
  (hi < value /\ constrain value lo hi = hi) \/
  (lo < value /\ value <= hi /\ constrain value lo hi = value).
Proof.
  intros Hlh. unfold constrain, Math_max, Math_min.
  destruct (Qle_bool value lo) eqn:E1.
  - apply Qle_bool_iff in E1.
    assert (E2 : Qle_bool lo hi = true) by now apply Qle_bool_iff.
    rewrite E2. now left.
  - assert (H1 : lo < value).
    { apply Qnot_le_lt. intros H. apply Qle_bool_iff in H. congruence. }
    destruct (Qle_bool value hi) eqn:E2.
    + apply Qle_bool_iff in E2. right. right. auto.
    + right. left. split; [|reflexivity].
      apply Qnot_le_lt. intros H. apply Qle_bool_iff in H. congruence.
Qed.

(** [constrain] picks the point of [[lo, hi]] nearest to the value. *)
Lemma constrain_nearest value lo hi x :
  lo <= hi -> lo <= x -> x <= hi ->
  lo <= constrain value lo hi /\ constrain value lo hi <= hi /\
  (value - constrain value lo hi) * (value - constrain value lo hi)
    <= (value - x) * (value - x).
Proof.
  intros Hlh Hx1 Hx2.
  destruct (constrain_spec value lo hi Hlh) as [[H1 ->]|[[H1 ->]|(H1 & H2 & ->)]].
  - split; [lra|]. split; [lra|].
    assert (P : 0 <= (x - lo) * ((lo - value) + (x - value))).
    { apply Qmult_le_0_compat; lra. }
    lra.
  - split; [lra|]. split; [lra|].
    assert (P : 0 <= (hi - x) * ((value - hi) + (value - x))).
    { apply Qmult_le_0_compat; lra. }
    lra.
  - split; [lra|]. split; [lra|].
    assert (P : (value - x) * (value - x) == (x - value) * (x - value)) by ring.
    destruct (Qlt_le_dec value x).
    + assert (0 <= (x - value) * (x - value)) by (apply Qmult_le_0_compat; lra). lra.
    + assert (0 <= (value - x) * (value - x)) by (apply Qmult_le_0_compat; lra). lra.
Qed.

(** X26.  [map] sends the ends of the first range to the ends of the second,
    is [lerp] over the second range of the position in the first, and is
    undone by mapping back, whenever the ranges it divides by are not
    empty. *)
Theorem map_between_ranges value start1 stop1 start2 stop2 :
  ~ stop1 == start1 ->
  map start1 start1 stop1 start2 stop2 == start2 /\
  map stop1 start1 stop1 start2 stop2 == stop2 /\
  map value start1 stop1 start2 stop2
    == lerp start2 stop2 (map value start1 stop1 0 1) /\
  (~ stop2 == start2 ->
   map (map value start1 stop1 start2 stop2) start2 stop2 start1 stop1 == value).
Proof.
  intros H1. unfold map, lerp.
  assert (D1 : ~ stop1 - start1 == 0) by (intros E; apply H1; lra).
  split; [field; exact D1|]. split; [field; exact D1|]. split; [field; exact D1|].
  intros H2. assert (D2 : ~ stop2 - start2 == 0) by (intros E; apply H2; lra).
  field. split; assumption.
Qed.

Lemma map_between_ranges_witness :
  map 8 8 16 0 1 == 0 /\ map 16 8 16 0 1 == 1.
Proof.
  destruct (map_between_ranges 12 8 16 0 1) as (H1 & H2 & _).
  - vm_compute. discriminate.
  - split; assumption.
Defined.

End MathUtils.

Module Collision.

(** [pointRect(px, py, rx, ry, rw, rh)]. *)
Definition pointRect (px py rx ry rw rh : Q) : bool :=
  Qle_bool rx px && Qle_bool px (rx + rw) && Qle_bool ry py && Qle_bool py (ry + rh).

(** [circleRect(cx, cy, radius, rx, ry, rw, rh)]. *)
Definition circleRect (cx cy radius rx ry rw rh : Q) : bool :=
  let closestX := MathUtils.constrain cx rx (rx + rw) in
  let closestY := MathUtils.constrain cy ry (ry + rh) in
  let dx := cx - closestX in
  let dy := cy - closestY in
  dx * dx + dy * dy <? radius * radius.

(** [lineIntersection(x1, y1, x2, y2, x3, y3, x4, y4)]; [None] is [null]. *)
Definition lineIntersection (x1 y1 x2 y2 x3 y3 x4 y4 : Q) : option Vec :=
  let denom := (y4 - y3) * (x2 - x1) - (x4 - x3) * (y2 - y1) in
  if Qeq_bool denom 0 then None
  else
    let ua := ((x4 - x3) * (y1 - y3) - (y4 - y3) * (x1 - x3)) / denom in
    let ub := ((x2 - x1) * (y1 - y3) - (y2 - y1) * (x1 - x3)) / denom in
    if Qle_bool 0 ua && Qle_bool ua 1 && Qle_bool 0 ub && Qle_bool ub 1
    then Some (mkVec (x1 + ua * (x2 - x1)) (y1 + ua * (y2 - y1)))
    else None.

Lemma pointRect_iff px py rx ry rw rh :
  pointRect px py rx ry rw rh = true <->
  rx <= px /\ px <= rx + rw /\ ry <= py /\ py <= ry + rh.
Proof.
  unfold pointRect. rewrite !andb_true_iff, !Qle_bool_iff. tauto.
Qed.

(** X27.  [circleRect] is exact: for a rectangle of non-negative width and
    height it answers true exactly when some point of the rectangle (in the
    sense of [pointRect]) is at a distance below the radius from the
    centre of the circle. *)
Theorem circleRect_exact cx cy radius rx ry rw rh :
  0 <= rw -> 0 <= rh ->
  (circleRect cx cy radius rx ry rw rh = true <->
   exists x y, pointRect x y rx ry rw rh = true /\
               (cx - x) * (cx - x) + (cy - y) * (cy - y) < radius * radius).
Proof.
  intros Hw Hh. unfold circleRect. cbv zeta. rewrite Qltb_lt.
  assert (Hx : rx <= rx + rw) by lra. assert (Hy : ry <= ry + rh) by lra.
  split.
  - intros H.
    exists (MathUtils.constrain cx rx (rx + rw)), (MathUtils.constrain cy ry (ry + rh)).
    split; [|exact H]. apply pointRect_iff.
    destruct (MathUtils.constrain_nearest cx rx (rx + rw) rx Hx (Qle_refl rx) Hx)
      as (A1 & A2 & _).
    destruct (MathUtils.constrain_nearest cy ry (ry + rh) ry Hy (Qle_refl ry) Hy)
      as (B1 & B2 & _).
    auto.
  - intros (x & y & Hin & Hd). apply pointRect_iff in Hin.
    destruct Hin as (I1 & I2 & I3 & I4).
    destruct (MathUtils.constrain_nearest cx rx (rx + rw) x Hx I1 I2) as (_ & _ & A).
    destruct (MathUtils.constrain_nearest cy ry (ry + rh) y Hy I3 I4) as (_ & _ & B).
    lra.
Qed.

Lemma circleRect_exact_witness :
  circleRect 0 0 5 3 3 10 10 = true <->
  exists x y, pointRect x y 3 3 10 10 = true /\
              (0 - x) * (0 - x) + (0 - y) * (0 - y) < 5 * 5.
Proof.
  apply (circleRect_exact 0 0 5 3 3 10 10); vm_compute; discriminate.
Defined.

(** The point [p] lies on the segment from [(x1, y1)] to [(x2, y2)]. *)
Definition on_segment (p : Vec) (x1 y1 x2 y2 : Q) : Prop :=
  exists t, 0 <= t /\ t <= 1 /\
            vx p == x1 + t * (x2 - x1) /\ vy p == y1 + t * (y2 - y1).

Lemma Qeq_bool_false a b : Qeq_bool a b = false -> ~ a == b.
Proof. intros H E. apply Qeq_bool_iff in E. congruence. Qed.

(** X28.  [lineIntersection] returns only common points of the two
    segments; it returns the common point whenever the segments are not
    parallel and have one; and for parallel segments, such as a segment
    and itself, it returns [null] although they may share points. *)
Theorem lineIntersection_meets x1 y1 x2 y2 x3 y3 x4 y4 :
  (forall p, lineIntersection x1 y1 x2 y2 x3 y3 x4 y4 = Some p ->
             on_segment p x1 y1 x2 y2 /\ on_segment p x3 y3 x4 y4) /\
  (forall q, ~ (y4 - y3) * (x2 - x1) - (x4 - x3) * (y2 - y1) == 0 ->
             on_segment q x1 y1 x2 y2 -> on_segment q x3 y3 x4 y4 ->
             exists p, lineIntersection x1 y1 x2 y2 x3 y3 x4 y4 = Some p /\
                       vx p == vx q /\ vy p == vy q) /\
  lineIntersection x1 y1 x2 y2 x1 y1 x2 y2 = None.
Proof.
  split; [|split].
  - intros p. unfold lineIntersection. cbv zeta.
    set (denom := (y4 - y3) * (x2 - x1) - (x4 - x3) * (y2 - y1)).
    destruct (Qeq_bool denom 0) eqn:Ed; [discriminate|].
    apply Qeq_bool_false in Ed.
    set (ua := _ / denom). set (ub := _ / denom).
    destruct (Qle_bool 0 ua && Qle_bool ua 1 && Qle_bool 0 ub && Qle_bool ub 1) eqn:E;
      [|discriminate].
    rewrite !andb_true_iff, !Qle_bool_iff in E. destruct E as [[[A0 A1] B0] B1].
    intros [= <-]. split.
    + exists ua. cbn [vx vy]. repeat split; try assumption; reflexivity.
    + exists ub. cbn [vx vy]. repeat split; try assumption.
      * unfold ua, ub, denom. field. exact Ed.
      * unfold ua, ub, denom. field. exact Ed.
  - intros q Hd (s & S0 & S1 & Sx & Sy) (t & T0 & T1 & Tx & Ty).
    unfold lineIntersection. cbv zeta.
    set (denom := (y4 - y3) * (x2 - x1) - (x4 - x3) * (y2 - y1)) in *.
    destruct (Qeq_bool denom 0) eqn:Ed; [apply Qeq_bool_iff in Ed; contradiction|].
    assert (Ex : x1 - x3 == t * (x4 - x3) - s * (x2 - x1)) by lra.
    assert (Ey : y1 - y3 == t * (y4 - y3) - s * (y2 - y1)) by lra.
    assert (Ua : ((x4 - x3) * (y1 - y3) - (y4 - y3) * (x1 - x3)) / denom == s).
    { rewrite Ex, Ey. unfold denom. field. exact Hd. }
    assert (Ub : ((x2 - x1) * (y1 - y3) - (y2 - y1) * (x1 - x3)) / denom == t).
    { rewrite Ex, Ey. unfold denom. field. exact Hd. }
    set (ua := ((x4 - x3) * (y1 - y3) - (y4 - y3) * (x1 - x3)) / denom) in *.
    set (ub := ((x2 - x1) * (y1 - y3) - (y2 - y1) * (x1 - x3)) / denom) in *.
    clearbody ua ub.
    assert (E : Qle_bool 0 ua && Qle_bool ua 1 && Qle_bool 0 ub && Qle_bool ub 1 = true).
    { rewrite !andb_true_iff, !Qle_bool_iff. repeat split; lra. }
    rewrite E. eexists. split; [reflexivity|]. cbn [vx vy].
    rewrite Ua, Sx, Sy. split; reflexivity.
  - unfold lineIntersection. cbv zeta.
    assert (E : Qeq_bool ((y2 - y1) * (x2 - x1) - (x2 - x1) * (y2 - y1)) 0 = true).
    { apply Qeq_bool_iff. ring. }
    now rewrite E.
Qed.

Lemma lineIntersection_meets_witness :
  exists p, lineIntersection 0 0 4 4 0 4 4 0 = Some p /\
            vx p == vx (mkVec 2 2) /\ vy p == vy (mkVec 2 2).
Proof.
  apply (proj1 (proj2 (lineIntersection_meets 0 0 4 4 0 4 4 0)) (mkVec 2 2)).
  - vm_compute. discriminate.
  - exists (1 # 2). repeat split; vm_compute; first [discriminate | reflexivity].
  - exists (1 # 2). repeat split; vm_compute; first [discriminate | reflexivity].
Defined.

End Collision.

(** * Time of day and speed controls (Simulation, sketch, js/ui.js) *)

Module Clock.

(** [CONFIG.time]. *)
Record TimeConfig := mkTime {
  dayNightCycleDuration : Q;
  dayNightEnabled : bool
}.

(** The fields of [Simulation] the day/night cycle reads and writes. *)
Record Sky := mkSky {
  time : Q;
  dayNightCycle : Q;
  dayNightTransition : Q
}.

(** [calculateDayNightIntensity()]. *)
Definition calculateDayNightIntensity (s : Sky) : Q :=
  if dayNightCycle s <? 0.25 then MathUtils.map (dayNightCycle s) 0 0.25 0 1
  else if dayNightCycle s <? 0.75 then 1
  else MathUtils.map (dayNightCycle s) 0.75 1 1 0.

(** [updateDayNightCycle()]. *)
Definition updateDayNightCycle (cfg : TimeConfig) (s : Sky) : Sky :=
  if negb (dayNightEnabled cfg) then mkSky (time s) 0.5 (dayNightTransition s)
  else
    let cycleMs := dayNightCycleDuration cfg in
    let msSinceStart := Colony.js_rem (time s * 1000) cycleMs in
    let s := mkSky (time s) (msSinceStart / cycleMs) (dayNightTransition s) in
    let targetTransition := calculateDayNightIntensity s in
    mkSky (time s) (dayNightCycle s)
          (dayNightTransition s + (targetTransition - dayNightTransition s) * 0.05).

(** The speed buttons of the control panel; the left and right arrow keys
    do what [speedDown] and [speedUp] do. *)
Inductive SpeedControl := speedDown | speedNormal | speedUp.

Definition press (b : SpeedControl) (speedMultiplier : Q) : Q :=
  match b with
  | speedDown => Math_max 0.25 (speedMultiplier / 2)
  | speedNormal => 1
  | speedUp => Math_min 8 (speedMultiplier * 2)
  end.

Definition presses (l : list SpeedControl) (speedMultiplier : Q) : Q :=
  fold_left (fun m b => press b m) l speedMultiplier.

Lemma js_rem_nonneg (x m : Q) : 0 < m -> 0 <= x -> 0 <= Colony.js_rem x m.
Proof.
  intros Hm Hx.
  destruct (Colony.js_rem_bound x m Hm) as (_ & _ & E). rewrite E.
  assert (Hq : 0 <= x / m) by (apply Qle_shift_div_l; [exact Hm | lra]).
  unfold Colony.Qtrunc. apply Qltb_ge in Hq. rewrite Hq.
  assert (Hxm : x == x / m * m).
  { field. intros E0. rewrite E0 in Hm. now apply Qlt_irrefl in Hm. }
  pose proof (Qfloor_le (x / m)) as Hf.
  assert (P : 0 <= (x / m - inject_Z (Qfloor (x / m))) * m)
    by (apply Qmult_le_0_compat; lra).
  set (q := x / m) in *. set (f := inject_Z (Qfloor q)) in *. clearbody q f.
  rewrite Hxm at 1. lra.
Qed.

Lemma intensity_in_range s :
  0 <= dayNightCycle s -> dayNightCycle s <= 1 ->
  0 <= calculateDayNightIntensity s /\ calculateDayNightIntensity s <= 1.
Proof.
  intros H0 H1. unfold calculateDayNightIntensity.
  destruct (dayNightCycle s <? 0.25) eqn:E1.
  - apply Qltb_lt in E1.
    assert (E : MathUtils.map (dayNightCycle s) 0 0.25 0 1 == 4 * dayNightCycle s)
      by (unfold MathUtils.map; field).
    rewrite E. split; lra.
  - apply Qltb_ge in E1. destruct (dayNightCycle s <? 0.75) eqn:E2; [split; lra|].
    apply Qltb_ge in E2.
    assert (E : MathUtils.map (dayNightCycle s) 0.75 1 1 0 == 4 - 4 * dayNightCycle s)
      by (unfold MathUtils.map; field).
    rewrite E. split; lra.
Qed.

(** X29.  The time of day stays on the dial.  With a positive cycle
    duration and a non-negative simulation time, [updateDayNightCycle]
    leaves [dayNightCycle] in [[0, 1)] and keeps [dayNightTransition], the
    weight with which the background blends night and day, in [[0, 1]];
    the intensity it steers towards is in [[0, 1]] for every point of the
    dial. *)
Theorem day_night_stays_on_dial cfg s :
  0 < dayNightCycleDuration cfg -> 0 <= time s ->
  0 <= dayNightTransition s -> dayNightTransition s <= 1 ->
  let s' := updateDayNightCycle cfg s in
  0 <= dayNightCycle s' /\ dayNightCycle s' < 1 /\
  0 <= dayNightTransition s' /\ dayNightTransition s' <= 1 /\
  time s' = time s /\
  0 <= calculateDayNightIntensity s' /\ calculateDayNightIntensity s' <= 1.
Proof.
  intros Hd Ht T0 T1. cbv zeta.
  assert (G : forall s1, 0 <= dayNightCycle s1 -> dayNightCycle s1 < 1 ->
                         0 <= dayNightTransition s1 -> dayNightTransition s1 <= 1 ->
                         time s1 = time s ->
                         0 <= dayNightCycle s1 /\ dayNightCycle s1 < 1 /\
                         0 <= dayNightTransition s1 /\ dayNightTransition s1 <= 1 /\
                         time s1 = time s /\
                         0 <= calculateDayNightIntensity s1 /\
                         calculateDayNightIntensity s1 <= 1).
  { intros s1 C0 C1 U0 U1 Et.
    destruct (intensity_in_range s1 C0) as [I0 I1]; [lra|]. auto 10. }
  unfold updateDayNightCycle. destruct (dayNightEnabled cfg); cbn [negb].
  - cbv zeta.
    set (ms := Colony.js_rem (time s * 1000) (dayNightCycleDuration cfg)).
    assert (M0 : 0 <= ms) by (apply js_rem_nonneg; [exact Hd | lra]).
    destruct (Colony.js_rem_bound (time s * 1000) (dayNightCycleDuration cfg) Hd)
      as (_ & M1 & _). fold ms in M1.
    assert (C0 : 0 <= ms / dayNightCycleDuration cfg)
      by (apply Qle_shift_div_l; [exact Hd | lra]).
    assert (C1 : ms / dayNightCycleDuration cfg < 1)
      by (apply Qlt_shift_div_r; [exact Hd | lra]).
    set (s0 := mkSky (time s) (ms / dayNightCycleDuration cfg) (dayNightTransition s)).
    destruct (intensity_in_range s0 C0) as [I0 I1]; [cbn [dayNightCycle s0]; lra|].
    apply G; cbn [time dayNightCycle dayNightTransition s0]; try assumption;
      try reflexivity; lra.
  - apply G; cbn [time dayNightCycle dayNightTransition]; try assumption;
      try reflexivity; lra.
Qed.

Lemma day_night_stays_on_dial_witness :
  0 <= dayNightCycle (updateDayNightCycle (mkTime 60000 true) (mkSky 75 0 0)) /\
  dayNightCycle (updateDayNightCycle (mkTime 60000 true) (mkSky 75 0 0)) < 1.
Proof.
  destruct (day_night_stays_on_dial (mkTime 60000 true) (mkSky 75 0 0))
    as (H1 & H2 & _); try (vm_compute; first [reflexivity | discriminate]).
  split; assumption.
Defined.

(** The powers of two from a quarter to eight. *)
Definition rung (m : Q) : Prop :=
  m == 1 # 4 \/ m == 1 # 2 \/ m == 1 \/ m == 2 \/ m == 4 \/ m == 8.

Lemma press_range b m :
  0.25 <= m -> m <= 8 -> 0.25 <= press b m /\ press b m <= 8.
Proof.
  intros H0 H1. destruct b; unfold press, Math_max, Math_min;
    change (m / 2) with (m * (1 # 2)).
  - destruct (Qle_bool 0.25 (m * (1 # 2))) eqn:E.
    + apply Qle_bool_iff in E. split; lra.
    + split; lra.
  - split; lra.
  - destruct (Qle_bool 8 (m * 2)) eqn:E.
    + split; lra.
    + assert (~ 8 <= m * 2) by (intros H; apply Qle_bool_iff in H; congruence).
      split; lra.
Qed.

Lemma press_rung b m : rung m -> rung (press b m).
Proof.
  unfold rung. intros H. destruct b; unfold press, Math_max, Math_min;
    change (m / 2) with (m * (1 # 2)).
  - destruct (Qle_bool 0.25 (m * (1 # 2))) eqn:E.
    + apply Qle_bool_iff in E.
      destruct H as [H|[H|[H|[H|[H|H]]]]]; rewrite H in *.
      * exfalso. revert E. vm_compute. auto.
      * left. reflexivity.
      * right. left. reflexivity.
      * right. right. left. reflexivity.
      * right. right. right. left. reflexivity.
      * right. right. right. right. left. reflexivity.
    + left. reflexivity.
  - right. right. left. reflexivity.
  - destruct (Qle_bool 8 (m * 2)) eqn:E.
    + right. right. right. right. right. reflexivity.
    + assert (N : ~ 8 <= m * 2) by (intros H'; apply Qle_bool_iff in H'; congruence).
      destruct H as [H|[H|[H|[H|[H|H]]]]]; rewrite H in *.
      * right. left. reflexivity.
      * right. right. left. reflexivity.
      * right. right. right. left. reflexivity.
      * right. right. right. right. left. reflexivity.
      * exfalso. apply N. vm_compute. discriminate.
      * exfalso. apply N. vm_compute. discriminate.
Qed.

(** X30.  The speed controls keep the speed on its scale.  Whatever
    sequence of slower, normal and faster presses is made, a multiplier that
    starts within [[0.25, 8]] stays within it, and one that starts at the
    shipped value 1 is always one of 0.25, 0.5, 1, 2, 4 and 8. *)
Theorem speed_stays_on_scale (l : list SpeedControl) (m : Q) :
  0.25 <= m -> m <= 8 ->
  (0.25 <= presses l m /\ presses l m <= 8) /\
  rung (presses l (speedMultiplier Pheromone.shipped)).
Proof.
  intros H0 H1. split.
  - unfold presses. revert m H0 H1. induction l as [|b l IH]; intros m H0 H1.
    + simpl. split; assumption.
    + simpl. destruct (press_range b m H0 H1) as [P0 P1]. now apply IH.
  - assert (R : rung (speedMultiplier Pheromone.shipped)).
    { right. right. left. reflexivity. }
    unfold presses. revert R. generalize (speedMultiplier Pheromone.shipped).
    induction l as [|b l IH]; intros m0 R; simpl; [exact R|].
    apply IH. now apply press_rung.
Qed.

Lemma speed_stays_on_scale_witness :
  0.25 <= presses [speedUp; speedUp; speedUp; speedUp; speedDown] 1 /\
  presses [speedUp; speedUp; speedUp; speedUp; speedDown] 1 <= 8.
Proof.
  apply (speed_stays_on_scale [speedUp; speedUp; speedUp; speedUp; speedDown] 1);
    vm_compute; discriminate.
Defined.

End Clock.
